(** * QtAV: AVPlayer::Private

    A shallow embedding of [src/AVPlayerPrivate.cpp]: the notification
    precision, the audio channel correction, the packet queue sizing and the
    set-up of the audio and video threads (decoder selection, audio format
    negotiation, decoder ownership).

    Conventions.
    - [int] and [qint64] values are [Z]; [uint64_t] values are [N].
    - [qreal] is an IEEE 754 binary64 number, the kernel's [float].  The
      conversion of a [qreal] to [int] truncates toward zero and is undefined
      in C++ when the truncated value does not fit; [to_int] returns [None]
      there.
    - Objects created with [new] are numbered by a counter; every creation,
      destruction and call on a collaborator is appended to a log, newest
      event first, so that a property "at any time" is a property of every
      suffix of the log. *)

From Stdlib Require Import ZArith NArith List Bool Lia Floats Uint63.
Import ListNotations.

Local Open Scope Z_scope.

(** ** Numbers *)

Module Num.

Definition INT_MIN : Z := - 2 ^ 31.
Definition INT_MAX : Z := 2 ^ 31 - 1.

Definition in_int (z : Z) : bool := (INT_MIN <=? z) && (z <=? INT_MAX).

(** The integer part of the dyadic number [m * 2^e], for [0 <= m]. *)
Definition dyadic_trunc (m e : Z) : Z :=
  if 0 <=? e then m * 2 ^ e else m / 2 ^ (- e).

(** The integer part of a finite binary64 number, toward zero. *)
Definition SFtrunc (x : spec_float) : option Z :=
  match x with
  | S754_zero _ => Some 0
  | S754_finite s m e =>
      let a := dyadic_trunc (Z.pos m) e in
      Some (if s then - a else a)
  | S754_infinity _ | S754_nan => None
  end.

(** The integer part of a finite binary64 number, toward minus infinity:
    the mathematical floor. *)
Definition SFfloor (x : spec_float) : option Z :=
  match x with
  | S754_zero _ => Some 0
  | S754_finite s m e =>
      if s then
        Some (if 0 <=? e then - (Z.pos m * 2 ^ e)
              else - ((Z.pos m + 2 ^ (- e) - 1) / 2 ^ (- e)))
      else Some (dyadic_trunc (Z.pos m) e)
  | S754_infinity _ | S754_nan => None
  end.

(** [int(x)] for a [qreal] x. *)
Definition to_int (x : float) : option Z :=
  match SFtrunc (Prim2SF x) with
  | Some z => if in_int z then Some z else None
  | None => None
  end.

(** [floor(x)], as far as it fits an [int]. *)
Definition floor (x : float) : option Z :=
  match SFfloor (Prim2SF x) with
  | Some z => if in_int z then Some z else None
  | None => None
  end.

(** [qreal(n)] for an [int] n; exact, an [int] has fewer than 53 bits. *)
Definition of_int (n : Z) : float :=
  if n <? 0 then PrimFloat.opp (PrimFloat.of_uint63 (Uint63.of_Z (- n)))
  else PrimFloat.of_uint63 (Uint63.of_Z n).

(** [qMax<qreal>(a, b)], Qt's [(a < b) ? b : a]. *)
Definition qMax (a b : float) : float := if PrimFloat.ltb a b then b else a.

Definition is_nan (x : float) : bool := negb (PrimFloat.eqb x x).

End Num.

Import Num.

(** ** Internal::computeNotifyPrecision *)

Module Internal.

Definition computeNotifyPrecision (duration : Z) (fps : float) : option Z :=
  if (duration <=? 0) || (60 * 1000 <? duration) then Some 500
  else if 20 * 1000 <? duration then Some 250
  else
    let dt := 500 in
    if PrimFloat.ltb 1 fps then
      match to_int (PrimFloat.div (of_int (dt * 2)) fps) with
      | Some q => Some (Z.max 20 (Z.min 250 q))
      | None => None
      end
    else Some (Z.max 20 (Z.quot duration 80)).

End Internal.

(** ** Codec parameters and audio formats *)

(** [AVSampleFormat]; [AudioFormat::SampleFormat] has the same members and
    [setSampleFormatFFmpeg] maps one to the other. *)
Inductive SampleFormat :=
| SampleFormat_Unknown
| U8 | S16 | S32 | FLT | DBL
| U8P | S16P | S32P | FLTP | DBLP.

Definition SampleFormat_eqb (a b : SampleFormat) : bool :=
  match a, b with
  | SampleFormat_Unknown, SampleFormat_Unknown
  | U8, U8 | S16, S16 | S32, S32 | FLT, FLT | DBL, DBL
  | U8P, U8P | S16P, S16P | S32P, S32P | FLTP, FLTP | DBLP, DBLP => true
  | _, _ => false
  end.

Definition SampleFormat_isPlanar (f : SampleFormat) : bool :=
  match f with
  | U8P | S16P | S32P | FLTP | DBLP => true
  | _ => false
  end.

(** The fields of [AVCodecContext] that the audio path reads. *)
Record AVCodecContext := mkAVCodecContext {
  channels : Z;            (* int *)
  channel_layout : N;      (* uint64_t *)
  sample_rate : Z;         (* int *)
  sample_fmt : SampleFormat
}.

Definition set_channels (c : Z) (ctx : AVCodecContext) : AVCodecContext :=
  mkAVCodecContext c (channel_layout ctx) (sample_rate ctx) (sample_fmt ctx).

Definition set_channel_layout (l : N) (ctx : AVCodecContext) : AVCodecContext :=
  mkAVCodecContext (channels ctx) l (sample_rate ctx) (sample_fmt ctx).

(** Conversion of an [int64_t] to [uint64_t]. *)
Definition to_uint64 (z : Z) : N := Z.to_N (z mod 2 ^ 64).

(** An [AudioFormat] value: sample rate, sample format, channel layout.
    Planarity is a function of the sample format. *)
Record AudioFormat := mkAudioFormat {
  sampleRate : Z;
  sampleFormat : SampleFormat;
  channelLayout : N
}.

Definition setSampleRate (r : Z) (af : AudioFormat) : AudioFormat :=
  mkAudioFormat r (sampleFormat af) (channelLayout af).
Definition setSampleFormat (f : SampleFormat) (af : AudioFormat) : AudioFormat :=
  mkAudioFormat (sampleRate af) f (channelLayout af).
Definition setChannelLayout (l : N) (af : AudioFormat) : AudioFormat :=
  mkAudioFormat (sampleRate af) (sampleFormat af) l.
Definition isPlanar (af : AudioFormat) : bool :=
  SampleFormat_isPlanar (sampleFormat af).

(** Modelled from the spec: [AudioFormat::operator==] is not among the
    sources; two formats are compared by value, field by field. *)
Definition AudioFormat_eqb (a b : AudioFormat) : bool :=
  (sampleRate a =? sampleRate b)
  && SampleFormat_eqb (sampleFormat a) (sampleFormat b)
  && (channelLayout a =? channelLayout b)%N.

(** A default-constructed [AudioFormat]. *)
Definition AudioFormat_default : AudioFormat :=
  mkAudioFormat 0 SampleFormat_Unknown 0%N.

(** ** correct_audio_channels *)

(** The two FFmpeg functions that [correct_audio_channels] calls. *)
Record FFmpeg := mkFFmpeg {
  av_get_channel_layout_nb_channels : N -> Z;   (* uint64_t -> int *)
  av_get_default_channel_layout : Z -> Z        (* int -> int64_t *)
}.

Definition correct_audio_channels (ff : FFmpeg) (ctx : AVCodecContext)
  : bool * AVCodecContext :=
  let ctx' :=
    if channels ctx <=? 0 then
      if negb (channel_layout ctx =? 0)%N then
        set_channels
          (av_get_channel_layout_nb_channels ff (channel_layout ctx)) ctx
      else ctx
    else
      if (channel_layout ctx =? 0)%N then
        set_channel_layout
          (to_uint64 (av_get_default_channel_layout ff (channels ctx))) ctx
      else ctx in
  ((0 <? channel_layout ctx')%N && (0 <? channels ctx'), ctx').

(** ** Packet queue sizing

    [int queue_min = 0.61803*qMax<qreal>(24.0, frame_rate);]
    [int queue_max = int(1.61803*(qreal)queue_min);] *)

#[warnings="-inexact-float"]
Definition golden_low : float := 0.61803%float.
#[warnings="-inexact-float"]
Definition golden_high : float := 1.61803%float.

Definition queue_min (frame_rate : float) : option Z :=
  to_int (PrimFloat.mul golden_low (qMax 24%float frame_rate)).

Definition queue_max (qmin : Z) : option Z :=
  to_int (PrimFloat.mul golden_high (of_int qmin)).

Definition queue_sizing (frame_rate : float) : option (Z * Z) :=
  match queue_min frame_rate with
  | Some qmin =>
      match queue_max qmin with
      | Some qmax => Some (qmin, qmax)
      | None => None
      end
  | None => None
  end.

(** The formula in the words of the design: floor and maximum. *)
Definition spec_threshold (f : float) : option Z :=
  floor (PrimFloat.mul golden_low
           (if PrimFloat.leb f 24%float then 24%float else f)).

Definition spec_capacity (threshold : Z) : option Z :=
  floor (PrimFloat.mul golden_high (of_int threshold)).

Definition spec_sizing (f : float) : option (Z * Z) :=
  match spec_threshold f with
  | Some threshold =>
      match spec_capacity threshold with
      | Some capacity => Some (threshold, capacity)
      | None => None
      end
  | None => None
  end.

(** ** Collaborators *)

Definition Ptr := nat.
Definition VideoDecoderId := nat.
Definition AudioOutputId := nat.
Definition Filter := nat.
Definition Packet := nat.

Inductive ErrorCode := AudioCodecNotFound | VideoCodecNotFound.

Inductive ClockType := AudioClock | ExternalClock.

(** What is created with [new] or by a factory. *)
Inductive Obj :=
| AudioDecoderObj
| VideoDecoderObj (vid : VideoDecoderId)
| AudioOutputObj (aoid : AudioOutputId)
| AudioThreadObj
| VideoThreadObj.

Definition is_audio_decoder (o : Obj) : bool :=
  match o with AudioDecoderObj => true | _ => false end.
Definition is_video_decoder (o : Obj) : bool :=
  match o with VideoDecoderObj _ => true | _ => false end.
Definition is_audio_output (o : Obj) : bool :=
  match o with AudioOutputObj _ => true | _ => false end.

(** Calls on a collaborator that the set-up functions make. *)
Inductive Call :=
| disconnect
| connect_error                 (* connect(dec, SIGNAL(error), player, SIGNAL(error)) *)
| setCodecContext
| setOptions
| prepare (ok : bool)
| open (ok : bool)
| close
| setAudioFormat (af : AudioFormat)
| queue_clear
| setDecoder (d : option Ptr)
| setOutput (o : option Ptr)
| installFilter (f : Filter)
| setThreshold (n : Z)
| setCapacity (n : Z).

Inductive Event :=
| New (o : Obj) (p : Ptr)
| CreateFailed (o : Obj)        (* the factory returned null *)
| Delete (p : Ptr)
| On (p : Ptr) (c : Call)
| PlayerSetAudioOutput (o : option Ptr)
| EmitError (e : ErrorCode).

(** Modelled from the spec: the class [AudioOutput] is not among the
    sources.  The behaviour of an audio output backend: it reports whether
    it supports a format, a sample format or a channel layout, and its
    preferred sample format and channel layout; whether it opens depends on
    the format it was given; [initialFormat] is the format of a device just
    created. *)
Record AudioOutputImpl := mkAudioOutputImpl {
  isSupported : AudioFormat -> bool;
  isSupportedSampleFormat : SampleFormat -> bool;
  isSupportedChannelLayout : N -> bool;
  preferredSampleFormat : SampleFormat;
  preferredChannelLayout : N;
  open_ok : AudioFormat -> bool;
  initialFormat : AudioFormat
}.

(** Modelled from the spec: [AudioOutput::setAudioFormat] stores the format
    it is given and [audioFormat()] returns the stored one.  An audio output
    device: its address, its backend, the format it is configured with and
    whether it is open. *)
Record AudioOutput := mkAudioOutput {
  ao_ptr : Ptr;
  ao_id : AudioOutputId;
  ao_impl : AudioOutputImpl;
  audioFormat : AudioFormat;
  ao_opened : bool
}.

Record AudioDecoder := mkAudioDecoder {
  ad_ptr : Ptr;
  ad_opened : bool
}.

Record VideoDecoder := mkVideoDecoder {
  vd_ptr : Ptr;
  vd_id : VideoDecoderId
}.

(** An [AVThread] with its packet queue. *)
Record AVThread := mkAVThread {
  th_ptr : Ptr;
  th_decoder : option Ptr;
  th_output : option Ptr;
  th_packets : list Packet;
  th_threshold : Z;
  th_capacity : Z;
  th_filters : list Filter
}.

Definition thread_clear (t : AVThread) : AVThread :=
  mkAVThread (th_ptr t) (th_decoder t) (th_output t) [] (th_threshold t)
    (th_capacity t) (th_filters t).
Definition thread_setDecoder (d : option Ptr) (t : AVThread) : AVThread :=
  mkAVThread (th_ptr t) d (th_output t) (th_packets t) (th_threshold t)
    (th_capacity t) (th_filters t).
Definition thread_setOutput (o : option Ptr) (t : AVThread) : AVThread :=
  mkAVThread (th_ptr t) (th_decoder t) o (th_packets t) (th_threshold t)
    (th_capacity t) (th_filters t).
Definition thread_installFilter (f : Filter) (t : AVThread) : AVThread :=
  mkAVThread (th_ptr t) (th_decoder t) (th_output t) (th_packets t)
    (th_threshold t) (th_capacity t) (th_filters t ++ [f]).
Definition thread_setQueue (qmin qmax : Z) (t : AVThread) : AVThread :=
  mkAVThread (th_ptr t) (th_decoder t) (th_output t) (th_packets t) qmin qmax
    (th_filters t).

(** [AVRational] and FFmpeg's [av_q2d], [a.num / (double) a.den]. *)
Record AVRational := mkAVRational { num : Z; den : Z }.

Definition av_q2d (a : AVRational) : float :=
  PrimFloat.div (of_int (num a)) (of_int (den a)).

(** The video stream the demuxer has selected: its codec context (of which
    the statistics read the picture size) and its average frame rate. *)
Record VideoStream := mkVideoStream {
  avg_frame_rate : AVRational;
  width : Z;
  height : Z
}.

(** The part of [Statistics] that the set-up functions read or write. *)
Record Statistics := mkStatistics {
  audio_available : bool;
  audio_decoder : option Ptr;        (* statistics.audio.decoder *)
  audio_only_channels : Z;
  audio_only_channel_layout : N;
  audio_only_sample_rate : Z;
  video_available : bool;
  video_decoder : option VideoDecoderId;   (* statistics.video.decoder *)
  video_only_frame_rate : float;
  video_only_width : Z;
  video_only_height : Z
}.

(** What the collaborators answer during one call: the video decoder
    factory and the candidates' [prepare] and [open], the audio decoder's
    [open], the audio output factory, and the filters registered for the
    player. *)
Record World := mkWorld {
  vd_create : VideoDecoderId -> bool;
  vd_prepare : VideoDecoderId -> bool;
  vd_open : VideoDecoderId -> bool;
  ad_open : bool;
  ad_prepare : bool;
  ao_create : AudioOutputId -> option AudioOutputImpl;
  audioFilters : list Filter;
  videoFilters : list Filter
}.

(** ** AVPlayer::Private *)

(** The members of [AVPlayer::Private] that the set-up functions touch, the
    demuxer's selected streams, and the history. *)
Record Private := mkPrivate {
  vc_ids : list VideoDecoderId;
  ao_ids : list AudioOutputId;
  ao_enabled : bool;
  audioCodecContext : option AVCodecContext;  (* demuxer.audioCodecContext() *)
  videoStream : option VideoStream;           (* demuxer.videoCodecContext() *)
  clock : ClockType;
  ao : option AudioOutput;
  adec : option AudioDecoder;
  vdec : option VideoDecoder;
  athread : option AVThread;
  vthread : option AVThread;
  read_thread_audio : option Ptr;             (* read_thread->setAudioThread *)
  read_thread_video : option Ptr;             (* read_thread->setVideoThread *)
  statistics : Statistics;
  next_ptr : Ptr;
  log : list Event                            (* newest first *)
}.

Definition set_audioCodecContext (x : option AVCodecContext) (s : Private) :=
  mkPrivate (vc_ids s) (ao_ids s) (ao_enabled s) x (videoStream s) (clock s)
    (ao s) (adec s) (vdec s) (athread s) (vthread s) (read_thread_audio s)
    (read_thread_video s) (statistics s) (next_ptr s) (log s).
Definition set_videoStream (x : option VideoStream) (s : Private) :=
  mkPrivate (vc_ids s) (ao_ids s) (ao_enabled s) (audioCodecContext s) x
    (clock s) (ao s) (adec s) (vdec s) (athread s) (vthread s)
    (read_thread_audio s) (read_thread_video s) (statistics s) (next_ptr s)
    (log s).
Definition set_ao (x : option AudioOutput) (s : Private) :=
  mkPrivate (vc_ids s) (ao_ids s) (ao_enabled s) (audioCodecContext s)
    (videoStream s) (clock s) x (adec s) (vdec s) (athread s) (vthread s)
    (read_thread_audio s) (read_thread_video s) (statistics s) (next_ptr s)
    (log s).
Definition set_adec (x : option AudioDecoder) (s : Private) :=
  mkPrivate (vc_ids s) (ao_ids s) (ao_enabled s) (audioCodecContext s)
    (videoStream s) (clock s) (ao s) x (vdec s) (athread s) (vthread s)
    (read_thread_audio s) (read_thread_video s) (statistics s) (next_ptr s)
    (log s).
Definition set_vdec (x : option VideoDecoder) (s : Private) :=
  mkPrivate (vc_ids s) (ao_ids s) (ao_enabled s) (audioCodecContext s)
    (videoStream s) (clock s) (ao s) (adec s) x (athread s) (vthread s)
    (read_thread_audio s) (read_thread_video s) (statistics s) (next_ptr s)
    (log s).
Definition set_athread (x : option AVThread) (s : Private) :=
  mkPrivate (vc_ids s) (ao_ids s) (ao_enabled s) (audioCodecContext s)
    (videoStream s) (clock s) (ao s) (adec s) (vdec s) x (vthread s)
    (read_thread_audio s) (read_thread_video s) (statistics s) (next_ptr s)
    (log s).
Definition set_vthread (x : option AVThread) (s : Private) :=
  mkPrivate (vc_ids s) (ao_ids s) (ao_enabled s) (audioCodecContext s)
    (videoStream s) (clock s) (ao s) (adec s) (vdec s) (athread s) x
    (read_thread_audio s) (read_thread_video s) (statistics s) (next_ptr s)
    (log s).
Definition set_read_thread_audio (x : option Ptr) (s : Private) :=
  mkPrivate (vc_ids s) (ao_ids s) (ao_enabled s) (audioCodecContext s)
    (videoStream s) (clock s) (ao s) (adec s) (vdec s) (athread s) (vthread s)
    x (read_thread_video s) (statistics s) (next_ptr s) (log s).
Definition set_read_thread_video (x : option Ptr) (s : Private) :=
  mkPrivate (vc_ids s) (ao_ids s) (ao_enabled s) (audioCodecContext s)
    (videoStream s) (clock s) (ao s) (adec s) (vdec s) (athread s) (vthread s)
    (read_thread_audio s) x (statistics s) (next_ptr s) (log s).
Definition set_statistics (x : Statistics) (s : Private) :=
  mkPrivate (vc_ids s) (ao_ids s) (ao_enabled s) (audioCodecContext s)
    (videoStream s) (clock s) (ao s) (adec s) (vdec s) (athread s) (vthread s)
    (read_thread_audio s) (read_thread_video s) x (next_ptr s) (log s).

(** Appends an event to the history. *)
Definition emit (e : Event) (s : Private) : Private :=
  mkPrivate (vc_ids s) (ao_ids s) (ao_enabled s) (audioCodecContext s)
    (videoStream s) (clock s) (ao s) (adec s) (vdec s) (athread s) (vthread s)
    (read_thread_audio s) (read_thread_video s) (statistics s) (next_ptr s)
    (e :: log s).

(** [new]: the next address, and the creation in the history. *)
Definition alloc (o : Obj) (s : Private) : Ptr * Private :=
  let p := next_ptr s in
  (p,
   mkPrivate (vc_ids s) (ao_ids s) (ao_enabled s) (audioCodecContext s)
     (videoStream s) (clock s) (ao s) (adec s) (vdec s) (athread s)
     (vthread s) (read_thread_audio s) (read_thread_video s) (statistics s)
     (S p) (New o p :: log s)).

(** Modelled from the spec: the constructors of [Statistics] are not among
    the sources; the statistics of a stream kind without codec are a zeroed
    record. *)
Definition Statistics_default : Statistics :=
  mkStatistics false None 0 0%N 0 false None 0%float 0 0.

(** [AVPlayer::Private::Private()]: no decoder, no output, no thread, an
    audio clock; the candidate lists are fixed by the build. *)
Definition Private_init (vc : list VideoDecoderId) (aos : list AudioOutputId)
  : Private :=
  mkPrivate vc aos true None None AudioClock None None None None None None
    None Statistics_default 0%nat [].

(** *** Statistics

    Of the statistics the fields below are modelled.  The codec names, the
    bit rate, the frame count and the two times that [initCommonStatistics]
    fills in for either kind of stream are not among them; the conversion
    of the times to milliseconds is [stream_msecs]. *)

(** [initAudioStatistics]: without a codec context the audio statistics are
    reset; with one, they are filled from the context, whose channel fields
    [correct_audio_channels] has completed in place. *)
Definition initAudioStatistics (ff : FFmpeg) (s : Private) : Private :=
  let st := statistics s in
  match audioCodecContext s with
  | None =>
      set_statistics
        (mkStatistics false None 0 0%N 0
           (video_available st) (video_decoder st) (video_only_frame_rate st)
           (video_only_width st) (video_only_height st)) s
  | Some avctx =>
      let avctx := snd (correct_audio_channels ff avctx) in
      set_statistics
        (mkStatistics true (audio_decoder st) (channels avctx)
           (channel_layout avctx) (sample_rate avctx)
           (video_available st) (video_decoder st) (video_only_frame_rate st)
           (video_only_width st) (video_only_height st))
        (set_audioCodecContext (Some avctx) s)
  end.

(** [initVideoStatistics]: the frame rate is
    [av_q2d(stream->avg_frame_rate)]; without a codec context the video
    statistics are reset to [Statistics_default]'s. *)
Definition initVideoStatistics (s : Private) : Private :=
  let st := statistics s in
  match videoStream s with
  | None =>
      set_statistics
        (mkStatistics (audio_available st) (audio_decoder st)
           (audio_only_channels st) (audio_only_channel_layout st)
           (audio_only_sample_rate st) false None 0%float 0 0) s
  | Some vs =>
      set_statistics
        (mkStatistics (audio_available st) (audio_decoder st)
           (audio_only_channels st) (audio_only_channel_layout st)
           (audio_only_sample_rate st) true (video_decoder st)
           (av_q2d (avg_frame_rate vs)) (width vs) (height vs)) s
  end.

Definition set_audio_decoder_name (d : option Ptr) (s : Private) : Private :=
  let st := statistics s in
  set_statistics
    (mkStatistics (audio_available st) d (audio_only_channels st)
       (audio_only_channel_layout st) (audio_only_sample_rate st)
       (video_available st) (video_decoder st) (video_only_frame_rate st)
       (video_only_width st) (video_only_height st)) s.

Definition set_video_decoder_name (d : option VideoDecoderId) (s : Private)
  : Private :=
  let st := statistics s in
  set_statistics
    (mkStatistics (audio_available st) (audio_decoder st)
       (audio_only_channels st) (audio_only_channel_layout st)
       (audio_only_sample_rate st) (video_available st) d
       (video_only_frame_rate st) (video_only_width st)
       (video_only_height st)) s.

(** *** Video thread *)

(** Lines 398-403: an existing thread loses its packets and its decoder,
    and the video statistics are read again. *)
Definition reset_video_thread (s : Private) : Private :=
  match vthread s with
  | Some t =>
      let s := emit (On (th_ptr t) queue_clear) s in
      let s := emit (On (th_ptr t) (setDecoder None)) s in
      let s := set_vthread (Some (thread_setDecoder None (thread_clear t))) s in
      initVideoStatistics s
  | None => s
  end.

(** Lines 408-412: [if (vdec) { vdec->disconnect(); delete vdec; vdec = 0; }] *)
Definition delete_vdec (s : Private) : Private :=
  match vdec s with
  | Some d =>
      set_vdec None
        (emit (Delete (vd_ptr d)) (emit (On (vd_ptr d) disconnect) s))
  | None => s
  end.

(** Lines 413-428, the loop over [vc_ids]: the first candidate that the
    factory creates and that prepares and opens becomes [vdec]; a candidate
    that was created and failed is deleted before the next one is tried. *)
Fixpoint try_video_decoders (w : World) (ids : list VideoDecoderId)
  (s : Private) : Private :=
  match ids with
  | [] => s
  | vid :: rest =>
      if vd_create w vid then
        let (vd, s) := alloc (VideoDecoderObj vid) s in
        let s := emit (On vd setCodecContext) s in
        let s := emit (On vd setOptions) s in
        let s := emit (On vd (prepare (vd_prepare w vid))) s in
        if vd_prepare w vid then
          let s := emit (On vd (open (vd_open w vid))) s in
          if vd_open w vid then
            set_vdec (Some (mkVideoDecoder vd vid)) s          (* break *)
          else try_video_decoders w rest (emit (Delete vd) s)
        else try_video_decoders w rest (emit (Delete vd) s)
      else                                                     (* continue *)
        try_video_decoders w rest (emit (CreateFailed (VideoDecoderObj vid)) s)
  end.

(** [setThreshold(queue_min); setCapacity(queue_max)] on a thread's queue. *)
Definition resize_queue (qmin qmax : Z) (t : AVThread) (s : Private)
  : Private :=
  emit (On (th_ptr t) (setCapacity qmax))
    (emit (On (th_ptr t) (setThreshold qmin)) s).

(** A new thread with the filters registered for the player installed.
    The clock, the statistics and the output set it is given are not
    modelled; the queue sizes it starts with are replaced before the set-up
    returns. *)
Definition new_thread (p : Ptr) (filters : list Filter) : AVThread :=
  fold_left (fun t f => thread_installFilter f t) filters
    (mkAVThread p None None [] 0 0 []).

(** Lines 436-461: the decoder found is connected, named in the statistics
    and given to the thread, which is created the first time; the queue is
    resized.  The picture settings passed to the thread are not modelled. *)
Definition install_video_decoder (w : World) (d : VideoDecoder) (s : Private)
  : option (bool * Private) :=
  let s := emit (On (vd_ptr d) connect_error) s in
  let s := set_video_decoder_name (Some (vd_id d)) s in
  let (t, s) :=
    match vthread s with
    | Some t => (t, s)
    | None =>
        let (p, s) := alloc VideoThreadObj s in
        (new_thread p (videoFilters w), set_read_thread_video (Some p) s)
    end in
  let t := thread_setDecoder (Some (vd_ptr d)) t in
  let s := emit (On (th_ptr t) (setDecoder (Some (vd_ptr d)))) s in
  match queue_sizing (video_only_frame_rate (statistics s)) with
  | None => None
  | Some (qmin, qmax) =>
      Some (true,
            set_vthread (Some (thread_setQueue qmin qmax t))
              (resize_queue qmin qmax t s))
  end.

(** [setupVideoThread].  The stream is the one the demuxer holds when the
    function asks for it: [videoStream] stands for
    [demuxer.videoCodecContext()] after the selection of line 395.  A
    change of the selection is a step of its own, [reach_streams]. *)
Definition setupVideoThread (w : World) (s : Private)
  : option (bool * Private) :=
  let s := reset_video_thread s in
  match videoStream s with
  | None => Some (false, s)
  | Some avctx =>
      let s := delete_vdec s in
      let s := try_video_decoders w (vc_ids s) s in
      match vdec s with
      | None => Some (false, emit (EmitError VideoCodecNotFound) s)
      | Some d => install_video_decoder w d s
      end
  end.

(** *** Audio thread *)

(** Lines 281-286: an existing thread loses its packets, its decoder and
    its output, and the audio statistics are read again. *)
Definition reset_audio_thread (ff : FFmpeg) (s : Private) : Private :=
  match athread s with
  | Some t =>
      let s := emit (On (th_ptr t) queue_clear) s in
      let s := emit (On (th_ptr t) (setDecoder None)) s in
      let s := emit (On (th_ptr t) (setOutput None)) s in
      let s :=
        set_athread
          (Some (thread_setOutput None
                   (thread_setDecoder None (thread_clear t)))) s in
      initAudioStatistics ff s
  | None => s
  end.

(** Lines 294-298: [if (adec) { adec->disconnect(); delete adec; adec = 0; }] *)
Definition delete_adec (s : Private) : Private :=
  match adec s with
  | Some d =>
      set_adec None
        (emit (Delete (ad_ptr d)) (emit (On (ad_ptr d) disconnect) s))
  | None => s
  end.

(** Lines 299-303: the new decoder, connected and configured, and its
    [open()]. *)
Definition new_adec (w : World) (s : Private) : Ptr * Private :=
  let (p, s) := alloc AudioDecoderObj s in
  let s := set_adec (Some (mkAudioDecoder p false)) s in
  let s := emit (On p connect_error) s in
  let s := emit (On p setCodecContext) s in
  let s := emit (On p setOptions) s in
  (p, emit (On p (open (ad_open w))) s).

(** [foreach (AudioOutputId aoid, ao_ids)]: the first backend the factory
    creates becomes [ao]. *)
Fixpoint try_audio_outputs (w : World) (ids : list AudioOutputId)
  (s : Private) : Private :=
  match ids with
  | [] => s
  | aoid :: rest =>
      match ao_create w aoid with
      | Some impl =>
          let (p, s) := alloc (AudioOutputObj aoid) s in
          set_ao (Some (mkAudioOutput p aoid impl (initialFormat impl) false)) s
      | None =>
          try_audio_outputs w rest (emit (CreateFailed (AudioOutputObj aoid)) s)
      end
  end.

(** Lines 311-320: [if (!ao && ao_enabled)], look for an output. *)
Definition find_audio_output (w : World) (s : Private) : Private :=
  match ao s with
  | None => if ao_enabled s then try_audio_outputs w (ao_ids s) s else s
  | Some _ => s
  end.

(** Lines 327-347: the format that the device is asked to play, from the
    codec context (after [correct_audio_channels]) and the device's
    abilities. *)
Definition negotiated_format (dev : AudioOutputImpl) (avctx : AVCodecContext)
  : AudioFormat :=
  let af := AudioFormat_default in
  let af := setSampleRate (sample_rate avctx) af in
  let af := setSampleFormat (sample_fmt avctx) af in
  let af :=
    if 2 <? channels avctx
    then setChannelLayout (preferredChannelLayout dev) af
    else setChannelLayout (channel_layout avctx) af in
  let af :=
    if isPlanar af then setSampleFormat (preferredSampleFormat dev) af
    else af in
  if negb (isSupported dev af) then
    let af :=
      if negb (isSupportedSampleFormat dev (sampleFormat af))
      then setSampleFormat (preferredSampleFormat dev) af else af in
    let af :=
      if negb (isSupportedChannelLayout dev (channelLayout af))
      then setChannelLayout (preferredChannelLayout dev) af else af in
    af
  else af.

(** Lines 348-358: when the device's format differs from the negotiated
    one the device is closed, given the format and opened again; when that
    fails the device is deleted and the set-up returns false ([inl]);
    otherwise the set-up goes on ([inr]). *)
Definition reopen_audio_output (dev : AudioOutput) (af : AudioFormat)
  (s : Private) : Private + Private :=
  if negb (AudioFormat_eqb (audioFormat dev) af) then
    let s := emit (On (ao_ptr dev) close) s in
    let s := emit (On (ao_ptr dev) (setAudioFormat af)) s in
    let ok := open_ok (ao_impl dev) af in
    let s := emit (On (ao_ptr dev) (open ok)) s in
    if negb ok then inl (set_ao None (emit (Delete (ao_ptr dev)) s))
    else
      inr (set_ao (Some (mkAudioOutput (ao_ptr dev) (ao_id dev) (ao_impl dev)
                           af true)) s)
  else inr s.

(** Lines 360-390, from [adec->prepare()] on. The resampler's formats are
    not modelled; [AVPlayer::setAudioOutput] is outside this file and the
    call is recorded. *)
Definition finish_audio_setup (w : World) (d : Ptr) (s : Private)
  : option (bool * Private) :=
  let s := emit (On d (prepare (ad_prepare w))) s in
  let (t, s) :=
    match athread s with
    | Some t => (t, s)
    | None =>
        let (p, s) := alloc AudioThreadObj s in
        (new_thread p (audioFilters w), set_read_thread_audio (Some p) s)
    end in
  let t := thread_setDecoder (Some d) t in
  let s := emit (On (th_ptr t) (setDecoder (Some d))) s in
  let s := emit (PlayerSetAudioOutput (option_map ao_ptr (ao s))) s in
  match queue_sizing (video_only_frame_rate (statistics s)) with
  | None => None
  | Some (qmin, qmax) =>
      Some (true,
            set_athread (Some (thread_setQueue qmin qmax t))
              (resize_queue qmin qmax t s))
  end.

(** [setupAudioThread].  As for the video: [audioCodecContext] stands for
    [demuxer.audioCodecContext()] after the selection of line 278. *)
Definition setupAudioThread (ff : FFmpeg) (w : World) (s : Private)
  : option (bool * Private) :=
  let s := reset_audio_thread ff s in
  match audioCodecContext s with
  | None => Some (false, s)
  | Some avctx =>
      let s := delete_adec s in
      let (p, s) := new_adec w s in
      if negb (ad_open w) then
        Some (false, emit (EmitError AudioCodecNotFound) s)
      else
        let s := set_adec (Some (mkAudioDecoder p true)) s in
        let s := set_audio_decoder_name (Some p) s in
        let s := find_audio_output w s in
        match ao s with
        | None => finish_audio_setup w p s
        | Some dev =>
            let avctx := snd (correct_audio_channels ff avctx) in
            let s := set_audioCodecContext (Some avctx) s in
            let af := negotiated_format (ao_impl dev) avctx in
            match reopen_audio_output dev af s with
            | inl s => Some (false, s)
            | inr s => finish_audio_setup w p s
            end
        end
  end.

Arguments correct_audio_channels : simpl never.
Arguments negotiated_format : simpl never.
Arguments queue_sizing : simpl never.
Arguments new_thread : simpl never.

(** ** Reading the history *)

(** The objects alive after a history: created and not deleted since. *)
Fixpoint live (l : list Event) : list (Ptr * Obj) :=
  match l with
  | [] => []
  | New o p :: l => (p, o) :: live l
  | Delete p :: l => filter (fun x => negb (Nat.eqb (fst x) p)) (live l)
  | _ :: l => live l
  end.

Definition live_of (k : Obj -> bool) (l : list Event) : list (Ptr * Obj) :=
  filter (fun x => k (snd x)) (live l).

(** [h] is the history at some earlier time of [l]. *)
Definition earlier (h l : list Event) : Prop := exists d, l = d ++ h.

(** The errors emitted on the player, newest first. *)
Fixpoint emitted (l : list Event) : list ErrorCode :=
  match l with
  | [] => []
  | EmitError e :: l => e :: emitted l
  | _ :: l => emitted l
  end.

(** The candidates the video decoder factory was asked for, newest first. *)
Fixpoint requested (l : list Event) : list VideoDecoderId :=
  match l with
  | [] => []
  | New (VideoDecoderObj vid) _ :: l => vid :: requested l
  | CreateFailed (VideoDecoderObj vid) :: l => vid :: requested l
  | _ :: l => requested l
  end.

(** The calls that close, configure or open the object at [p]. *)
Definition is_device_call (p : Ptr) (e : Event) : bool :=
  match e with
  | On q close | On q (setAudioFormat _) | On q (open _) => Nat.eqb q p
  | _ => false
  end.

(** A candidate succeeds when the factory creates it and it prepares and
    opens. *)
Definition succeeds (w : World) (vid : VideoDecoderId) : bool :=
  vd_create w vid && vd_prepare w vid && vd_open w vid.

Definition vdec_live (s : Private) : list (Ptr * Obj) :=
  match vdec s with
  | Some d => [(vd_ptr d, VideoDecoderObj (vd_id d))]
  | None => []
  end.

Definition adec_live (s : Private) : list (Ptr * Obj) :=
  match adec s with
  | Some d => [(ad_ptr d, AudioDecoderObj)]
  | None => []
  end.

(** The decoder a thread works with, if the thread exists. *)
Definition thread_decoder (t : option AVThread) : option Ptr :=
  match t with
  | Some t => th_decoder t
  | None => None
  end.

(** The states of a player: after construction, after a set-up of either
    thread, after the demuxer has selected other streams, after the
    statistics were initialised, after the demuxer has queued a packet. *)
Inductive reachable (ff : FFmpeg) : Private -> Prop :=
| reach_init vc aos : reachable ff (Private_init vc aos)
| reach_video w s r s' :
    reachable ff s -> setupVideoThread w s = Some (r, s') -> reachable ff s'
| reach_audio w s r s' :
    reachable ff s -> setupAudioThread ff w s = Some (r, s') -> reachable ff s'
| reach_streams a v s :
    reachable ff s ->
    reachable ff (set_videoStream v (set_audioCodecContext a s))
| reach_statistics s :
    reachable ff s ->
    reachable ff (initVideoStatistics (initAudioStatistics ff s))
| reach_audio_packet pkt t s :
    reachable ff s -> athread s = Some t ->
    reachable ff
      (set_athread
         (Some (mkAVThread (th_ptr t) (th_decoder t) (th_output t)
                  (th_packets t ++ [pkt]) (th_threshold t) (th_capacity t)
                  (th_filters t))) s)
| reach_video_packet pkt t s :
    reachable ff s -> vthread s = Some t ->
    reachable ff
      (set_vthread
         (Some (mkAVThread (th_ptr t) (th_decoder t) (th_output t)
                  (th_packets t ++ [pkt]) (th_threshold t) (th_capacity t)
                  (th_filters t))) s).

(** Events that neither create nor destroy. *)
Definition quiet (e : Event) : bool :=
  match e with
  | New _ _ | Delete _ => false
  | _ => true
  end.

Definition is_decoder_or_output (o : Obj) : bool :=
  is_video_decoder o || is_audio_decoder o || is_audio_output o.

(** The histories that the set-up functions write: every object is created
    at the next free address; a video decoder, an audio decoder or an audio
    output is created only when none of its kind is alive; what is deleted
    is the one alive.  [Hist l n v a o]: after [l] the next address is [n]
    and the video decoders, audio decoders and audio outputs alive are [v],
    [a] and [o]. *)
Inductive Hist :
  list Event -> Ptr -> list (Ptr * Obj) -> list (Ptr * Obj) ->
  list (Ptr * Obj) -> Prop :=
| Hist_nil n : Hist [] n [] [] []
| Hist_quiet e l n v a o :
    quiet e = true -> Hist l n v a o -> Hist (e :: l) n v a o
| Hist_new_video vid l n a o :
    Hist l n [] a o ->
    Hist (New (VideoDecoderObj vid) n :: l) (S n)
      [(n, VideoDecoderObj vid)] a o
| Hist_new_audio l n v o :
    Hist l n v [] o ->
    Hist (New AudioDecoderObj n :: l) (S n) v [(n, AudioDecoderObj)] o
| Hist_new_output aoid l n v a :
    Hist l n v a [] ->
    Hist (New (AudioOutputObj aoid) n :: l) (S n) v a
      [(n, AudioOutputObj aoid)]
| Hist_new_thread ob l n v a o :
    is_decoder_or_output ob = false ->
    Hist l n v a o -> Hist (New ob n :: l) (S n) v a o
| Hist_delete_video p ob l n a o :
    Hist l n [(p, ob)] a o -> Hist (Delete p :: l) n [] a o
| Hist_delete_audio p ob l n v o :
    Hist l n v [(p, ob)] o -> Hist (Delete p :: l) n v [] o
| Hist_delete_output p ob l n v a :
    Hist l n v a [(p, ob)] -> Hist (Delete p :: l) n v a [].

Definition output_live (s : Private) : list (Ptr * Obj) :=
  match ao s with
  | Some d => [(ao_ptr d, AudioOutputObj (ao_id d))]
  | None => []
  end.

(** The ownership invariant of a player: its history is one of [Hist], and
    the decoders and the output alive are the ones [vdec], [adec] and [ao]
    point to. *)
Definition Inv (s : Private) : Prop :=
  Hist (log s) (next_ptr s) (vdec_live s) (adec_live s) (output_live s).

(** [s'] differs from [s] at most in [vdec], the addresses and the history. *)
Definition frame_video (s s' : Private) : Prop :=
  vc_ids s' = vc_ids s /\ ao_ids s' = ao_ids s
  /\ ao_enabled s' = ao_enabled s
  /\ audioCodecContext s' = audioCodecContext s
  /\ videoStream s' = videoStream s /\ clock s' = clock s
  /\ ao s' = ao s /\ adec s' = adec s
  /\ athread s' = athread s /\ vthread s' = vthread s
  /\ read_thread_audio s' = read_thread_audio s
  /\ read_thread_video s' = read_thread_video s
  /\ statistics s' = statistics s.

(** ** Threads, outputs and addresses in the history *)

(** The objects of kind [k] ever created, newest first, deleted or not. *)
Fixpoint created (k : Obj -> bool) (l : list Event) : list (Ptr * Obj) :=
  match l with
  | [] => []
  | New o p :: l => if k o then (p, o) :: created k l else created k l
  | _ :: l => created k l
  end.

Definition is_audio_thread (o : Obj) : bool :=
  match o with AudioThreadObj => true | _ => false end.
Definition is_video_thread (o : Obj) : bool :=
  match o with VideoThreadObj => true | _ => false end.

Definition athread_live (s : Private) : list (Ptr * Obj) :=
  match athread s with
  | Some t => [(th_ptr t, AudioThreadObj)]
  | None => []
  end.

Definition vthread_live (s : Private) : list (Ptr * Obj) :=
  match vthread s with
  | Some t => [(th_ptr t, VideoThreadObj)]
  | None => []
  end.

(** The thread invariant of a player: the threads ever created are the ones
    [athread] and [vthread] point to, the demux thread knows them, and a
    thread works with no other decoder than the one held. *)
Definition ThreadInv (s : Private) : Prop :=
  created is_audio_thread (log s) = athread_live s
  /\ created is_video_thread (log s) = vthread_live s
  /\ read_thread_audio s = option_map th_ptr (athread s)
  /\ read_thread_video s = option_map th_ptr (vthread s)
  /\ (forall p, thread_decoder (athread s) = Some p ->
        option_map ad_ptr (adec s) = Some p)
  /\ (forall p, thread_decoder (vthread s) = Some p ->
        option_map vd_ptr (vdec s) = Some p).

(** The audio and the video half of the statistics. *)
Definition audio_part (st : Statistics) :=
  (audio_available st, audio_decoder st, audio_only_channels st,
   audio_only_channel_layout st, audio_only_sample_rate st).

Definition video_part (st : Statistics) :=
  (video_available st, video_decoder st, video_only_frame_rate st,
   video_only_width st, video_only_height st).

(** [s'] differs from [s] at most in [ao], the addresses and the history. *)
Definition frame_output (s s' : Private) : Prop :=
  vc_ids s' = vc_ids s /\ ao_ids s' = ao_ids s
  /\ ao_enabled s' = ao_enabled s
  /\ audioCodecContext s' = audioCodecContext s
  /\ videoStream s' = videoStream s /\ clock s' = clock s
  /\ adec s' = adec s /\ vdec s' = vdec s
  /\ athread s' = athread s /\ vthread s' = vthread s
  /\ read_thread_audio s' = read_thread_audio s
  /\ read_thread_video s' = read_thread_video s
  /\ statistics s' = statistics s.

(** The backends the audio output factory was asked for, newest first. *)
Fixpoint requested_outputs (l : list Event) : list AudioOutputId :=
  match l with
  | [] => []
  | New (AudioOutputObj aoid) _ :: l => aoid :: requested_outputs l
  | CreateFailed (AudioOutputObj aoid) :: l => aoid :: requested_outputs l
  | _ :: l => requested_outputs l
  end.

(** The output the player was last given with [setAudioOutput], if it was
    given one. *)
Fixpoint player_output (l : list Event) : option (option Ptr) :=
  match l with
  | [] => None
  | PlayerSetAudioOutput o :: _ => Some o
  | _ :: l => player_output l
  end.

(** [p] is the address of an object alive after [l]. *)
Definition alive (p : Ptr) (l : list Event) : bool :=
  existsb (fun x => Nat.eqb (fst x) p) (live l).

Definition alive_opt (o : option Ptr) (l : list Event) : bool :=
  match o with
  | Some p => alive p l
  | None => true
  end.

(** A history in which every call was made on an object alive at the time,
    every deletion deleted an object alive at the time, and every decoder or
    output handed to a thread or to the player was alive when handed over. *)
Fixpoint well_addressed (l : list Event) : bool :=
  match l with
  | [] => true
  | e :: h =>
      match e with
      | On p c =>
          alive p h
          && match c with
             | setDecoder d | setOutput d => alive_opt d h
             | _ => true
             end
      | Delete p => alive p h
      | PlayerSetAudioOutput o => alive_opt o h
      | _ => true
      end && well_addressed h
  end.

Arguments alive : simpl never.

(** The frame rate a video set-up sizes the queue with: read again from the
    stream when the thread exists (lines 398-403), and what the statistics
    hold otherwise. *)
Definition frame_rate_used (s : Private) : float :=
  match vthread s, videoStream s with
  | Some _, Some vs => av_q2d (avg_frame_rate vs)
  | _, _ => video_only_frame_rate (statistics s)
  end.

(** ** AVPlayer::Private::~Private *)

(** The members that the player hands to its private part and that, in
    this file, only the constructor and the destructor touch: the video and
    the audio output set, the video capture, the clock and the demux
    thread.  [true] stands for a pointer that is not null. *)
Inductive Member := M_vos | M_aos | M_vcapture | M_clock | M_read_thread.

Record Handed := mkHanded {
  vos : bool;
  aos : bool;
  vcapture : bool;
  clock_obj : bool;
  read_thread : bool
}.

(** After the constructor only the clock exists. *)
Definition Handed_init : Handed := mkHanded false false false true false.

Definition member (h : Handed) (m : Member) : bool :=
  match m with
  | M_vos => vos h
  | M_aos => aos h
  | M_vcapture => vcapture h
  | M_clock => clock_obj h
  | M_read_thread => read_thread h
  end.

Inductive MemberEvent :=
| ClearOutputs (m : Member)
| DeleteMember (m : Member).

(** Lines 153-174, newest event first. *)
Definition destroy_members (h : Handed) : Handed * list MemberEvent :=
  let ev := [] in
  let ev := if vos h then DeleteMember M_vos :: ClearOutputs M_vos :: ev
            else ev in
  let ev := if aos h then DeleteMember M_aos :: ClearOutputs M_aos :: ev
            else ev in
  let ev := if vcapture h then DeleteMember M_vcapture :: ev else ev in
  let ev := if clock_obj h then DeleteMember M_clock :: ev else ev in
  let ev := if read_thread h then DeleteMember M_read_thread :: ev else ev in
  (mkHanded false false false false false, ev).

(** The destructor: the audio output, the audio decoder and the video
    decoder are deleted when they are not null (lines 141-152), then the
    members handed over.  The threads are not deleted here. *)
Definition Private_destroy (s : Private) (h : Handed)
  : Private * (Handed * list MemberEvent) :=
  let s := match ao s with
           | Some d => set_ao None (emit (Delete (ao_ptr d)) s)
           | None => s
           end in
  let s := match adec s with
           | Some d => set_adec None (emit (Delete (ad_ptr d)) s)
           | None => s
           end in
  let s := match vdec s with
           | Some d => set_vdec None (emit (Delete (vd_ptr d)) s)
           | None => s
           end in
  (s, destroy_members h).

(** ** initCommonStatistics: the times of a stream *)

(** [AV_NOPTS_VALUE], [INT64_C(0x8000000000000000)] read as [int64_t]. *)
Definition AV_NOPTS_VALUE : Z := - 2 ^ 63.

(** [qreal(n)] for an [int64_t] n, rounded to nearest. *)
Definition of_int64 (n : Z) : float :=
  if n =? - 2 ^ 63 then (-0x1p63)%float else of_int n.

(** Lines 214 and 215, the milliseconds given to [QTime::addMSecs]:
    [ts == AV_NOPTS_VALUE ? 0 : int(qreal(ts)*av_q2d(time_base)*1000.0)]. *)
Definition stream_msecs (ts : Z) (time_base : AVRational) : option Z :=
  if ts =? AV_NOPTS_VALUE then Some 0
  else
    to_int
      (PrimFloat.mul (PrimFloat.mul (of_int64 ts) (av_q2d time_base)) 1000).

(** An infinity or NaN. *)
Definition not_a_value (x : spec_float) : Prop :=
  match x with
  | S754_infinity _ | S754_nan => True
  | _ => False
  end.

(** ** Concrete collaborators, for the examples *)

Module Examples.

(** FFmpeg's channel counting is the number of set bits of the layout; the
    default layouts of one and two channels are mono and stereo. *)
Fixpoint popcount (p : positive) : Z :=
  match p with
  | xH => 1
  | xO p => popcount p
  | xI p => 1 + popcount p
  end.

Definition ffmpeg : FFmpeg :=
  mkFFmpeg
    (fun l => match l with N0 => 0 | Npos p => popcount p end)
    (fun n => if n =? 1 then 4 else if n =? 2 then 3 else 0).

Definition AV_CH_LAYOUT_MONO : N := 4.
Definition AV_CH_LAYOUT_STEREO : N := 3.
Definition AV_CH_LAYOUT_5POINT1 : N := 63.

(** A device that plays only mono, signed 16 bit. *)
Definition mono_device : AudioOutputImpl :=
  mkAudioOutputImpl
    (fun af => SampleFormat_eqb (sampleFormat af) S16
               && (channelLayout af =? AV_CH_LAYOUT_MONO)%N)
    (fun f => SampleFormat_eqb f S16)
    (fun l => (l =? AV_CH_LAYOUT_MONO)%N)
    S16 AV_CH_LAYOUT_MONO
    (fun _ => true)
    AudioFormat_default.

Definition stereo_ctx : AVCodecContext :=
  mkAVCodecContext 2 AV_CH_LAYOUT_STEREO 44100 S16.

Definition surround_ctx : AVCodecContext :=
  mkAVCodecContext 0 AV_CH_LAYOUT_5POINT1 48000 FLTP.

(** Three video decoder candidates: the first is created and prepared
    and fails to open, the other two succeed. *)
Definition decoder_A : VideoDecoderId := 1%nat.
Definition decoder_B : VideoDecoderId := 2%nat.
Definition decoder_C : VideoDecoderId := 3%nat.

Definition world_ABC : World :=
  mkWorld (fun _ => true) (fun _ => true)
    (fun vid => negb (Nat.eqb vid decoder_A))
    true true (fun _ => None) [] [].

(** No candidate can be created. *)
Definition world_none : World :=
  mkWorld (fun _ => false) (fun _ => true) (fun _ => true)
    true true (fun _ => None) [] [].

Definition a_video_stream : VideoStream :=
  mkVideoStream (mkAVRational 25 1) 640 480.

(** A device that supports every format and opens only at 44100 Hz. *)
Definition picky_device : AudioOutputImpl :=
  mkAudioOutputImpl (fun _ => true) (fun _ => true) (fun _ => true)
    S16 AV_CH_LAYOUT_STEREO
    (fun af => sampleRate af =? 44100)
    AudioFormat_default.

Definition world_picky : World :=
  mkWorld (fun _ => true) (fun _ => true) (fun _ => true)
    true true (fun _ => Some picky_device) [] [].

Definition stereo_48k_ctx : AVCodecContext :=
  mkAVCodecContext 2 AV_CH_LAYOUT_STEREO 48000 S16.

(** The state a set-up leaves, [d] if it is undefined. *)
Definition after (r : option (bool * Private)) (d : Private) : Private :=
  match r with
  | Some (_, s) => s
  | None => d
  end.

(** A player with a stereo stream at 44100 Hz and one audio backend; the
    same after a first audio set-up; and after the demuxer has then selected
    a stream at 48000 Hz. *)
Definition audio_s0 : Private :=
  set_videoStream None
    (set_audioCodecContext (Some stereo_ctx) (Private_init [] [7%nat])).

Definition audio_s1 : Private :=
  after (setupAudioThread ffmpeg world_picky audio_s0) audio_s0.

Definition audio_s1_48k : Private :=
  set_videoStream None (set_audioCodecContext (Some stereo_48k_ctx) audio_s1).

Definition audio_s2 : Private :=
  after (setupAudioThread ffmpeg world_picky audio_s1) audio_s1.

Definition picky_at_44100 : AudioOutput :=
  mkAudioOutput 1%nat 7%nat picky_device
    (mkAudioFormat 44100 S16 AV_CH_LAYOUT_STEREO) true.

(** A player with a video stream and the candidates [A; B; C]; the same
    after a first video set-up; and after the demuxer has then lost the
    video stream. *)
Definition video_s0 : Private :=
  set_videoStream (Some a_video_stream)
    (set_audioCodecContext None
       (Private_init [decoder_A; decoder_B; decoder_C] [])).

Definition video_s1 : Private :=
  after (setupVideoThread world_ABC video_s0) video_s0.

Definition video_s1_absent : Private :=
  set_videoStream None (set_audioCodecContext None video_s1).

(** The audio decoder does not open. *)
Definition world_no_audio_decoder : World :=
  mkWorld (fun _ => true) (fun _ => true) (fun _ => true)
    false true (fun _ => None) [] [].

(** Every candidate succeeds and filters are registered for the player. *)
Definition world_filtered : World :=
  mkWorld (fun _ => true) (fun _ => true) (fun _ => true)
    true true (fun _ => Some picky_device) [4%nat; 5%nat] [6%nat].

(** A player with an audio and a video stream, after a video and an audio
    set-up. *)
Definition av_s0 : Private :=
  set_videoStream (Some a_video_stream)
    (set_audioCodecContext (Some stereo_ctx)
       (Private_init [decoder_A; decoder_B] [7%nat])).

Definition av_s1 : Private :=
  after (setupVideoThread world_filtered av_s0) av_s0.

Definition av_s2 : Private :=
  after (setupAudioThread ffmpeg world_filtered av_s1) av_s1.

(** A stream whose average frame rate has the denominator 0, selected by
    the demuxer when the video thread exists. *)
Definition rate_over_zero_stream : VideoStream :=
  mkVideoStream (mkAVRational 30000 0) 640 480.

Definition video_s1_rate_over_zero : Private :=
  set_videoStream (Some rate_over_zero_stream)
    (set_audioCodecContext None video_s1).

End Examples.

(* ------------------------------------------------------------------ *)
(** * Properties *)

(** ** Binary64 arithmetic

    The product of two binary64 numbers is the exact product rounded to
    nearest; what follows bounds the integer part of the rounded product by
    the integer part of the exact one. *)

(** Replaces a closed term by its value. *)
Ltac zeval t := let v := eval vm_compute in t in change t with v in *.

Lemma digits2_pos_size p : digits2_pos p = Pos.size p.
Proof. induction p; cbn; congruence. Qed.

Lemma digits2_bounds p :
  2 ^ (Z.pos (digits2_pos p) - 1) <= Z.pos p < 2 ^ Z.pos (digits2_pos p).
Proof.
  rewrite digits2_pos_size. split.
  - pose proof (Pos.size_le p) as H.
    apply Pos2Z.pos_le_pos in H. rewrite Pos2Z.inj_pow in H.
    replace (Z.pos (Pos.size p)) with (Z.succ (Z.pos (Pos.size p) - 1)) in H
      by lia.
    rewrite Z.pow_succ_r in H by lia. change (Z.pos (p~0)) with (2 * Z.pos p) in H.
    lia.
  - pose proof (Pos.size_gt p) as H.
    apply Pos2Z.pos_lt_pos in H. now rewrite Pos2Z.inj_pow in H.
Qed.

Lemma shr_1_m r : 0 <= shr_m r -> shr_m (shr_1 r) = shr_m r / 2.
Proof.
  destruct r as [m rb sb]; cbn [shr_m]. intros Hm.
  destruct m as [| p | p]; [reflexivity | | lia].
  destruct p as [p | p |]; cbn [shr_1 shr_m].
  - rewrite Pos2Z.inj_xI. apply Z.div_unique with 1; lia.
  - rewrite Pos2Z.inj_xO. apply Z.div_unique with 0; lia.
  - reflexivity.
Qed.

Lemma iter_pos_shr_1 p r :
  0 <= shr_m r ->
  shr_m (iter_pos shr_1 p r) = shr_m r / 2 ^ Z.pos p.
Proof.
  revert r. induction p as [p IH | p IH |]; intros r Hr; cbn [iter_pos].
  - assert (H1 : 0 <= shr_m (shr_1 r))
      by (rewrite shr_1_m by assumption; apply Z.div_pos; lia).
    assert (H2 : 0 <= shr_m (iter_pos shr_1 p (shr_1 r)))
      by (rewrite IH by assumption; apply Z.div_pos; lia).
    rewrite IH, IH, shr_1_m by assumption.
    rewrite !Z.div_div by lia. f_equal.
    change (Z.pos p~1) with (2 * Z.pos p + 1).
    replace (2 * Z.pos p + 1) with (1 + Z.pos p + Z.pos p) by lia.
    rewrite !Z.pow_add_r by lia. change (2 ^ 1) with 2. ring.
  - assert (H2 : 0 <= shr_m (iter_pos shr_1 p r))
      by (rewrite IH by assumption; apply Z.div_pos; lia).
    rewrite IH, IH by assumption.
    rewrite !Z.div_div by lia. f_equal.
    change (Z.pos p~0) with (2 * Z.pos p).
    replace (2 * Z.pos p) with (Z.pos p + Z.pos p) by lia.
    rewrite !Z.pow_add_r by lia. ring.
  - rewrite shr_1_m by assumption. reflexivity.
Qed.

Lemma shr_spec r e n :
  0 <= shr_m r ->
  shr_m (fst (shr r e n)) = shr_m r / 2 ^ Z.max 0 n
  /\ snd (shr r e n) = e + Z.max 0 n.
Proof.
  intros Hr. destruct n as [| p | p]; cbn [shr fst snd].
  - rewrite Z.max_id. cbn. rewrite Z.div_1_r. split; lia.
  - rewrite Z.max_r by lia. split; [now apply iter_pos_shr_1 | reflexivity].
  - rewrite Z.max_l by lia. cbn. rewrite Z.div_1_r. split; lia.
Qed.

Lemma shr_record_of_loc_m m l : shr_m (shr_record_of_loc m l) = m.
Proof. destruct l as [| []]; reflexivity. Qed.

Lemma round_nearest_even_bounds m l :
  m <= round_nearest_even m l <= m + 1.
Proof.
  unfold round_nearest_even.
  destruct l as [| []]; try lia. destruct (Z.even m); lia.
Qed.

Lemma digits2_le p a : 0 <= a -> Z.pos p < 2 ^ a -> Z.pos (digits2_pos p) <= a.
Proof.
  intros Ha H. destruct (digits2_bounds p) as [Hl _].
  assert (Hlt : 2 ^ (Z.pos (digits2_pos p) - 1) < 2 ^ a) by lia.
  apply Z.pow_lt_mono_r_iff in Hlt; lia.
Qed.

Lemma fexp_eq e : fexp prec emax e = Z.max (e - 53) (-1074).
Proof. reflexivity. Qed.

(** The result of rounding a positive mantissa. *)
Lemma binary_round_aux_shape (mx : positive) (ex : Z) (lx : location) :
  let k := Z.max 0 (fexp prec emax (Z.pos (digits2_pos mx) + ex) - ex) in
  let m1 := Z.pos mx / 2 ^ k in
  let e1 := ex + k in
  exists m2,
    m1 <= m2 <= m1 + 1 /\ m2 <= 2 ^ 53
    /\ (lx = loc_Exact -> k = 0 -> m2 = Z.pos mx)
    /\ binary_round_aux prec emax false (Z.pos mx) ex lx
       = if m2 =? 0 then S754_zero false
         else if m2 =? 2 ^ 53 then
                if e1 + 1 <=? 971 then S754_finite false (Z.to_pos (2 ^ 52)) (e1 + 1)
                else S754_infinity false
              else
                if e1 <=? 971 then S754_finite false (Z.to_pos m2) e1
                else S754_infinity false.
Proof.
  cbn zeta.
  set (E := fexp prec emax (Z.pos (digits2_pos mx) + ex)).
  set (k := Z.max 0 (E - ex)).
  assert (HE : E = Z.max (Z.pos (digits2_pos mx) + ex - 53) (-1074))
    by reflexivity.
  unfold binary_round_aux, shr_fexp.
  change (Zdigits2 (Z.pos mx)) with (Z.pos (digits2_pos mx)). fold E.
  destruct (shr_spec (shr_record_of_loc (Z.pos mx) lx) ex (E - ex))
    as [Hm He]; [rewrite shr_record_of_loc_m; lia |].
  rewrite shr_record_of_loc_m in Hm. fold k in Hm, He.
  assert (Hexact : lx = loc_Exact -> k = 0 ->
                   shr (shr_record_of_loc (Z.pos mx) lx) ex (E - ex)
                   = (shr_record_of_loc (Z.pos mx) loc_Exact, ex)).
  { intros -> Hk. unfold shr. destruct (E - ex) eqn:Ek; try reflexivity.
    lia. }
  destruct (shr (shr_record_of_loc (Z.pos mx) lx) ex (E - ex))
    as [mrs' e'] eqn:Hshr.
  cbn [fst snd] in Hm, He.
  set (m2 := round_nearest_even (shr_m mrs') (loc_of_shr_record mrs')).
  pose proof (round_nearest_even_bounds (shr_m mrs') (loc_of_shr_record mrs'))
    as Hm2. fold m2 in Hm2. rewrite Hm in Hm2.
  pose proof (digits2_bounds mx) as [Hdl Hdu].
  assert (Hk0 : 0 <= k) by lia.
  assert (Hm1 : 0 <= Z.pos mx / 2 ^ k < 2 ^ 53).
  { split; [apply Z.div_pos; lia |].
    apply Z.div_lt_upper_bound; [lia |].
    rewrite <- Z.pow_add_r by lia.
    eapply Z.lt_le_trans; [exact Hdu |].
    apply Z.pow_le_mono_r; lia. }
  assert (He1 : -1074 <= e') by lia.
  exists m2. split; [exact Hm2 |]. split; [lia |]. split.
  { intros Hl Hk. specialize (Hexact Hl Hk). inversion Hexact; subst.
    reflexivity. }
  rewrite He.
  destruct (Z.eqb_spec m2 0) as [H0 | H0].
  - rewrite H0. cbn [shr_record_of_loc].
    match goal with |- context [shr ?r ?e ?n] =>
      destruct (shr_spec r e n) as [Hm' _]; [cbn; lia |];
      destruct (shr r e n) as [mrs'' e'']
    end.
    cbn [fst shr_m] in Hm'. rewrite Z.div_0_l in Hm' by lia.
    rewrite Hm'. reflexivity.
  - destruct (Z.eqb_spec m2 (2 ^ 53)) as [H53 | H53].
    + rewrite H53. cbn [Zdigits2].
      change (Zdigits2 (2 ^ 53)) with 54.
      rewrite fexp_eq.
      replace (Z.max (54 + (ex + k) - 53) (-1074) - (ex + k)) with 1 by lia.
      cbn [shr shr_record_of_loc iter_pos fst snd].
      change (shr_m (shr_1 {| shr_m := 2 ^ 53; shr_r := false; shr_s := false |}))
        with (2 ^ 52).
      change (2 ^ 52) with (Z.pos (Z.to_pos (2 ^ 52))) at 1.
      cbv iota. change (emax - prec) with 971. reflexivity.
    + assert (Hpos : 0 < m2 < 2 ^ 53) by lia.
      destruct m2 as [| p2 | p2] eqn:Em2; try lia.
      cbn [Zdigits2]. rewrite fexp_eq.
      assert (Hd2 : Z.pos (digits2_pos p2) <= 53)
        by (apply digits2_le; lia).
      assert (Hs : Z.max (Z.pos (digits2_pos p2) + (ex + k) - 53) (-1074)
                   - (ex + k) <= 0) by lia.
      unfold shr.
      destruct (Z.max (Z.pos (digits2_pos p2) + (ex + k) - 53) (-1074)
                - (ex + k)) eqn:Es; try lia;
        cbn [shr_record_of_loc shr_m]; change (emax - prec) with 971;
        rewrite Pos2Z.id; reflexivity.
Qed.

Lemma dyadic_trunc_mono a b e :
  a <= b -> dyadic_trunc a e <= dyadic_trunc b e.
Proof.
  intros H. unfold dyadic_trunc. destruct (Z.leb_spec 0 e).
  - apply Z.mul_le_mono_nonneg_r; [apply Z.pow_nonneg; lia | exact H].
  - apply Z.div_le_mono; [apply Z.pow_pos_nonneg; lia | exact H].
Qed.

Lemma dyadic_trunc_succ a e :
  e <= 0 -> dyadic_trunc (a + 1) e <= dyadic_trunc a e + 1.
Proof.
  intros He. unfold dyadic_trunc.
  destruct (Z.leb_spec 0 e).
  - replace e with 0 by lia. cbn. lia.
  - assert (Hp : 0 < 2 ^ (- e)) by (apply Z.pow_pos_nonneg; lia).
    assert (H1 : 1 <= 2 ^ (- e)) by lia.
    apply Z.lt_succ_r. apply Z.div_lt_upper_bound; [lia |].
    pose proof (Z.mul_succ_div_gt a (2 ^ (- e)) Hp) as H2.
    unfold Z.succ in *.
    generalize dependent (a / 2 ^ (- e)). generalize dependent (2 ^ (- e)).
    intros P _ HP q Hq. nia.
Qed.

Lemma dyadic_trunc_carry e :
  dyadic_trunc (2 ^ 52) (e + 1) = dyadic_trunc (2 ^ 53) e.
Proof.
  unfold dyadic_trunc.
  destruct (Z.leb_spec 0 (e + 1)), (Z.leb_spec 0 e); try lia.
  - rewrite Z.pow_add_r by lia. change (2 ^ 53) with (2 ^ 52 * 2).
    change (2 ^ 1) with 2. ring.
  - replace e with (- 1) by lia. reflexivity.
  - replace (- e) with (1 + - (e + 1)) by lia.
    rewrite Z.pow_add_r by lia. change (2 ^ 53) with (2 ^ 1 * 2 ^ 52).
    rewrite Z.div_mul_cancel_l; [reflexivity | | lia].
    apply Z.pow_nonzero; lia.
Qed.

Lemma dyadic_trunc_shift a e k :
  0 <= k -> e <= 0 -> dyadic_trunc (a / 2 ^ k) e = dyadic_trunc a (e - k).
Proof.
  intros Hk He. unfold dyadic_trunc.
  destruct (Z.leb_spec 0 e), (Z.leb_spec 0 (e - k)); try lia.
  - replace e with 0 by lia. replace k with 0 by lia.
    change (0 - 0) with 0. change (2 ^ 0) with 1.
    now rewrite Z.div_1_r.
  - replace e with 0 by lia. change (2 ^ 0) with 1. rewrite Z.mul_1_r.
    f_equal. f_equal. lia.
  - rewrite Z.div_div by (try apply Z.pow_pos_nonneg; lia).
    rewrite <- Z.pow_add_r by lia. f_equal. f_equal. lia.
Qed.

(** Rounding an exact positive value to nearest: the integer part of the
    result against the integer part of the value. *)
Lemma round_exact_trunc (mx : positive) (ex : Z) :
  let r := binary_round_aux prec emax false (Z.pos mx) ex loc_Exact in
  let t := dyadic_trunc (Z.pos mx) ex in
  let E := fexp prec emax (Z.pos (digits2_pos mx) + ex) in
  (r = S754_infinity false /\ 0 < E)
  \/ (exists z, SFtrunc r = Some z
                /\ Z.min t (2 ^ 53) <= z /\ (E <= 0 -> z <= t + 1)).
Proof.
  cbn zeta.
  destruct (binary_round_aux_shape mx ex loc_Exact)
    as (m2 & Hm2 & Hm53 & Hex & Hr).
  cbn zeta in *. rewrite Hr. clear Hr.
  set (E := fexp prec emax (Z.pos (digits2_pos mx) + ex)) in *.
  assert (HE : E = Z.max (Z.pos (digits2_pos mx) + ex - 53) (-1074))
    by reflexivity.
  set (k := Z.max 0 (E - ex)) in *.
  pose proof (digits2_bounds mx) as [Hdl Hdu].
  assert (Hm1nn : 0 <= Z.pos mx / 2 ^ k)
    by (apply Z.div_pos; [lia | apply Z.pow_pos_nonneg; lia]).
  assert (Hz : forall z,
             z = dyadic_trunc m2 (ex + k) ->
             Z.min (dyadic_trunc (Z.pos mx) ex) (2 ^ 53) <= z
             /\ (E <= 0 -> z <= dyadic_trunc (Z.pos mx) ex + 1)).
  { intros z ->.
    destruct (Z.eq_dec k 0) as [Hk | Hk].
    - rewrite (Hex eq_refl Hk), Hk, Z.add_0_r. lia.
    - assert (Hk' : k = E - ex /\ 0 < k) by lia. destruct Hk' as [Hk' Hkp].
      replace (ex + k) with E by lia.
      destruct (Z.leb_spec E 0) as [HE0 | HE0].
      + assert (Ht : dyadic_trunc (Z.pos mx / 2 ^ k) E
                     = dyadic_trunc (Z.pos mx) ex).
        { rewrite dyadic_trunc_shift by lia. f_equal. lia. }
        split.
        * rewrite <- Ht. etransitivity; [apply Z.le_min_l |].
          apply dyadic_trunc_mono. lia.
        * intros _. rewrite <- Ht.
          etransitivity; [| apply dyadic_trunc_succ; lia].
          apply dyadic_trunc_mono. lia.
      + split; [| lia].
        etransitivity; [apply Z.le_min_r |].
        assert (Hm1 : 2 ^ 52 <= Z.pos mx / 2 ^ k).
        { apply Z.div_le_lower_bound; [apply Z.pow_pos_nonneg; lia |].
          rewrite Z.mul_comm, <- Z.pow_add_r by lia.
          replace (52 + k) with (Z.pos (digits2_pos mx) - 1) by lia.
          exact Hdl. }
        etransitivity; [| apply (dyadic_trunc_mono (2 ^ 52)); lia].
        unfold dyadic_trunc.
        replace (0 <=? E) with true by (symmetry; apply Z.leb_le; lia).
        change (2 ^ 53) with (2 ^ 52 * 2 ^ 1).
        apply Z.mul_le_mono_nonneg_l; [lia |].
        apply Z.pow_le_mono_r; lia. }
  destruct (Z.eqb_spec m2 0) as [H0 | H0].
  - right. exists 0. split; [reflexivity |].
    apply Hz. rewrite H0. unfold dyadic_trunc.
    destruct (0 <=? ex + k); [lia | now rewrite Zdiv_0_l].
  - destruct (Z.eqb_spec m2 (2 ^ 53)) as [H53 | H53].
    + destruct (Z.leb_spec (ex + k + 1) 971) as [Hle | Hgt].
      * right. eexists. split; [reflexivity |].
        apply Hz. rewrite H53. apply dyadic_trunc_carry.
      * left. split; [reflexivity | lia].
    + destruct (Z.leb_spec (ex + k) 971) as [Hle | Hgt].
      * right. eexists. split; [reflexivity |].
        apply Hz. cbn [SFtrunc]. rewrite Z2Pos.id by lia. reflexivity.
      * left. split; [reflexivity | lia].
Qed.

Lemma Prim2SF_golden_low :
  Prim2SF golden_low = S754_finite false 5566719355407575 (-53).
Proof. vm_compute. reflexivity. Qed.

Lemma Prim2SF_golden_high :
  Prim2SF golden_high = S754_finite false 7286959305074284 (-52).
Proof. vm_compute. reflexivity. Qed.

Lemma Prim2SF_24 : Prim2SF 24 = S754_finite false 6755399441055744 (-48).
Proof. vm_compute. reflexivity. Qed.

(** A valid finite number has at most 53 digits, and exactly 53 above the
    subnormal range. *)
Lemma valid_finite s m e :
  valid_binary (S754_finite s m e) = true ->
  Z.pos m < 2 ^ 53 /\ -1074 <= e <= 971
  /\ (-1074 < e -> 2 ^ 52 <= Z.pos m).
Proof.
  cbn. unfold bounded, canonical_mantissa. rewrite fexp_eq.
  intros H. apply andb_true_iff in H as [Hc He].
  apply Z.eqb_eq in Hc. apply Z.leb_le in He. change (emax - prec) with 971 in He.
  destruct (digits2_bounds m) as [Hl Hu].
  assert (Hd : Z.pos (digits2_pos m) <= 53) by lia.
  repeat split; try lia.
  - eapply Z.lt_le_trans; [exact Hu |].
    apply (Z.pow_le_mono_r 2 (Z.pos (digits2_pos m)) 53); lia.
  - intros He'. assert (Z.pos (digits2_pos m) = 53) as Hd53 by lia.
    rewrite Hd53 in Hl. exact Hl.
Qed.

(** A number above 24: infinite, or finite and positive with its value,
    scaled by [2^48], above [24 * 2^48]. *)
Lemma above_24 f :
  PrimFloat.ltb 24 f = true ->
  Prim2SF f = S754_infinity false
  \/ exists m e,
      Prim2SF f = S754_finite false m e
      /\ -48 <= e <= 971 /\ Z.pos m < 2 ^ 53
      /\ 24 * 2 ^ 48 < Z.pos m * 2 ^ (e + 48).
Proof.
  rewrite FloatAxioms.ltb_spec, Prim2SF_24. pose proof (Prim2SF_valid f) as Hv.
  destruct (Prim2SF f) as [s | s | | s m e]; unfold SFltb, SFcompare.
  - discriminate.
  - destruct s; [discriminate | auto].
  - discriminate.
  - destruct s; [discriminate |].
    apply valid_finite in Hv as (Hm & He & Hn).
    destruct (Z.compare_spec (-48) e) as [<- | Hlt | Hgt]; try discriminate.
    + rewrite Pos.compare_cont_spec. cbn [Pos.switch_Eq].
      destruct (Pos.compare_spec 6755399441055744 m) as [| Hm' |];
        try discriminate.
      intros _. right. exists m, (-48).
      split; [reflexivity |]. split; [lia |]. split; [exact Hm |].
      change (2 ^ (-48 + 48)) with 1.
      change (24 * 2 ^ 48) with 6755399441055744. lia.
    + intros _. right. exists m, e.
      split; [reflexivity |]. split; [lia |]. split; [exact Hm |].
      specialize (Hn ltac:(lia)).
      assert (H2 : 2 ^ 1 <= 2 ^ (e + 48)) by (apply Z.pow_le_mono_r; lia).
      change (2 ^ 1) with 2 in H2.
      change (24 * 2 ^ 48) with 6755399441055744.
      change (2 ^ 52) with 4503599627370496 in Hn. nia.
Qed.

Lemma SFfloor_round_nonneg mx ex lx :
  SFfloor (binary_round_aux prec emax false mx ex lx)
  = SFtrunc (binary_round_aux prec emax false mx ex lx).
Proof.
  unfold binary_round_aux.
  destruct (shr_fexp prec emax mx ex lx) as [mrs' e'].
  destruct (shr_fexp prec emax _ e' loc_Exact) as [mrs'' e''].
  destruct (shr_m mrs''); [reflexivity | | reflexivity].
  destruct (e'' <=? emax - prec); reflexivity.
Qed.

Lemma digits2_mul_le ma mb :
  Z.pos ma < 2 ^ 53 -> Z.pos mb < 2 ^ 53 ->
  Z.pos (digits2_pos (ma * mb)) <= 106.
Proof.
  intros Ha Hb. apply digits2_le; [lia |].
  rewrite Pos2Z.inj_mul. change (2 ^ 106) with (2 ^ 53 * 2 ^ 53).
  apply Z.mul_lt_mono_nonneg; lia.
Qed.

(** The product of two positive finite numbers: infinite, or with an
    integer part next to the one of the exact product. *)
Lemma mul_trunc a b ma ea mb eb :
  Prim2SF a = S754_finite false ma ea ->
  Prim2SF b = S754_finite false mb eb ->
  Z.pos ma < 2 ^ 53 -> Z.pos mb < 2 ^ 53 ->
  let t := dyadic_trunc (Z.pos ma * Z.pos mb) (ea + eb) in
  SFfloor (Prim2SF (a * b)) = SFtrunc (Prim2SF (a * b))
  /\ ((Prim2SF (a * b) = S754_infinity false /\ -53 < ea + eb)
      \/ exists z,
          SFtrunc (Prim2SF (a * b)) = Some z
          /\ Z.min t (2 ^ 53) <= z /\ (ea + eb <= -53 -> z <= t + 1)).
Proof.
  intros Ha Hb Hma Hmb. cbn zeta.
  rewrite FloatAxioms.mul_spec, Ha, Hb. unfold SF64mul, SFmul. cbn [xorb].
  split; [apply SFfloor_round_nonneg |].
  pose proof (digits2_mul_le ma mb Hma Hmb) as Hd.
  destruct (round_exact_trunc (ma * mb) (ea + eb)) as [[Hr HE] | (z & Hz & Hl & Hu)].
  - left. split; [exact Hr |]. rewrite fexp_eq in HE. lia.
  - right. exists z. rewrite Pos2Z.inj_mul in *.
    split; [exact Hz |]. split; [exact Hl |].
    intros He. apply Hu. rewrite fexp_eq. lia.
Qed.

Lemma to_int_floor_mul a b ma ea mb eb :
  Prim2SF a = S754_finite false ma ea ->
  Prim2SF b = S754_finite false mb eb ->
  Z.pos ma < 2 ^ 53 -> Z.pos mb < 2 ^ 53 ->
  floor (a * b) = to_int (a * b).
Proof.
  intros Ha Hb Hma Hmb. unfold floor, to_int.
  destruct (mul_trunc a b ma ea mb eb Ha Hb Hma Hmb) as [-> _]. reflexivity.
Qed.

(** The integer part of [c * m * 2^e] through the value scaled by [2^48]. *)
Lemma dyadic_trunc_scaled c m e :
  0 <= c -> 0 <= m -> -48 <= e <= 52 ->
  dyadic_trunc (c * m) (-53 + e) = (c * (m * 2 ^ (e + 48))) / 2 ^ 101.
Proof.
  intros Hc Hm He. unfold dyadic_trunc.
  replace (0 <=? -53 + e) with false by (symmetry; apply Z.leb_gt; lia).
  replace 101 with (- (-53 + e) + (e + 48)) by lia.
  rewrite (Z.pow_add_r 2 (- (-53 + e)) (e + 48)) by lia.
  rewrite Z.mul_assoc, Z.div_mul_cancel_r; [reflexivity | |];
    apply Z.pow_nonzero; lia.
Qed.

Lemma Prim2SF_INT_MAX :
  Prim2SF 2147483647 = S754_finite false 9007199250546688 (-22).
Proof. vm_compute. reflexivity. Qed.

Lemma to_int_of_trunc x z :
  SFtrunc (Prim2SF x) = Some z -> INT_MIN <= z <= INT_MAX ->
  to_int x = Some z.
Proof.
  intros H Hz. unfold to_int. rewrite H. unfold in_int.
  replace (INT_MIN <=? z) with true by (symmetry; apply Z.leb_le; lia).
  replace (z <=? INT_MAX) with true by (symmetry; apply Z.leb_le; lia).
  reflexivity.
Qed.

Lemma to_int_inv x t :
  to_int x = Some t -> SFtrunc (Prim2SF x) = Some t /\ INT_MIN <= t <= INT_MAX.
Proof.
  unfold to_int, in_int. destruct (SFtrunc (Prim2SF x)) as [z |]; [| discriminate].
  destruct (Z.leb_spec INT_MIN z), (Z.leb_spec z INT_MAX); cbn;
    intros E; inversion E; subst. auto.
Qed.

(** The threshold for a frame rate above 24. *)
Lemma threshold_above_24 f :
  PrimFloat.ltb 24 f = true ->
  floor (golden_low * f) = to_int (golden_low * f)
  /\ (forall t, to_int (golden_low * f) = Some t -> 14 <= t)
  /\ (PrimFloat.leb f 2147483647 = true ->
      exists t, to_int (golden_low * f) = Some t /\ t <= 1327209319).
Proof.
  intros H. destruct (above_24 f H) as [Hinf | (m & e & Hf & He & Hm & HX)].
  - assert (Hp : Prim2SF (golden_low * f) = S754_infinity false)
      by (rewrite FloatAxioms.mul_spec, Prim2SF_golden_low, Hinf; reflexivity).
    unfold floor, to_int. rewrite Hp. cbn.
    split; [reflexivity |]. split; [discriminate |].
    rewrite FloatAxioms.leb_spec, Hinf. discriminate.
  - destruct (mul_trunc golden_low f _ _ _ _ Prim2SF_golden_low Hf
                ltac:(vm_compute; reflexivity) Hm) as [Hfl Hcases].
    cbn zeta in Hcases.
    set (X := Z.pos m * 2 ^ (e + 48)) in *.
    assert (HT : 14 <= Z.min (dyadic_trunc (5566719355407575 * Z.pos m)
                                (-53 + e)) (2 ^ 53)).
    { apply Z.min_glb; [| vm_compute; discriminate].
      destruct (Z.le_gt_cases e 52) as [He52 | He52].
      - rewrite dyadic_trunc_scaled by lia. fold X.
        apply Z.div_le_lower_bound; [vm_compute; reflexivity |].
        zeval (24 * 2 ^ 48). zeval (2 ^ 101). clear - HX. lia.
      - unfold dyadic_trunc.
        replace (0 <=? -53 + e) with true by (symmetry; apply Z.leb_le; lia).
        assert (H1 : 1 <= 2 ^ (-53 + e))
          by (change 1 with (2 ^ 0); apply Z.pow_le_mono_r; lia).
        clear - H1. nia. }
    split; [unfold floor, to_int; now rewrite Hfl |].
    split.
    + intros t Ht. apply to_int_inv in Ht as [Ht _].
      destruct Hcases as [[Hr _] | (z & Hz & Hl & _)].
      * rewrite Hr in Ht. discriminate.
      * rewrite Hz in Ht. inversion Ht; subst. clear - Hl HT. lia.
    + rewrite FloatAxioms.leb_spec, Hf, Prim2SF_INT_MAX.
      unfold SFleb, SFcompare. intros Hle.
      assert (HX' : e <= -22 /\ X <= 2147483647 * 2 ^ 48).
      { destruct (Z.compare_spec e (-22)) as [-> | Hlt | Hgt];
          try discriminate.
        - rewrite Pos.compare_cont_spec in Hle. cbn [Pos.switch_Eq] in Hle.
          destruct (Pos.compare_spec m 9007199250546688) as [Hm' | Hm' |].
          all: try discriminate.
          all: split; [clear; lia |].
          all: subst X.
          all: zeval (2 ^ (-22 + 48)); zeval (2147483647 * 2 ^ 48).
          + subst m. vm_compute. discriminate.
          + apply Pos2Z.pos_lt_pos in Hm'. clear - Hm'. lia.
        - split; [lia |]. subst X.
          assert (H2 : 2 ^ (e + 48) <= 2 ^ 25)
            by (apply Z.pow_le_mono_r; lia).
          assert (H3 : 0 < 2 ^ (e + 48)) by (apply Z.pow_pos_nonneg; lia).
          zeval (2 ^ 25). zeval (2 ^ 53). zeval (2147483647 * 2 ^ 48).
          clear - H2 H3 Hm. nia. }
      destruct HX' as [He22 HXu].
      destruct Hcases as [[_ Hr] | (z & Hz & Hl & Hu)]; [lia |].
      specialize (Hu ltac:(lia)).
      rewrite dyadic_trunc_scaled in Hu by lia. fold X in Hu.
      assert (Hq : 5566719355407575 * X / 2 ^ 101 <= 1327209318).
      { apply Z.lt_succ_r. apply Z.div_lt_upper_bound; [vm_compute; reflexivity |].
        zeval (2147483647 * 2 ^ 48). zeval (2 ^ 101).
        clear - HXu. lia. }
      exists z. split; [| clear - Hu Hq; lia].
      apply to_int_of_trunc; [exact Hz |].
      unfold INT_MIN, INT_MAX. zeval (2 ^ 31). zeval (2 ^ 53).
      clear - Hu Hq Hl HT. lia.
Qed.

Lemma iter_xO p n : Z.pos (Pos.iter xO p n) = Z.pos p * 2 ^ Z.pos n.
Proof.
  induction n as [| n IH] using Pos.peano_ind.
  - cbn. lia.
  - rewrite Pos.iter_succ, Pos2Z.inj_xO, IH, Pos2Z.inj_succ.
    rewrite Z.pow_succ_r by lia. ring.
Qed.

Lemma shl_align_spec mx ex ex' :
  ex' <= ex ->
  snd (shl_align mx ex ex') = ex'
  /\ Z.pos (fst (shl_align mx ex ex')) = Z.pos mx * 2 ^ (ex - ex').
Proof.
  intros H. unfold shl_align.
  destruct (ex' - ex) as [| d | d] eqn:E; cbn [fst snd].
  - replace (ex - ex') with 0 by lia. split; lia.
  - lia.
  - split; [reflexivity |]. rewrite iter_xO. f_equal. f_equal. lia.
Qed.

(** [qreal(t)] for a positive [int]: exact. *)
Lemma of_int_pos t :
  0 < t < 2 ^ 52 ->
  exists m e,
    Prim2SF (of_int t) = S754_finite false m e
    /\ -53 < e < 0 /\ Z.pos m < 2 ^ 53 /\ Z.pos m = t * 2 ^ (- e).
Proof.
  intros Ht. unfold of_int.
  replace (t <? 0) with false by (symmetry; apply Z.ltb_ge; lia).
  rewrite of_uint63_spec, Uint63.of_Z_spec.
  rewrite Z.mod_small
    by (split; [lia |]; eapply Z.lt_trans; [apply Ht | reflexivity]).
  destruct t as [| p | p]; try lia.
  unfold binary_normalize, binary_round.
  rewrite Z.add_0_r, fexp_eq.
  destruct (digits2_bounds p) as [Hl Hu].
  assert (Hd : 0 < Z.pos (digits2_pos p) <= 52).
  { split; [lia |]. apply digits2_le; lia. }
  rewrite Z.max_l by lia.
  destruct (shl_align_spec p 0 (Z.pos (digits2_pos p) - 53) ltac:(lia))
    as [He Hm].
  destruct (shl_align p 0 (Z.pos (digits2_pos p) - 53)) as [mz ez].
  cbn [fst snd] in He, Hm. subst ez.
  replace (0 - (Z.pos (digits2_pos p) - 53)) with (53 - Z.pos (digits2_pos p))
    in Hm by lia.
  assert (Hmz : Z.pos mz < 2 ^ 53).
  { rewrite Hm.
    replace 53 with (Z.pos (digits2_pos p) + (53 - Z.pos (digits2_pos p)))
      at 2 by lia.
    rewrite Z.pow_add_r by lia.
    apply Z.mul_lt_mono_pos_r; [apply Z.pow_pos_nonneg; lia | exact Hu]. }
  destruct (binary_round_aux_shape mz (Z.pos (digits2_pos p) - 53) loc_Exact)
    as (m2 & _ & _ & Hex & Hr).
  cbn zeta in Hex, Hr.
  assert (Hdz : Z.pos (digits2_pos mz) <= 53) by (apply digits2_le; lia).
  assert (Hk : Z.max 0 (fexp prec emax (Z.pos (digits2_pos mz)
                                        + (Z.pos (digits2_pos p) - 53))
                        - (Z.pos (digits2_pos p) - 53)) = 0)
    by (rewrite fexp_eq; lia).
  specialize (Hex eq_refl Hk). subst m2. rewrite Hk, Z.add_0_r in Hr.
  rewrite Hr.
  replace (Z.pos mz =? 0) with false by reflexivity.
  replace (Z.pos mz =? 2 ^ 53) with false
    by (symmetry; apply Z.eqb_neq; lia).
  replace (Z.pos (digits2_pos p) - 53 <=? 971) with true
    by (symmetry; apply Z.leb_le; lia).
  exists mz, (Z.pos (digits2_pos p) - 53).
  split; [reflexivity |]. split; [lia |]. split; [exact Hmz |].
  rewrite Hm. f_equal. f_equal. lia.
Qed.

(** The capacity for a threshold of at least 14. *)
Lemma capacity_above_threshold t :
  14 <= t <= INT_MAX ->
  floor (golden_high * of_int t) = to_int (golden_high * of_int t)
  /\ (forall c, to_int (golden_high * of_int t) = Some c -> t < c)
  /\ (t <= 1327209319 ->
      exists c, to_int (golden_high * of_int t) = Some c).
Proof.
  intros Ht. unfold INT_MAX in Ht. zeval (2 ^ 31 - 1).
  destruct (of_int_pos t) as (m & e & Hf & He & Hm & Hmt).
  { zeval (2 ^ 52). lia. }
  destruct (mul_trunc golden_high (of_int t) _ _ _ _ Prim2SF_golden_high Hf
              ltac:(vm_compute; reflexivity) Hm) as [Hfl Hcases].
  cbn zeta in Hcases.
  assert (HT : dyadic_trunc (7286959305074284 * Z.pos m) (-52 + e)
               = 7286959305074284 * t / 2 ^ 52).
  { unfold dyadic_trunc.
    replace (0 <=? -52 + e) with false by (symmetry; apply Z.leb_gt; lia).
    rewrite Hmt.
    replace (- (-52 + e)) with (52 + - e) by lia.
    rewrite Z.pow_add_r by lia.
    rewrite Z.mul_assoc, Z.div_mul_cancel_r; [reflexivity | |];
      apply Z.pow_nonzero; lia. }
  rewrite HT in Hcases.
  assert (Hlow : t + 1 <= 7286959305074284 * t / 2 ^ 52).
  { apply Z.div_le_lower_bound; [reflexivity |]. zeval (2 ^ 52).
    clear - Ht. lia. }
  split; [unfold floor, to_int; now rewrite Hfl |].
  split.
  - intros c Hc. apply to_int_inv in Hc as [Hc _].
    destruct Hcases as [[Hr _] | (z & Hz & Hl & _)].
    + rewrite Hr in Hc. discriminate.
    + rewrite Hz in Hc. inversion Hc; subst. zeval (2 ^ 53).
      clear - Hl Hlow Ht. lia.
  - intros Htu.
    destruct Hcases as [[_ Hr] | (z & Hz & Hl & Hu)]; [lia |].
    specialize (Hu ltac:(lia)).
    assert (Hq : 7286959305074284 * t / 2 ^ 52 <= 2147483645).
    { apply Z.lt_succ_r. apply Z.div_lt_upper_bound; [reflexivity |].
      zeval (2 ^ 52). clear - Htu. lia. }
    exists z. apply to_int_of_trunc; [exact Hz |].
    unfold INT_MIN, INT_MAX. zeval (2 ^ 31). zeval (2 ^ 53).
    clear - Hu Hq Hl Hlow Ht. lia.
Qed.

Lemma SFcompare_refl x : x <> S754_nan -> SFcompare x x = Some Eq.
Proof.
  destruct x as [s | s | | s m e]; intros H; try contradiction; cbn.
  - reflexivity.
  - destruct s; reflexivity.
  - rewrite Z.compare_refl, Pos.compare_cont_refl. destruct s; reflexivity.
Qed.

Lemma is_nan_spec f : is_nan f = true <-> Prim2SF f = S754_nan.
Proof.
  unfold is_nan. rewrite FloatAxioms.eqb_spec. unfold SFeqb. split.
  - intros H. destruct (Prim2SF f) eqn:E; try reflexivity;
      rewrite SFcompare_refl in H by discriminate; discriminate.
  - intros ->. reflexivity.
Qed.

(** Against 24, "above" is the negation of "at most", NaN apart. *)
Lemma ltb_24_leb f :
  is_nan f = false -> PrimFloat.ltb 24 f = negb (PrimFloat.leb f 24).
Proof.
  intros Hn.
  assert (Hf : Prim2SF f <> S754_nan).
  { intros E. apply is_nan_spec in E. congruence. }
  rewrite FloatAxioms.ltb_spec, FloatAxioms.leb_spec, Prim2SF_24.
  unfold SFltb, SFleb, SFcompare.
  destruct (Prim2SF f) as [s | s | | s m e]; try contradiction.
  - reflexivity.
  - destruct s; reflexivity.
  - destruct s; [reflexivity |].
    rewrite (Z.compare_antisym e (-48)).
    destruct (e ?= -48); cbn [CompOpp]; try reflexivity.
    rewrite !Pos.compare_cont_spec. cbn [Pos.switch_Eq].
    rewrite (Pos.compare_antisym m 6755399441055744).
    destruct (m ?= 6755399441055744)%positive; reflexivity.
Qed.

Lemma ltb_24_nan f : is_nan f = true -> PrimFloat.ltb 24 f = false.
Proof.
  intros H. apply is_nan_spec in H.
  rewrite FloatAxioms.ltb_spec, H, Prim2SF_24. reflexivity.
Qed.

Lemma leb_not_nan f g : PrimFloat.leb f g = true -> is_nan f = false.
Proof.
  rewrite FloatAxioms.leb_spec. intros H.
  destruct (is_nan f) eqn:E; [| reflexivity].
  apply is_nan_spec in E. rewrite E in H. discriminate.
Qed.

Lemma queue_min_24 : to_int (golden_low * 24) = Some 14.
Proof. vm_compute. reflexivity. Qed.

Lemma floor_24 : floor (golden_low * 24) = Some 14.
Proof. vm_compute. reflexivity. Qed.

Lemma queue_max_14 : queue_max 14 = Some 22.
Proof. vm_compute. reflexivity. Qed.

Lemma queue_min_bounds f t : queue_min f = Some t -> 14 <= t <= INT_MAX.
Proof.
  intros Ht. unfold queue_min, qMax in Ht.
  destruct (PrimFloat.ltb 24 f) eqn:Hlt.
  - destruct (threshold_above_24 f Hlt) as (_ & Hl & _).
    apply to_int_inv in Ht as Ht'. split; [now apply Hl | tauto].
  - rewrite queue_min_24 in Ht. inversion Ht; subst.
    split; [lia | vm_compute; discriminate].
Qed.

(** The capacity is above the threshold, which is at least 14. *)
Lemma queue_sizing_bounds f t c : queue_sizing f = Some (t, c) -> 14 <= t < c.
Proof.
  intros H. unfold queue_sizing in H.
  destruct (queue_min f) as [t' |] eqn:Ht; [| discriminate].
  destruct (queue_max t') as [c' |] eqn:Hc; [| discriminate].
  inversion H; subst t' c'. destruct (queue_min_bounds f t Ht) as [Hl Hu].
  destruct (capacity_above_threshold t (conj Hl Hu)) as (_ & Hlt & _).
  specialize (Hlt c Hc). lia.
Qed.

(** C1, as amended: for a frame rate that is a number the two sizes are
    the ones of the formula, the threshold the floor of 0.61803 times the
    larger of 24 and the frame rate and the capacity the floor of 1.61803
    times the threshold, as far as both fit an [int]; sizes that exist are
    the ones [queue_min] and [queue_max] compute, the threshold at least 14
    and the capacity above it; they exist for every frame rate up to
    [INT_MAX] and for an unknown one (NaN); at a frame rate up to 24, zero
    included, or unknown, they are 14 and 22. *)
Theorem queue_sizing_spec (f : float) :
  (is_nan f = false -> queue_sizing f = spec_sizing f)
  /\ (is_nan f = false -> queue_min f = spec_threshold f)
  /\ (forall t, queue_min f = Some t ->
        14 <= t /\ queue_max t = spec_capacity t)
  /\ (forall t c, queue_sizing f = Some (t, c) ->
        queue_min f = Some t /\ queue_max t = Some c /\ 0 < t < c)
  /\ (PrimFloat.leb f 2147483647 = true \/ is_nan f = true ->
      exists t c, queue_sizing f = Some (t, c) /\ 14 <= t < c)
  /\ (PrimFloat.leb f 24 = true \/ is_nan f = true ->
      queue_sizing f = Some (14, 22))
  /\ queue_sizing 0 = Some (14, 22).
Proof.
  assert (H5 : PrimFloat.leb f 24 = true \/ is_nan f = true ->
               queue_sizing f = Some (14, 22)).
  { intros H.
    assert (Hlt : PrimFloat.ltb 24 f = false).
    { destruct H as [H | H]; [| now apply ltb_24_nan].
      rewrite ltb_24_leb by (eapply leb_not_nan; eauto). now rewrite H. }
    unfold queue_sizing, queue_min, qMax. rewrite Hlt, queue_min_24.
    now rewrite queue_max_14. }
  assert (H2 : is_nan f = false -> queue_min f = spec_threshold f).
  { intros Hn. unfold queue_min, spec_threshold, qMax.
    rewrite (ltb_24_leb f Hn).
    destruct (PrimFloat.leb f 24) eqn:Hle; cbn [negb].
    + now rewrite queue_min_24, floor_24.
    + assert (Hlt : PrimFloat.ltb 24 f = true)
        by (rewrite ltb_24_leb, Hle; auto).
      destruct (threshold_above_24 f Hlt) as (Hfl & _). now rewrite Hfl. }
  assert (H3 : forall t, queue_min f = Some t ->
                 14 <= t /\ queue_max t = spec_capacity t).
  { intros t Ht. destruct (queue_min_bounds f t Ht) as [Hl Hu].
    split; [exact Hl |].
    unfold queue_max, spec_capacity.
    destruct (capacity_above_threshold t (conj Hl Hu)) as (Hfl & _).
    now rewrite Hfl. }
  assert (H6 : PrimFloat.leb f 2147483647 = true \/ is_nan f = true ->
               exists t c, queue_sizing f = Some (t, c)).
  { intros [Hle | Hn]; [| eauto].
    destruct (PrimFloat.ltb 24 f) eqn:Hlt.
    + destruct (threshold_above_24 f Hlt) as (_ & _ & Hd).
      destruct (Hd Hle) as (t & Ht & Htu).
      assert (Hq : queue_min f = Some t)
        by (unfold queue_min, qMax; now rewrite Hlt).
      destruct (queue_min_bounds f t Hq) as [Hl Hu].
      destruct (capacity_above_threshold t (conj Hl Hu)) as (_ & _ & Hc).
      destruct (Hc Htu) as (c & Hc').
      exists t, c. unfold queue_sizing. rewrite Hq.
      unfold queue_max. now rewrite Hc'.
    + exists 14, 22. unfold queue_sizing, queue_min, qMax.
      rewrite Hlt, queue_min_24. now rewrite queue_max_14. }
  split; [| split; [exact H2 | split; [exact H3 | split; [| split; [| split]]]]].
  - intros Hn. unfold queue_sizing, spec_sizing. rewrite <- (H2 Hn).
    destruct (queue_min f) as [t |] eqn:Ht; [| reflexivity].
    destruct (H3 t eq_refl) as [_ Hc]. now rewrite Hc.
  - intros t c H. pose proof (queue_sizing_bounds f t c H) as Hb.
    unfold queue_sizing in H.
    destruct (queue_min f) as [t' |]; [| discriminate].
    destruct (queue_max t') as [c' |] eqn:Hc; [| discriminate].
    inversion H; subst t' c'. repeat split; try assumption; lia.
  - intros H. destruct (H6 H) as (t & c & E). exists t, c.
    split; [exact E |]. now apply queue_sizing_bounds in E.
  - exact H5.
  - vm_compute. reflexivity.
Qed.

(** C1, as stated: not for every frame rate.  At 2.2e9 the threshold fits
    an [int] and the capacity of the formula, 2199980377, does not, so that
    the conversion to [int] has no value; at an infinite frame rate, the
    [av_q2d] of 1/0, the threshold has none. *)
Lemma queue_sizing_not_for_every_rate :
  queue_min 2200000000 = Some 1359666000
  /\ queue_max 1359666000 = None
  /\ queue_sizing 2200000000 = None
  /\ queue_sizing (av_q2d (mkAVRational 1 0)) = None.
Proof. repeat split; vm_compute; reflexivity. Qed.

(** ** Notification precision *)

(** What the code computes, branch by branch: 500 without a duration or
    above [60*1000] ms, 250 above [20*1000] ms, and otherwise the frame
    period or an eightieth of the duration, at least 20. *)
Lemma computeNotifyPrecision_branches (duration : Z) (fps : float) :
  (duration <= 0 \/ 60000 < duration ->
   Internal.computeNotifyPrecision duration fps = Some 500) /\
  (20000 < duration <= 60000 ->
   Internal.computeNotifyPrecision duration fps = Some 250) /\
  (0 < duration <= 20000 -> PrimFloat.ltb 1 fps = false ->
   Internal.computeNotifyPrecision duration fps
   = Some (Z.max 20 (duration / 80))) /\
  (0 < duration <= 20000 -> PrimFloat.ltb 1 fps = true ->
   forall q, to_int (PrimFloat.div 1000 fps) = Some q ->
   Internal.computeNotifyPrecision duration fps
   = Some (Z.max 20 (Z.min 250 q))).
Proof.
  unfold Internal.computeNotifyPrecision.
  change (60 * 1000) with 60000. change (20 * 1000) with 20000.
  repeat split; intros.
  - destruct H as [H | H].
    + apply Z.leb_le in H. now rewrite H.
    + apply Z.ltb_lt in H. rewrite H. now rewrite orb_true_r.
  - destruct H as [H1 H2].
    replace (duration <=? 0) with false by (symmetry; apply Z.leb_gt; lia).
    replace (60000 <? duration) with false
      by (symmetry; apply Z.ltb_ge; lia).
    replace (20000 <? duration) with true
      by (symmetry; apply Z.ltb_lt; lia).
    reflexivity.
  - replace (duration <=? 0) with false by (symmetry; apply Z.leb_gt; lia).
    replace (60000 <? duration) with false
      by (symmetry; apply Z.ltb_ge; lia).
    replace (20000 <? duration) with false
      by (symmetry; apply Z.ltb_ge; lia).
    cbn [orb]. rewrite H0.
    rewrite Z.quot_div_nonneg by lia. reflexivity.
  - replace (duration <=? 0) with false by (symmetry; apply Z.leb_gt; lia).
    replace (60000 <? duration) with false
      by (symmetry; apply Z.ltb_ge; lia).
    replace (20000 <? duration) with false
      by (symmetry; apply Z.ltb_ge; lia).
    cbn [orb]. rewrite H0.
    change (of_int (500 * 2)) with 1000%float.
    rewrite H1. reflexivity.
Qed.

(** *** The quotient of the frame-rate branch *)

Lemma Prim2SF_1 : Prim2SF 1 = S754_finite false 4503599627370496 (-52).
Proof. vm_compute. reflexivity. Qed.

Lemma Prim2SF_1000 :
  Prim2SF (of_int (500 * 2)) = S754_finite false 8796093022208000 (-43).
Proof. vm_compute. reflexivity. Qed.

(** A number above 1: infinite, or finite, positive and normal. *)
Lemma above_1 f :
  PrimFloat.ltb 1 f = true ->
  Prim2SF f = S754_infinity false
  \/ exists m e,
      Prim2SF f = S754_finite false m e
      /\ -52 <= e <= 971 /\ 2 ^ 52 <= Z.pos m < 2 ^ 53.
Proof.
  rewrite FloatAxioms.ltb_spec, Prim2SF_1. pose proof (Prim2SF_valid f) as Hv.
  destruct (Prim2SF f) as [s | s | | s m e]; unfold SFltb, SFcompare.
  - discriminate.
  - destruct s; [discriminate | auto].
  - discriminate.
  - destruct s; [discriminate |].
    apply valid_finite in Hv as (Hm & He & Hn).
    destruct (Z.compare_spec (-52) e) as [<- | Hlt | Hgt]; try discriminate.
    + rewrite Pos.compare_cont_spec. cbn [Pos.switch_Eq].
      destruct (Pos.compare_spec 4503599627370496 m) as [| Hm' |];
        try discriminate.
      intros _. right. exists m, (-52).
      split; [reflexivity |]. split; [lia |]. split; [| exact Hm].
      apply Pos2Z.pos_lt_pos in Hm'. zeval (2 ^ 52). clear - Hm'. lia.
    + intros _. right. exists m, e.
      split; [reflexivity |]. split; [lia |]. split; [| exact Hm].
      apply Hn. lia.
Qed.

(** [1000 / fps] for a frame rate above 1 has an integer part. *)
Lemma notify_quotient_defined fps :
  PrimFloat.ltb 1 fps = true ->
  exists q, to_int (PrimFloat.div (of_int (500 * 2)) fps) = Some q
            /\ 0 <= q <= 4096.
Proof.
  intros H.
  assert (Hint : forall z, 0 <= z <= 4096 -> INT_MIN <= z <= INT_MAX).
  { intros z Hz'. unfold INT_MIN, INT_MAX. zeval (2 ^ 31). lia. }
  enough (exists q, SFtrunc (Prim2SF (PrimFloat.div (of_int (500 * 2)) fps))
                    = Some q /\ 0 <= q <= 4096) as (q & Hq & Hb)
    by (exists q; split; [apply to_int_of_trunc; auto | exact Hb]).
  destruct (above_1 fps H) as [Hinf | (m & e & Hf & He & Hm)].
  - exists 0. split; [| lia].
    rewrite FloatAxioms.div_spec, Prim2SF_1000, Hinf. reflexivity.
  - assert (Hd : Z.pos (digits2_pos m) = 53).
    { destruct (digits2_bounds m) as [Hl Hu].
      assert (Z.pos (digits2_pos m) <= 53) by (apply digits2_le; lia).
      assert (Hlt : 2 ^ 52 < 2 ^ Z.pos (digits2_pos m)) by lia.
      apply Z.pow_lt_mono_r_iff in Hlt; lia. }
    rewrite FloatAxioms.div_spec, Prim2SF_1000, Hf.
    unfold SF64div, SFdiv, SFdiv_core_binary. cbn [xorb Zdigits2].
    change (Z.pos (digits2_pos 8796093022208000)) with 53. rewrite Hd, fexp_eq.
    replace (Z.min (Z.max (53 + -43 - (53 + e) - 53) (-1074)) (-43 - e))
      with (-96 - e) by lia.
    replace (-43 - e - (-96 - e)) with 53 by lia.
    change (Z.shiftl 8796093022208000 53) with (8796093022208000 * 2 ^ 53).
    pose proof (Z_div_mod (8796093022208000 * 2 ^ 53) (Z.pos m) ltac:(lia))
      as Hdiv.
    destruct (Z.div_eucl (8796093022208000 * 2 ^ 53) (Z.pos m)) as [q r].
    destruct Hdiv as [Hq Hr].
    assert (Hqb : 2 ^ 52 <= q <= 2 ^ 54).
    { zeval (8796093022208000 * 2 ^ 53). zeval (2 ^ 52). zeval (2 ^ 53).
      zeval (2 ^ 54). clear - Hq Hr Hm. nia. }
    destruct q as [| pq | pq]; try (zeval (2 ^ 52); lia).
    destruct (binary_round_aux_shape pq (-96 - e)
                (new_location (Z.pos m) r))
      as (m2 & Hm2 & Hm53 & _ & Hshape).
    cbn zeta in Hm2, Hshape. rewrite Hshape. clear Hshape.
    set (k := Z.max 0 (fexp prec emax (Z.pos (digits2_pos pq) + (-96 - e))
                       - (-96 - e))) in *.
    assert (Hk : 0 <= k <= 2).
    { subst k. rewrite fexp_eq.
      assert (Z.pos (digits2_pos pq) <= 55).
      { apply digits2_le; [lia |]. eapply Z.le_lt_trans; [apply Hqb |].
        reflexivity. }
      lia. }
    assert (Hm1 : 1 <= Z.pos pq / 2 ^ k).
    { apply Z.div_le_lower_bound; [apply Z.pow_pos_nonneg; lia |].
      assert (Hp : 2 ^ k <= 2 ^ 2) by (apply Z.pow_le_mono_r; lia).
      zeval (2 ^ 2). zeval (2 ^ 52). clear - Hp Hqb. lia. }
    assert (Hz : forall mm ee, 0 <= mm <= 2 ^ 53 -> ee <= -41 ->
                 0 <= dyadic_trunc mm ee <= 4096).
    { intros mm ee Hmm Hee. unfold dyadic_trunc.
      replace (0 <=? ee) with false by (symmetry; apply Z.leb_gt; lia).
      assert (Hp : 2 ^ 41 <= 2 ^ (- ee)) by (apply Z.pow_le_mono_r; lia).
      split; [apply Z.div_pos; lia |].
      apply Z.lt_succ_r. apply Z.div_lt_upper_bound; [lia |].
      zeval (2 ^ 41). zeval (2 ^ 53). unfold Z.succ. clear - Hmm Hp. nia. }
    destruct (Z.eqb_spec m2 0) as [H0 | H0]; [lia |].
    destruct (Z.eqb_spec m2 (2 ^ 53)) as [H53 | H53].
    + replace (-96 - e + k + 1 <=? 971) with true
        by (symmetry; apply Z.leb_le; lia).
      eexists. split; [reflexivity |].
      apply Hz; [vm_compute; split; discriminate | lia].
    + replace (-96 - e + k <=? 971) with true
        by (symmetry; apply Z.leb_le; lia).
      eexists. split; [reflexivity |].
      rewrite Z2Pos.id by lia. apply Hz; lia.
Qed.

(** X1: [computeNotifyPrecision] is total, for every duration and every
    frame rate (not-a-number and the infinities included), and its result
    lies between 20 and 500. *)
Lemma computeNotifyPrecision_total (duration : Z) (fps : float) :
  exists r, Internal.computeNotifyPrecision duration fps = Some r
            /\ 20 <= r <= 500.
Proof.
  unfold Internal.computeNotifyPrecision.
  destruct (Z.leb_spec duration 0); cbn [orb]; [exists 500; split; [reflexivity | lia] |].
  destruct (Z.ltb_spec (60 * 1000) duration);
    [exists 500; split; [reflexivity | lia] |].
  destruct (Z.ltb_spec (20 * 1000) duration);
    [exists 250; split; [reflexivity | lia] |].
  destruct (PrimFloat.ltb 1 fps) eqn:Hf.
  - destruct (notify_quotient_defined fps Hf) as (q & Hq & Hb).
    rewrite Hq. eexists. split; [reflexivity |]. lia.
  - eexists. split; [reflexivity |].
    rewrite Z.quot_div_nonneg by lia.
    assert (duration / 80 <= 250)
      by (apply Z.lt_succ_r, Z.div_lt_upper_bound; lia).
    lia.
Qed.

(** C4, at a duration of two minutes: the code answers 500, where a
    duration above 20 seconds and below 10 minutes is to give 250.  The
    bound in the code is [60*1000] ms, one minute, next to a comment that
    says ten. *)
Theorem computeNotifyPrecision_two_minutes :
  Internal.computeNotifyPrecision 120000 25 = Some 500
  /\ Internal.computeNotifyPrecision 600000 25 = Some 500
  /\ Internal.computeNotifyPrecision 60001 25 = Some 500
  /\ Internal.computeNotifyPrecision 60000 25 = Some 250.
Proof. repeat split; vm_compute; reflexivity. Qed.

(** C5, the first two values as the claim has them. The third is 33. *)
Theorem computeNotifyPrecision_values :
  Internal.computeNotifyPrecision 0 0 = Some 500
  /\ Internal.computeNotifyPrecision 5000 0 = Some 62
  /\ Internal.computeNotifyPrecision 15000 30 = Some 33.
Proof. repeat split; vm_compute; reflexivity. Qed.

(** C5, as stated: the value at (15000, 30) is not 250. *)
Lemma computeNotifyPrecision_15000_30_not_250 :
  Internal.computeNotifyPrecision 15000 30 <> Some 250.
Proof. vm_compute. discriminate. Qed.

(** ** correct_audio_channels *)


(** A second call changes nothing more. *)
Lemma correct_audio_channels_idempotent (ff : FFmpeg) (ctx : AVCodecContext) :
  correct_audio_channels ff (snd (correct_audio_channels ff ctx))
  = correct_audio_channels ff ctx.
Proof.
  destruct ctx as [c l sr sf].
  unfold correct_audio_channels; cbn [channels channel_layout fst snd].
  destruct (Z.leb_spec c 0) as [Hc | Hc];
    destruct (N.eqb_spec l 0) as [Hl | Hl]; cbn [negb].
  - cbn [set_channels set_channel_layout channels channel_layout].
    destruct (Z.leb_spec c 0); [| lia].
    destruct (N.eqb_spec l 0); [| contradiction]. reflexivity.
  - cbn [set_channels set_channel_layout channels channel_layout sample_rate
         sample_fmt].
    destruct (N.eqb_spec l 0); [contradiction |]. cbn [negb].
    destruct (Z.leb_spec (av_get_channel_layout_nb_channels ff l) 0);
      reflexivity.
  - cbn [set_channels set_channel_layout channels channel_layout sample_rate
         sample_fmt].
    destruct (Z.leb_spec c 0); [lia |].
    destruct (N.eqb_spec (to_uint64 (av_get_default_channel_layout ff c)) 0);
      reflexivity.
  - cbn [set_channels set_channel_layout channels channel_layout].
    destruct (Z.leb_spec c 0); [lia |].
    destruct (N.eqb_spec l 0); [contradiction |]. reflexivity.
Qed.

(** ** Audio format negotiation: the channel layout *)

(** C9, as stated: a stereo stream on a device that plays only mono is
    given the device's layout, not its own. *)
Lemma negotiated_layout_stereo_on_mono_device :
  channels Examples.stereo_ctx <= 2
  /\ channelLayout
       (negotiated_format Examples.mono_device
          (snd (correct_audio_channels Examples.ffmpeg Examples.stereo_ctx)))
     <> channel_layout Examples.stereo_ctx.
Proof. split; [vm_compute; discriminate | vm_compute; discriminate]. Qed.

(** C9, amended: above two channels the layout is the device's preferred
    one; up to two channels it is the stream's own layout when the device
    supports the derived format or that layout, and the device's preferred
    layout otherwise. *)
Theorem negotiated_layout (dev : AudioOutputImpl) (ctx : AVCodecContext) :
  let af := negotiated_format dev ctx in
  let derived :=
    mkAudioFormat (sample_rate ctx)
      (if SampleFormat_isPlanar (sample_fmt ctx)
       then preferredSampleFormat dev else sample_fmt ctx)
      (channel_layout ctx) in
  (2 < channels ctx -> channelLayout af = preferredChannelLayout dev)
  /\ (channels ctx <= 2 ->
      channelLayout af
      = if isSupported dev derived
           || isSupportedChannelLayout dev (channel_layout ctx)
        then channel_layout ctx else preferredChannelLayout dev).
Proof.
  destruct ctx as [c l sr sf]. cbn zeta.
  unfold negotiated_format, isPlanar, setSampleRate, setSampleFormat,
    setChannelLayout, AudioFormat_default;
    cbn [channels channel_layout sample_rate sample_fmt sampleRate
         sampleFormat channelLayout].
  split; intros H.
  - apply Z.ltb_lt in H. rewrite H.
    cbn [channels channel_layout sample_rate sample_fmt sampleRate
         sampleFormat channelLayout].
    repeat match goal with
           | |- context [if ?b then _ else _] => destruct b
           end; reflexivity.
  - apply Z.ltb_ge in H. rewrite H.
    cbn [channels channel_layout sample_rate sample_fmt sampleRate
         sampleFormat channelLayout].
    destruct (SampleFormat_isPlanar sf);
      cbn [channels channel_layout sample_rate sample_fmt sampleRate
           sampleFormat channelLayout].
    all: match goal with
         | |- context [isSupported ?d ?f] => destruct (isSupported d f)
         end; cbn [negb orb]; [reflexivity |].
    all: repeat match goal with
           | |- context [isSupportedSampleFormat ?d ?f] =>
               destruct (isSupportedSampleFormat d f)
           end;
      cbn [negb channelLayout];
      match goal with
      | |- context [isSupportedChannelLayout ?d ?f] =>
          destruct (isSupportedChannelLayout d f)
      end; reflexivity.
Qed.

(** ** Histories *)

Section Histories.

Implicit Types (l h : list Event) (p n : Ptr) (k : Obj -> bool).

Lemma live_quiet e l : quiet e = true -> live (e :: l) = live l.
Proof. destruct e; cbn; intros; try discriminate; reflexivity. Qed.

Lemma live_of_quiet k e l :
  quiet e = true -> live_of k (e :: l) = live_of k l.
Proof. intros H; unfold live_of; now rewrite live_quiet. Qed.

Lemma live_of_New k ob p l :
  live_of k (New ob p :: l)
  = if k ob then (p, ob) :: live_of k l else live_of k l.
Proof. reflexivity. Qed.

Lemma filter_swap {A} (f g : A -> bool) (xs : list A) :
  filter f (filter g xs) = filter g (filter f xs).
Proof.
  induction xs as [| x xs IH]; cbn; [reflexivity |].
  destruct (f x) eqn:Hf, (g x) eqn:Hg; cbn; rewrite ?Hf, ?Hg, IH; reflexivity.
Qed.

Lemma live_of_Delete k p l :
  live_of k (Delete p :: l)
  = filter (fun x => negb (Nat.eqb (fst x) p)) (live_of k l).
Proof. unfold live_of; cbn [live]. apply filter_swap. Qed.

Lemma In_live_of k l x : In x (live_of k l) <-> In x (live l) /\ k (snd x) = true.
Proof. unfold live_of. apply filter_In. Qed.

Lemma NoDup_map_fst_filter {A B} (f : A * B -> bool) (xs : list (A * B)) :
  NoDup (map fst xs) -> NoDup (map fst (filter f xs)).
Proof.
  induction xs as [| x xs IH]; cbn; intros H; [constructor |].
  inversion H as [| ? ? Hn Hd]; subst.
  destruct (f x); cbn; [constructor |]; auto.
  intros Hin. apply Hn. apply in_map_iff in Hin as [y [Hy Hin]].
  apply filter_In in Hin as [Hin _]. apply in_map_iff. now exists y.
Qed.

Lemma NoDup_map_fst_unique {A B} (xs : list (A * B)) a b b' :
  NoDup (map fst xs) -> In (a, b) xs -> In (a, b') xs -> b = b'.
Proof.
  induction xs as [| x xs IH]; cbn; intros H H1 H2; [contradiction |].
  inversion H as [| ? ? Hn Hd]; subst.
  destruct H1 as [-> | H1], H2 as [E | H2].
  - now inversion E.
  - exfalso. apply Hn. apply in_map_iff. now exists (a, b').
  - subst x. exfalso. apply Hn. apply in_map_iff. now exists (a, b).
  - now apply IH.
Qed.

Lemma filter_id {A} (f : A -> bool) (xs : list A) :
  (forall x, In x xs -> f x = true) -> filter f xs = xs.
Proof.
  induction xs as [| x xs IH]; cbn; intros H; [reflexivity |].
  rewrite (H x) by now left. f_equal. apply IH. intros; apply H. now right.
Qed.

(** Deleting an object of another kind leaves the objects of kind [k]. *)
Lemma live_of_Delete_other k k' p ob l :
  NoDup (map fst (live l)) ->
  In (p, ob) (live_of k' l) ->
  (forall x, k x = true -> k' x = true -> False) ->
  live_of k (Delete p :: l) = live_of k l.
Proof.
  intros Hnd Hin Hdisj. rewrite live_of_Delete. apply filter_id.
  intros [q ob'] Hq. cbn [fst].
  apply In_live_of in Hq as [Hq Hk]. apply In_live_of in Hin as [Hin Hk'].
  destruct (Nat.eqb_spec q p) as [-> | ]; [| reflexivity].
  exfalso. assert (ob' = ob) by (eapply NoDup_map_fst_unique; eauto).
  subst. cbn in *. eauto.
Qed.

(** What a history of the set-up functions means for the objects alive. *)
Lemma Hist_sound l n v a o :
  Hist l n v a o ->
  (forall p ob, In (p, ob) (live l) -> (p < n)%nat)
  /\ NoDup (map fst (live l))
  /\ live_of is_video_decoder l = v
  /\ live_of is_audio_decoder l = a
  /\ live_of is_audio_output l = o
  /\ (length v <= 1 /\ length a <= 1 /\ length o <= 1)%nat.
Proof.
  induction 1 as
    [ n | e l n v a o Hq _ IH | vid l n a o _ IH | l n v o _ IH
    | aoid l n v a _ IH | ob l n v a o Hk _ IH | p ob l n a o _ IH
    | p ob l n v o _ IH | p ob l n v a _ IH ].
  - cbn. repeat split; try constructor; try (cbn; lia); try contradiction.
  - rewrite !live_of_quiet, live_quiet by assumption. exact IH.
  - destruct IH as (Hb & Hnd & Hv & Ha & Ho & Hl).
    rewrite !live_of_New; cbn [is_video_decoder is_audio_decoder
                                is_audio_output live].
    rewrite Hv. repeat split; try tauto; try (cbn; lia).
    + intros p ob [E | Hin]; [inversion E; lia |].
      apply Hb in Hin. lia.
    + cbn. constructor; [| assumption].
      intros Hin. apply in_map_iff in Hin as [[q ob] [E Hin]].
      cbn in E; subst q. apply Hb in Hin. lia.
  - destruct IH as (Hb & Hnd & Hv & Ha & Ho & Hl).
    rewrite !live_of_New; cbn [is_video_decoder is_audio_decoder
                                is_audio_output live].
    rewrite Ha. repeat split; try tauto; try (cbn; lia).
    + intros p ob [E | Hin]; [inversion E; lia |].
      apply Hb in Hin. lia.
    + cbn. constructor; [| assumption].
      intros Hin. apply in_map_iff in Hin as [[q ob] [E Hin]].
      cbn in E; subst q. apply Hb in Hin. lia.
  - destruct IH as (Hb & Hnd & Hv & Ha & Ho & Hl).
    rewrite !live_of_New; cbn [is_video_decoder is_audio_decoder
                                is_audio_output live].
    rewrite Ho. repeat split; try tauto; try (cbn; lia).
    + intros p ob [E | Hin]; [inversion E; lia |].
      apply Hb in Hin. lia.
    + cbn. constructor; [| assumption].
      intros Hin. apply in_map_iff in Hin as [[q ob] [E Hin]].
      cbn in E; subst q. apply Hb in Hin. lia.
  - destruct IH as (Hb & Hnd & Hv & Ha & Ho & Hl).
    unfold is_decoder_or_output in Hk.
    apply orb_false_iff in Hk as [Hk Hk3].
    apply orb_false_iff in Hk as [Hk1 Hk2].
    rewrite !live_of_New, Hk1, Hk2, Hk3. cbn [live].
    repeat split; try tauto.
    + intros p ob' [E | Hin]; [inversion E; lia |].
      apply Hb in Hin. lia.
    + cbn. constructor; [| assumption].
      intros Hin. apply in_map_iff in Hin as [[q ob'] [E Hin]].
      cbn in E; subst q. apply Hb in Hin. lia.
  - destruct IH as (Hb & Hnd & Hv & Ha & Ho & Hl).
    assert (Hin : In (p, ob) (live_of is_video_decoder l))
      by (rewrite Hv; now left).
    rewrite (live_of_Delete_other is_audio_decoder is_video_decoder p ob),
      (live_of_Delete_other is_audio_output is_video_decoder p ob);
      try assumption; try (intros [] ? ?; discriminate).
    rewrite live_of_Delete, Hv. cbn [live filter fst]. rewrite Nat.eqb_refl.
    cbn [negb]. repeat split; try tauto; try (cbn; lia).
    + intros q ob' Hq. apply filter_In in Hq as [Hq _]. eauto.
    + now apply NoDup_map_fst_filter.
  - destruct IH as (Hb & Hnd & Hv & Ha & Ho & Hl).
    assert (Hin : In (p, ob) (live_of is_audio_decoder l))
      by (rewrite Ha; now left).
    rewrite (live_of_Delete_other is_video_decoder is_audio_decoder p ob),
      (live_of_Delete_other is_audio_output is_audio_decoder p ob);
      try assumption; try (intros [] ? ?; discriminate).
    rewrite live_of_Delete, Ha. cbn [live filter fst]. rewrite Nat.eqb_refl.
    cbn [negb]. repeat split; try tauto; try (cbn; lia).
    + intros q ob' Hq. apply filter_In in Hq as [Hq _]. eauto.
    + now apply NoDup_map_fst_filter.
  - destruct IH as (Hb & Hnd & Hv & Ha & Ho & Hl).
    assert (Hin : In (p, ob) (live_of is_audio_output l))
      by (rewrite Ho; now left).
    rewrite (live_of_Delete_other is_video_decoder is_audio_output p ob),
      (live_of_Delete_other is_audio_decoder is_audio_output p ob);
      try assumption; try (intros [] ? ?; discriminate).
    rewrite live_of_Delete, Ho. cbn [live filter fst]. rewrite Nat.eqb_refl.
    cbn [negb]. repeat split; try tauto; try (cbn; lia).
    + intros q ob' Hq. apply filter_In in Hq as [Hq _]. eauto.
    + now apply NoDup_map_fst_filter.
Qed.

(** Every earlier time of such a history is such a history. *)
Lemma Hist_earlier l n v a o h :
  Hist l n v a o -> earlier h l -> exists n' v' a' o', Hist h n' v' a' o'.
Proof.
  intros H [d ->]. revert n v a o H.
  induction d as [| e d IH]; cbn; intros n v a o H; [eauto |].
  inversion H; subst; eauto.
Qed.

End Histories.

(** ** The loop over the video decoder candidates *)

Section VideoDecoderSelection.

Variable w : World.

Lemma succeeds_false vid :
  succeeds w vid = false ->
  vd_create w vid = false
  \/ (vd_create w vid = true /\ vd_prepare w vid = false)
  \/ (vd_create w vid = true /\ vd_prepare w vid = true
      /\ vd_open w vid = false).
Proof.
  unfold succeeds.
  destruct (vd_create w vid), (vd_prepare w vid), (vd_open w vid);
    cbn; intros; try discriminate; tauto.
Qed.

(** The loop touches nothing but [vdec], the addresses and the history. *)
Lemma try_video_decoders_frame ids s :
  frame_video s (try_video_decoders w ids s).
Proof.
  revert s. induction ids as [| vid rest IH]; intros s; cbn.
  - unfold frame_video; tauto.
  - destruct (vd_create w vid); [destruct (vd_prepare w vid);
                                 [destruct (vd_open w vid) |] |].
    + unfold frame_video; cbn; tauto.
    + match goal with |- frame_video _ (try_video_decoders _ _ ?s1) =>
        specialize (IH s1) end.
      unfold frame_video in *; cbn in IH; exact IH.
    + match goal with |- frame_video _ (try_video_decoders _ _ ?s1) =>
        specialize (IH s1) end.
      unfold frame_video in *; cbn in IH; exact IH.
    + match goal with |- frame_video _ (try_video_decoders _ _ ?s1) =>
        specialize (IH s1) end.
      unfold frame_video in *; cbn in IH; exact IH.
Qed.

(** The loop keeps the history well formed: it starts without a video
    decoder alive and ends with the one it selected, or none. *)
Lemma try_video_decoders_Hist ids s a o :
  vdec s = None ->
  Hist (log s) (next_ptr s) [] a o ->
  let s' := try_video_decoders w ids s in
  Hist (log s') (next_ptr s') (vdec_live s') a o.
Proof.
  revert s. induction ids as [| vid rest IH]; intros s Hv H; cbn.
  - unfold vdec_live; rewrite Hv; exact H.
  - destruct (vd_create w vid); [destruct (vd_prepare w vid);
                                 [destruct (vd_open w vid) |] |].
    + unfold vdec_live; cbn.
      repeat (apply Hist_quiet; [reflexivity |]).
      now apply Hist_new_video.
    + apply IH; cbn; [assumption |].
      eapply Hist_delete_video.
      repeat (apply Hist_quiet; [reflexivity |]).
      apply Hist_new_video, H.
    + apply IH; cbn; [assumption |].
      eapply Hist_delete_video.
      repeat (apply Hist_quiet; [reflexivity |]).
      apply Hist_new_video, H.
    + apply IH; cbn; [assumption |].
      apply Hist_quiet; [reflexivity | exact H].
Qed.

End VideoDecoderSelection.

(** ** The set-up functions keep the ownership invariant *)

Create HintDb hist.
#[local] Hint Constructors Hist : hist.
#[local] Hint Extern 1 (quiet _ = true) => reflexivity : hist.
#[local] Hint Extern 1 (is_decoder_or_output _ = false) => reflexivity : hist.

Lemma initVideoStatistics_frame s :
  let s' := initVideoStatistics s in
  log s' = log s /\ next_ptr s' = next_ptr s /\ vdec s' = vdec s
  /\ adec s' = adec s /\ ao s' = ao s /\ vthread s' = vthread s
  /\ athread s' = athread s /\ videoStream s' = videoStream s
  /\ audioCodecContext s' = audioCodecContext s /\ vc_ids s' = vc_ids s
  /\ ao_ids s' = ao_ids s /\ ao_enabled s' = ao_enabled s
  /\ clock s' = clock s.
Proof.
  unfold initVideoStatistics.
  destruct (videoStream s) eqn:E; cbn; rewrite ?E; repeat split; reflexivity.
Qed.

Lemma initAudioStatistics_frame ff s :
  let s' := initAudioStatistics ff s in
  log s' = log s /\ next_ptr s' = next_ptr s /\ vdec s' = vdec s
  /\ adec s' = adec s /\ ao s' = ao s /\ vthread s' = vthread s
  /\ athread s' = athread s /\ videoStream s' = videoStream s
  /\ vc_ids s' = vc_ids s /\ ao_ids s' = ao_ids s
  /\ ao_enabled s' = ao_enabled s /\ clock s' = clock s
  /\ audioCodecContext s'
     = option_map (fun c => snd (correct_audio_channels ff c))
         (audioCodecContext s).
Proof.
  unfold initAudioStatistics.
  destruct (audioCodecContext s) eqn:E; cbn; rewrite ?E; repeat split;
    reflexivity.
Qed.

Lemma Inv_statistics ff s :
  Inv s -> Inv (initVideoStatistics (initAudioStatistics ff s)).
Proof.
  unfold Inv, vdec_live, adec_live, output_live. intros H.
  destruct (initVideoStatistics_frame (initAudioStatistics ff s))
    as (El & En & Ev & Ea & Eo & _).
  destruct (initAudioStatistics_frame ff s) as (El' & En' & Ev' & Ea' & Eo' & _).
  cbn zeta in *. rewrite El, En, Ev, Ea, Eo, El', En', Ev', Ea', Eo'. exact H.
Qed.

Lemma reset_video_thread_Inv s : Inv s -> Inv (reset_video_thread s).
Proof.
  unfold Inv, reset_video_thread. intros H.
  destruct (vthread s) as [t |]; [| exact H].
  match goal with |- context [initVideoStatistics ?x] =>
    destruct (initVideoStatistics_frame x) as (El & En & Ev & Ea & Eo & _) end.
  unfold vdec_live, adec_live, output_live in *.
  rewrite El, En, Ev, Ea, Eo. cbn.
  auto 10 with hist.
Qed.

Lemma reset_video_thread_frame s :
  let s' := reset_video_thread s in
  vdec s' = vdec s /\ adec s' = adec s /\ ao s' = ao s
  /\ videoStream s' = videoStream s
  /\ audioCodecContext s' = audioCodecContext s
  /\ vc_ids s' = vc_ids s /\ emitted (log s') = emitted (log s)
  /\ athread s' = athread s /\ clock s' = clock s
  /\ thread_decoder (vthread s') = None
  /\ live (log s') = live (log s).
Proof.
  unfold reset_video_thread.
  destruct (vthread s) as [t |] eqn:Et; cbn zeta.
  - match goal with |- context [initVideoStatistics ?x] =>
      destruct (initVideoStatistics_frame x)
        as (El & En & Ev & Ea & Eo & Evt & Eat & Evs & Eac & Evc & _ & _ & Ec)
    end.
    rewrite El, Ev, Ea, Eo, Evt, Eat, Evs, Eac, Evc, Ec. cbn.
    repeat split; reflexivity.
  - rewrite Et. repeat split; reflexivity.
Qed.

Lemma delete_vdec_Hist s :
  Inv s ->
  let s' := delete_vdec s in
  Hist (log s') (next_ptr s') [] (adec_live s') (output_live s')
  /\ vdec s' = None.
Proof.
  unfold Inv, delete_vdec, vdec_live. intros H.
  destruct (vdec s) as [d |] eqn:E; cbn; split; try reflexivity;
    try assumption.
  eapply Hist_delete_video. apply Hist_quiet; [reflexivity |]. exact H.
Qed.

Lemma delete_vdec_frame s :
  let s' := delete_vdec s in
  frame_video s s' /\ emitted (log s') = emitted (log s)
  /\ requested (log s') = requested (log s).
Proof.
  unfold delete_vdec, frame_video.
  destruct (vdec s); cbn; repeat split; reflexivity.
Qed.

Lemma install_video_decoder_spec w d s r s' :
  install_video_decoder w d s = Some (r, s') ->
  r = true
  /\ vdec s' = vdec s /\ adec s' = adec s /\ ao s' = ao s
  /\ emitted (log s') = emitted (log s) /\ clock s' = clock s
  /\ thread_decoder (vthread s') = Some (vd_ptr d)
  /\ (forall v a o,
        Hist (log s) (next_ptr s) v a o ->
        Hist (log s') (next_ptr s') v a o).
Proof.
  unfold install_video_decoder.
  destruct (vthread s) as [t |] eqn:Et; cbn; rewrite Et; cbn.
  - destruct (queue_sizing _) as [[qmin qmax] |]; [| discriminate].
    intros E; inversion E; subst; clear E. cbn.
    repeat split; try reflexivity. intros. auto 10 with hist.
  - destruct (queue_sizing _) as [[qmin qmax] |]; [| discriminate].
    intros E; inversion E; subst; clear E. cbn.
    repeat split; try reflexivity. intros. auto 10 with hist.
Qed.

Lemma setupVideoThread_Inv w s r s' :
  Inv s -> setupVideoThread w s = Some (r, s') -> Inv s'.
Proof.
  unfold setupVideoThread. intros HI.
  apply reset_video_thread_Inv in HI.
  set (s0 := reset_video_thread s) in *. clearbody s0.
  destruct (videoStream s0) as [avctx |];
    [| intros E; inversion E; subst; exact HI].
  destruct (delete_vdec_Hist s0 HI) as [H1 Hv1].
  destruct (delete_vdec_frame s0) as [F1 _].
  set (s1 := delete_vdec s0) in *. clearbody s1.
  pose proof (try_video_decoders_Hist w (vc_ids s1) s1 _ _ Hv1 H1) as H2.
  pose proof (try_video_decoders_frame w (vc_ids s1) s1) as F2.
  cbn zeta in H2.
  set (s2 := try_video_decoders w (vc_ids s1) s1) in *. clearbody s2.
  assert (HI2 : Inv s2).
  { unfold Inv, adec_live, output_live in *.
    destruct F2 as (_ & _ & _ & _ & _ & _ & Eo & Ea & _).
    rewrite Eo, Ea. exact H2. }
  destruct (vdec s2) as [d |] eqn:Ed.
  - intros E. apply install_video_decoder_spec in E
      as (_ & Ev & Ea & Eo & _ & _ & _ & HH).
    unfold Inv, vdec_live, adec_live, output_live in *.
    rewrite Ev, Ea, Eo. now apply HH.
  - intros E; inversion E; subst; clear E.
    unfold Inv, vdec_live, adec_live, output_live in *. cbn.
    apply Hist_quiet; [reflexivity | exact HI2].
Qed.

Lemma reset_audio_thread_Inv ff s : Inv s -> Inv (reset_audio_thread ff s).
Proof.
  unfold Inv, reset_audio_thread. intros H.
  destruct (athread s) as [t |]; [| exact H].
  match goal with |- context [initAudioStatistics ff ?x] =>
    destruct (initAudioStatistics_frame ff x) as (El & En & Ev & Ea & Eo & _)
  end.
  unfold vdec_live, adec_live, output_live in *.
  rewrite El, En, Ev, Ea, Eo. cbn.
  auto 10 with hist.
Qed.

Lemma reset_audio_thread_frame ff s :
  let s' := reset_audio_thread ff s in
  vdec s' = vdec s /\ adec s' = adec s /\ ao s' = ao s
  /\ videoStream s' = videoStream s
  /\ ao_ids s' = ao_ids s /\ ao_enabled s' = ao_enabled s
  /\ emitted (log s') = emitted (log s)
  /\ vthread s' = vthread s /\ clock s' = clock s
  /\ thread_decoder (athread s') = None
  /\ (athread s = None -> s' = s)
  /\ (athread s' = None <-> athread s = None)
  /\ live (log s') = live (log s)
  /\ (audioCodecContext s' = None <-> audioCodecContext s = None)
  /\ (forall p, filter (is_device_call p) (log s')
                = filter (is_device_call p) (log s)).
Proof.
  unfold reset_audio_thread.
  destruct (athread s) as [t |] eqn:Et; cbn zeta.
  - match goal with |- context [initAudioStatistics ff ?x] =>
      destruct (initAudioStatistics_frame ff x)
        as (El & En & Ev & Ea & Eo & Evt & Eat & Evs & Evc & Eai & Eae & Ec
            & Eac)
    end.
    rewrite El, Ev, Ea, Eo, Evt, Eat, Evs, Eai, Eae, Ec, Eac. cbn.
    repeat split; try reflexivity; try discriminate.
    + destruct (audioCodecContext s); [discriminate | reflexivity].
    + intros ->. reflexivity.
  - rewrite Et. repeat split; try reflexivity; tauto.
Qed.

Lemma delete_adec_Hist s :
  Inv s ->
  let s' := delete_adec s in
  Hist (log s') (next_ptr s') (vdec_live s') [] (output_live s')
  /\ adec s' = None.
Proof.
  unfold Inv, delete_adec, adec_live. intros H.
  destruct (adec s) as [d |] eqn:E; cbn; split; try reflexivity;
    try assumption.
  eapply Hist_delete_audio. apply Hist_quiet; [reflexivity |]. exact H.
Qed.

Lemma new_adec_Hist w s v o :
  Hist (log s) (next_ptr s) v [] o ->
  let s' := snd (new_adec w s) in
  Hist (log s') (next_ptr s') v [(fst (new_adec w s), AudioDecoderObj)] o
  /\ fst (new_adec w s) = next_ptr s
  /\ adec s' = Some (mkAudioDecoder (next_ptr s) false)
  /\ vdec s' = vdec s /\ ao s' = ao s.
Proof.
  intros H. unfold new_adec; cbn.
  repeat split; try reflexivity. auto 10 with hist.
Qed.

Lemma try_audio_outputs_Hist w ids s v a :
  ao s = None ->
  Hist (log s) (next_ptr s) v a [] ->
  let s' := try_audio_outputs w ids s in
  Hist (log s') (next_ptr s') v a (output_live s')
  /\ vdec s' = vdec s /\ adec s' = adec s.
Proof.
  revert s. induction ids as [| aoid rest IH]; intros s Ho H; cbn.
  - unfold output_live; rewrite Ho. auto.
  - destruct (ao_create w aoid) as [impl |].
    + unfold output_live; cbn. auto 10 with hist.
    + match goal with |- context [try_audio_outputs w rest ?s1] =>
        destruct (IH s1) as (H1 & Ev & Ea) end;
        [assumption | cbn; auto with hist |].
      cbn in *. auto.
Qed.

Lemma find_audio_output_Hist w s v a :
  Hist (log s) (next_ptr s) v a (output_live s) ->
  let s' := find_audio_output w s in
  Hist (log s') (next_ptr s') v a (output_live s')
  /\ vdec s' = vdec s /\ adec s' = adec s.
Proof.
  unfold find_audio_output. intros H.
  destruct (ao s) as [dev |] eqn:Eo; [auto |].
  destruct (ao_enabled s); [| auto].
  apply try_audio_outputs_Hist; [assumption |].
  unfold output_live in H; rewrite Eo in H. exact H.
Qed.

Lemma reopen_audio_output_Hist dev af s v a :
  ao s = Some dev ->
  Hist (log s) (next_ptr s) v a (output_live s) ->
  match reopen_audio_output dev af s with
  | inl s' =>
      Hist (log s') (next_ptr s') v a [] /\ ao s' = None
  | inr s' => Hist (log s') (next_ptr s') v a (output_live s')
  end
  /\ (let s' := match reopen_audio_output dev af s with
                | inl s' | inr s' => s'
                end in
      vdec s' = vdec s /\ adec s' = adec s).
Proof.
  intros Ho H. unfold output_live in H; rewrite Ho in H.
  unfold reopen_audio_output.
  destruct (AudioFormat_eqb (audioFormat dev) af); cbn [negb].
  - unfold output_live; rewrite Ho. auto.
  - destruct (open_ok (ao_impl dev) af); cbn [negb].
    + unfold output_live; cbn. split; [| auto]. auto 10 with hist.
    + cbn. split; [| auto]. split; [| reflexivity].
      eapply Hist_delete_output. repeat (apply Hist_quiet; [reflexivity |]).
      exact H.
Qed.

Lemma finish_audio_setup_spec w d s r s' :
  finish_audio_setup w d s = Some (r, s') ->
  r = true
  /\ vdec s' = vdec s /\ adec s' = adec s /\ ao s' = ao s
  /\ emitted (log s') = emitted (log s) /\ clock s' = clock s
  /\ thread_decoder (athread s') = Some d
  /\ (forall p, filter (is_device_call p) (log s')
                = filter (is_device_call p) (log s))
  /\ (forall v a o,
        Hist (log s) (next_ptr s) v a o ->
        Hist (log s') (next_ptr s') v a o).
Proof.
  unfold finish_audio_setup.
  destruct (athread s) as [t |] eqn:Et; cbn; rewrite Et; cbn.
  - destruct (queue_sizing _) as [[qmin qmax] |]; [| discriminate].
    intros E; inversion E; subst; clear E. cbn.
    repeat split; try reflexivity. intros. auto 10 with hist.
  - destruct (queue_sizing _) as [[qmin qmax] |]; [| discriminate].
    intros E; inversion E; subst; clear E. cbn.
    repeat split; try reflexivity. intros. auto 10 with hist.
Qed.

Lemma setupAudioThread_Inv ff w s r s' :
  Inv s -> setupAudioThread ff w s = Some (r, s') -> Inv s'.
Proof.
  unfold setupAudioThread. intros HI.
  apply (reset_audio_thread_Inv ff) in HI.
  set (s0 := reset_audio_thread ff s) in *. clearbody s0.
  destruct (audioCodecContext s0) as [avctx |];
    [| intros E; inversion E; subst; exact HI].
  destruct (delete_adec_Hist s0 HI) as [H1 Ha1].
  set (s1 := delete_adec s0) in *. clearbody s1.
  destruct (new_adec_Hist w s1 _ _ H1) as (H2 & Ep & Ea2 & Ev2 & Eo2).
  destruct (new_adec w s1) as [p s2]. cbn [fst snd] in *.
  assert (HI2 : Inv s2).
  { unfold Inv, adec_live, vdec_live, output_live in *.
    rewrite Ea2, Ev2, Eo2. cbn. subst p. exact H2. }
  destruct (ad_open w); cbn [negb].
  2:{ intros E; inversion E; subst; clear E.
      unfold Inv, vdec_live, adec_live, output_live in *. cbn.
      apply Hist_quiet; [reflexivity | exact HI2]. }
  set (s3 := set_audio_decoder_name (Some p)
               (set_adec (Some (mkAudioDecoder p true)) s2)).
  assert (H3 : Hist (log s3) (next_ptr s3) (vdec_live s3)
                 [(p, AudioDecoderObj)] (output_live s3)).
  { unfold Inv, adec_live, vdec_live, output_live in *. subst s3. cbn.
    rewrite Ea2 in HI2. subst p. exact HI2. }
  assert (Ea3 : adec s3 = Some (mkAudioDecoder p true)) by reflexivity.
  clearbody s3.
  destruct (find_audio_output_Hist w s3 _ _ H3) as (H4 & Ev4 & Ea4).
  set (s4 := find_audio_output w s3) in *. clearbody s4.
  assert (HI4 : Inv s4).
  { unfold Inv, adec_live, vdec_live in *. rewrite Ev4, Ea4, Ea3. exact H4. }
  destruct (ao s4) as [dev |] eqn:Eo4.
  - set (s5 := set_audioCodecContext _ s4).
    assert (HI5 : Inv s5) by exact HI4.
    assert (Eo5 : ao s5 = Some dev) by exact Eo4.
    clearbody s5.
    match goal with |- context [reopen_audio_output dev ?af s5] =>
      destruct (reopen_audio_output_Hist dev af s5 _ _ Eo5 HI5) as [H6 F6];
      destruct (reopen_audio_output dev af s5) as [s6 | s6]
    end; cbn zeta in F6; destruct F6 as [Ev6 Ea6].
    + intros E; inversion E; subst; clear E.
      destruct H6 as [H6 Eo6].
      unfold Inv, adec_live, vdec_live, output_live in *.
      rewrite Ev6, Ea6, Eo6. exact H6.
    + intros E. apply finish_audio_setup_spec in E
        as (_ & Ev & Ea & Eo & _ & _ & _ & _ & HH).
      unfold Inv, vdec_live, adec_live, output_live in *.
      rewrite Ev, Ea, Eo. apply HH. rewrite Ev6, Ea6. exact H6.
  - intros E. apply finish_audio_setup_spec in E
      as (_ & Ev & Ea & Eo & _ & _ & _ & _ & HH).
    unfold Inv, vdec_live, adec_live, output_live in *.
    rewrite Ev, Ea, Eo. now apply HH.
Qed.

(** Every state of a player satisfies the ownership invariant. *)
Lemma reachable_Inv ff s : reachable ff s -> Inv s.
Proof.
  induction 1 as
    [ vc aos | w s r s' _ IH E | w s r s' _ IH E | a v s _ IH | s _ IH
    | pkt t s _ IH Et | pkt t s _ IH Et ].
  - apply Hist_nil.
  - eapply setupVideoThread_Inv; eauto.
  - eapply setupAudioThread_Inv; eauto.
  - exact IH.
  - now apply Inv_statistics.
  - exact IH.
  - exact IH.
Qed.

(** ** Decoder selection *)

Lemma requested_app d1 d2 : requested (d1 ++ d2) = requested d1 ++ requested d2.
Proof.
  induction d1 as [| e d1 IH]; [reflexivity |].
  destruct e as [[] ? | [] | | | |]; cbn; rewrite ?IH; reflexivity.
Qed.

Lemma emitted_app d1 d2 : emitted (d1 ++ d2) = emitted d1 ++ emitted d2.
Proof.
  induction d1 as [| e d1 IH]; [reflexivity |].
  destruct e; cbn; rewrite ?IH; reflexivity.
Qed.

(** What was created and deleted again leaves no trace among the alive. *)
Lemma live_app_nil d1 d2 : live d2 = [] -> live (d1 ++ d2) = live d1.
Proof.
  intros H. induction d1 as [| e d1 IH]; [exact H |].
  destruct e; cbn; rewrite ?IH; reflexivity.
Qed.

Section FailingCandidates.

Variable w : World.

(** The events of the candidates that fail: each one the factory was asked
    for, in order; each one created was configured, prepared and deleted;
    no error is emitted; [vdec] stays as it was. *)
Lemma try_video_decoders_failing pre s :
  (forall c, In c pre -> succeeds w c = false) ->
  let s' := try_video_decoders w pre s in
  exists d,
    log s' = d ++ log s
    /\ vdec s' = vdec s
    /\ requested d = rev pre
    /\ emitted d = []
    /\ live d = []
    /\ (forall c q, In (New (VideoDecoderObj c) q) d ->
          In (On q setCodecContext) d /\ In (On q setOptions) d
          /\ In (On q (prepare (vd_prepare w c))) d
          /\ (vd_prepare w c = true -> In (On q (open false)) d)
          /\ In (Delete q) d).
Proof.
  revert s. induction pre as [| c pre IH]; intros s Hf; cbn.
  - exists []. repeat split; try reflexivity; try (intros; contradiction);
      try (cbn in *; contradiction).
  - assert (Hc : succeeds w c = false) by (apply Hf; now left).
    assert (Hf' : forall c', In c' pre -> succeeds w c' = false)
      by (intros; apply Hf; now right).
    destruct (succeeds_false w c Hc) as [E1 | [[E1 E2] | (E1 & E2 & E3)]];
      rewrite ?E1, ?E2, ?E3;
      match goal with |- context [try_video_decoders w pre ?s1] =>
        destruct (IH s1 Hf') as (d & El & Ev & Er & Ee & Elive & Hall)
      end; cbn in El, Ev;
      [ exists (d ++ [CreateFailed (VideoDecoderObj c)])
      | exists (d ++ [Delete (next_ptr s); On (next_ptr s) (prepare false);
                      On (next_ptr s) setOptions;
                      On (next_ptr s) setCodecContext;
                      New (VideoDecoderObj c) (next_ptr s)])
      | exists (d ++ [Delete (next_ptr s); On (next_ptr s) (open false);
                      On (next_ptr s) (prepare true);
                      On (next_ptr s) setOptions;
                      On (next_ptr s) setCodecContext;
                      New (VideoDecoderObj c) (next_ptr s)]) ];
      (split; [rewrite El, <- app_assoc; reflexivity |]);
      (split; [exact Ev |]);
      (split; [rewrite requested_app, Er; reflexivity |]);
      (split; [rewrite emitted_app, Ee; apply app_nil_r |]);
      (split; [rewrite live_app_nil;
               [exact Elive | cbn; rewrite ?Nat.eqb_refl; reflexivity] |]).
    + intros c' q Hin. apply in_app_iff in Hin as [Hin | Hin].
      * destruct (Hall c' q Hin) as (A & B & C & D & E).
        repeat split; try (apply in_app_iff; left; assumption).
        intros Hp. apply in_app_iff; left; auto.
      * cbn in Hin. destruct Hin as [Hin | []]. discriminate.
    + intros c' q Hin. apply in_app_iff in Hin as [Hin | Hin].
      * destruct (Hall c' q Hin) as (A & B & C & D & E).
        repeat split; try (apply in_app_iff; left; assumption).
        intros Hp. apply in_app_iff; left; auto.
      * cbn in Hin.
        destruct Hin as [Hin | [Hin | [Hin | [Hin | [Hin | []]]]]];
          try discriminate.
        inversion Hin; subst c' q. rewrite E2.
        repeat split; try (apply in_app_iff; right; cbn; tauto).
        discriminate.
    + intros c' q Hin. apply in_app_iff in Hin as [Hin | Hin].
      * destruct (Hall c' q Hin) as (A & B & C & D & E).
        repeat split; try (apply in_app_iff; left; assumption).
        intros Hp. apply in_app_iff; left; auto.
      * cbn in Hin.
        destruct Hin as [Hin | [Hin | [Hin | [Hin | [Hin | [Hin | []]]]]]];
          try discriminate.
        inversion Hin; subst c' q. rewrite E2.
        repeat split; try (apply in_app_iff; right; cbn; tauto).
        intros _. apply in_app_iff; right; cbn; tauto.
Qed.

(** After candidates that fail the loop goes on with the others. *)
Lemma try_video_decoders_app pre rest s :
  (forall c, In c pre -> succeeds w c = false) ->
  try_video_decoders w (pre ++ rest) s
  = try_video_decoders w rest (try_video_decoders w pre s).
Proof.
  revert s. induction pre as [| c pre IH]; intros s Hf; [reflexivity |].
  assert (Hc : succeeds w c = false) by (apply Hf; now left).
  assert (Hf' : forall c', In c' pre -> succeeds w c' = false)
    by (intros; apply Hf; now right).
  cbn.
  destruct (succeeds_false w c Hc) as [E1 | [[E1 E2] | (E1 & E2 & E3)]];
    rewrite ?E1, ?E2, ?E3; now apply IH.
Qed.

End FailingCandidates.

Section Selection.

Variable w : World.

(** C2: the candidates are tried in order; each one the factory creates is
    given the codec context and the options and is prepared, and opened
    when it prepared; the first that prepares and opens becomes the decoder
    and the loop stops there, so that no later candidate is asked for;
    every candidate created before it has been deleted, and the selected
    decoder is the only object of the loop alive. *)
Theorem video_decoder_selection pre b post s :
  (forall c, In c pre -> succeeds w c = false) ->
  succeeds w b = true ->
  let s' := try_video_decoders w (pre ++ b :: post) s in
  exists p d,
    vdec s' = Some (mkVideoDecoder p b)
    /\ log s'
       = [On p (open true); On p (prepare true); On p setOptions;
          On p setCodecContext; New (VideoDecoderObj b) p] ++ d ++ log s
    /\ requested (New (VideoDecoderObj b) p :: d) = b :: rev pre
    /\ (forall c q, In (New (VideoDecoderObj c) q) d ->
          In (On q setCodecContext) d /\ In (On q setOptions) d
          /\ In (On q (prepare (vd_prepare w c))) d
          /\ (vd_prepare w c = true -> In (On q (open false)) d)
          /\ In (Delete q) d)
    /\ live ([On p (open true); On p (prepare true); On p setOptions;
              On p setCodecContext; New (VideoDecoderObj b) p] ++ d)
       = [(p, VideoDecoderObj b)]
    /\ emitted d = [].
Proof.
  intros Hf Hb. cbn zeta.
  rewrite try_video_decoders_app by assumption.
  destruct (try_video_decoders_failing w pre s Hf)
    as (d & El & Ev & Er & Ee & Elive & Hall).
  cbn zeta in *.
  set (s1 := try_video_decoders w pre s) in *. clearbody s1.
  unfold succeeds in Hb.
  apply andb_true_iff in Hb as [Hb Ho].
  apply andb_true_iff in Hb as [Hc Hp].
  exists (next_ptr s1), d. cbn. rewrite Hc, Hp, Ho. cbn.
  rewrite El, Er, Elive.
  split; [reflexivity |]. split; [reflexivity |]. split; [reflexivity |].
  split; [exact Hall |]. split; [reflexivity | exact Ee].
Qed.

(** C7: when no candidate succeeds, be the list empty or not, the set-up
    returns false, no video decoder is held or alive in the thread, and the
    error [VideoCodecNotFound] has been emitted once, whatever the number
    of candidates. *)
Theorem video_decoder_not_found s avctx :
  videoStream s = Some avctx ->
  (forall c, In c (vc_ids s) -> succeeds w c = false) ->
  exists s',
    setupVideoThread w s = Some (false, s')
    /\ vdec s' = None
    /\ thread_decoder (vthread s') = None
    /\ emitted (log s') = VideoCodecNotFound :: emitted (log s).
Proof.
  intros Hs Hf. unfold setupVideoThread.
  destruct (reset_video_thread_frame s)
    as (Ev0 & _ & _ & Es0 & _ & Ec0 & Ee0 & _ & _ & Et0 & _).
  cbn zeta in *.
  set (s0 := reset_video_thread s) in *. clearbody s0.
  rewrite Es0, Hs.
  destruct (delete_vdec_frame s0) as (F1 & Ee1 & _).
  assert (Ev1 : vdec (delete_vdec s0) = None)
    by (unfold delete_vdec; destruct (vdec s0) eqn:E;
        [reflexivity | exact E]).
  cbn zeta in *.
  set (s1 := delete_vdec s0) in *. clearbody s1.
  destruct F1 as (Ec1 & _ & _ & _ & _ & _ & _ & _ & _ & Et1 & _).
  rewrite Ec1, Ec0.
  destruct (try_video_decoders_failing w (vc_ids s) s1 Hf)
    as (d & El & Ev & _ & Ee & _).
  pose proof (try_video_decoders_frame w (vc_ids s) s1)
    as (_ & _ & _ & _ & _ & _ & _ & _ & _ & Et2 & _).
  cbn zeta in *.
  set (s2 := try_video_decoders w (vc_ids s) s1) in *. clearbody s2.
  rewrite Ev, Ev1.
  eexists; split; [reflexivity |]. cbn.
  rewrite Ev, Ev1, Et2, Et1, Et0, El, emitted_app, Ee, Ee1, Ee0.
  repeat split; reflexivity.
Qed.

End Selection.

(** The candidates [A; B; C] of the design: B is selected at the second
    address, A's instance was deleted, C was never asked for. *)
Example video_decoder_selection_A_B_C :
  let s := Private_init [Examples.decoder_A; Examples.decoder_B;
                         Examples.decoder_C] [] in
  let s' := try_video_decoders Examples.world_ABC (vc_ids s) s in
  vdec s' = Some (mkVideoDecoder 1%nat Examples.decoder_B)
  /\ log s'
     = [On 1%nat (open true); On 1%nat (prepare true); On 1%nat setOptions;
        On 1%nat setCodecContext; New (VideoDecoderObj Examples.decoder_B) 1%nat;
        Delete 0%nat; On 0%nat (open false); On 0%nat (prepare true); On 0%nat setOptions;
        On 0%nat setCodecContext; New (VideoDecoderObj Examples.decoder_A) 0%nat]
  /\ live (log s') = [(1%nat, VideoDecoderObj Examples.decoder_B)].
Proof. repeat split. Qed.

Lemma video_decoder_selection_witness :
  let s := Private_init [Examples.decoder_A; Examples.decoder_B;
                         Examples.decoder_C] [] in
  let s' :=
    try_video_decoders Examples.world_ABC
      ([Examples.decoder_A] ++ Examples.decoder_B :: [Examples.decoder_C]) s in
  exists p d,
    vdec s' = Some (mkVideoDecoder p Examples.decoder_B)
    /\ log s'
       = [On p (open true); On p (prepare true); On p setOptions;
          On p setCodecContext; New (VideoDecoderObj Examples.decoder_B) p]
         ++ d ++ log s
    /\ requested (New (VideoDecoderObj Examples.decoder_B) p :: d)
       = Examples.decoder_B :: rev [Examples.decoder_A]
    /\ (forall c q, In (New (VideoDecoderObj c) q) d ->
          In (On q setCodecContext) d /\ In (On q setOptions) d
          /\ In (On q (prepare (vd_prepare Examples.world_ABC c))) d
          /\ (vd_prepare Examples.world_ABC c = true ->
              In (On q (open false)) d)
          /\ In (Delete q) d)
    /\ live ([On p (open true); On p (prepare true); On p setOptions;
              On p setCodecContext;
              New (VideoDecoderObj Examples.decoder_B) p] ++ d)
       = [(p, VideoDecoderObj Examples.decoder_B)]
    /\ emitted d = [].
Proof.
  apply (video_decoder_selection Examples.world_ABC [Examples.decoder_A]
           Examples.decoder_B [Examples.decoder_C]).
  - intros c [<- | []]. reflexivity.
  - reflexivity.
Defined.

Lemma video_decoder_not_found_witness :
  let s :=
    set_videoStream (Some Examples.a_video_stream)
      (Private_init [Examples.decoder_A; Examples.decoder_B] []) in
  exists s',
    setupVideoThread Examples.world_none s = Some (false, s')
    /\ vdec s' = None
    /\ thread_decoder (vthread s') = None
    /\ emitted (log s') = VideoCodecNotFound :: emitted (log s).
Proof.
  apply (video_decoder_not_found Examples.world_none _ Examples.a_video_stream).
  - reflexivity.
  - intros c _. reflexivity.
Defined.

(** With an empty candidate list the answer is the same, whatever the
    collaborators would do. *)
Example video_decoder_not_found_empty :
  let s :=
    set_videoStream (Some Examples.a_video_stream) (Private_init [] []) in
  forall w, exists s',
    setupVideoThread w s = Some (false, s')
    /\ emitted (log s') = [VideoCodecNotFound].
Proof. intros s w. eexists. split; reflexivity. Qed.

(** ** The audio set-up *)

Lemma AudioFormat_eqb_refl af : AudioFormat_eqb af af = true.
Proof.
  unfold AudioFormat_eqb. rewrite Z.eqb_refl, N.eqb_refl.
  destruct (sampleFormat af); reflexivity.
Qed.

Lemma audio_prologue ff w s c :
  audioCodecContext s = Some c ->
  let s0 := reset_audio_thread ff s in
  let p := fst (new_adec w (delete_adec s0)) in
  let s2 := snd (new_adec w (delete_adec s0)) in
  p = next_ptr s /\ next_ptr s2 = S (next_ptr s)
  /\ (exists c',
        audioCodecContext s0 = Some c' /\ audioCodecContext s2 = Some c'
        /\ snd (correct_audio_channels ff c')
           = snd (correct_audio_channels ff c)
        /\ (athread s <> None -> c' = snd (correct_audio_channels ff c)))
  /\ ao s2 = ao s /\ adec s2 = Some (mkAudioDecoder p false)
  /\ vdec s2 = vdec s /\ clock s2 = clock s
  /\ ao_enabled s2 = ao_enabled s /\ ao_ids s2 = ao_ids s
  /\ emitted (log s2) = emitted (log s)
  /\ thread_decoder (athread s2) = None
  /\ (athread s2 = None <-> athread s = None)
  /\ (forall q, q <> next_ptr s ->
        filter (is_device_call q) (log s2) = filter (is_device_call q) (log s)).
Proof.
  intros Hc. cbn zeta.
  unfold reset_audio_thread.
  destruct (athread s) as [t |] eqn:Et.
  - match goal with |- context [initAudioStatistics ff ?x] =>
      destruct (initAudioStatistics_frame ff x)
        as (El & En & Ev & Ea & Eo & Evt & Eat & Evs & Evc & Eai & Eae & Ec
            & Eac);
      set (s0 := initAudioStatistics ff x) in *
    end.
    cbn in El, En, Ev, Ea, Eo, Eat, Eai, Eae, Ec, Eac. rewrite Hc in Eac.
    cbn in Eac. clearbody s0.
    unfold delete_adec, new_adec. rewrite Ea.
    destruct (adec s) as [d |]; cbn; rewrite ?En, ?Eo, ?Ev, ?Ec, ?Eae, ?Eai,
      ?El, ?Eat, ?Eac; cbn.
    + repeat split; try reflexivity; try discriminate.
      * eexists; repeat split; try reflexivity.
        now rewrite correct_audio_channels_idempotent.
      * intros q Hq. apply Nat.eqb_neq in Hq. rewrite Nat.eqb_sym, Hq.
        reflexivity.
    + repeat split; try reflexivity; try discriminate.
      * eexists; repeat split; try reflexivity.
        now rewrite correct_audio_channels_idempotent.
      * intros q Hq. apply Nat.eqb_neq in Hq. rewrite Nat.eqb_sym, Hq.
        reflexivity.
  - unfold delete_adec, new_adec.
    destruct (adec s) as [d |]; cbn; rewrite ?Hc, ?Et; cbn.
    + repeat split; try reflexivity; try tauto.
      * eexists; repeat split; try reflexivity. intros []; reflexivity.
      * intros q Hq. apply Nat.eqb_neq in Hq. rewrite Nat.eqb_sym, Hq.
        reflexivity.
    + repeat split; try reflexivity; try tauto.
      * eexists; repeat split; try reflexivity. intros []; reflexivity.
      * intros q Hq. apply Nat.eqb_neq in Hq. rewrite Nat.eqb_sym, Hq.
        reflexivity.
Qed.

(** C6, amended: when the device has to be opened again and does not
    open, it is deleted and [ao] is null; the set-up returns false at once:
    no error is emitted, the clock is not changed, no thread is created and
    the thread, if there is one, is left without decoder; the audio decoder
    just opened stays. *)
Theorem device_open_failure ff w s avctx dev :
  reachable ff s ->
  audioCodecContext s = Some avctx ->
  ad_open w = true ->
  ao s = Some dev ->
  let af := negotiated_format (ao_impl dev)
              (snd (correct_audio_channels ff avctx)) in
  AudioFormat_eqb (audioFormat dev) af = false ->
  open_ok (ao_impl dev) af = false ->
  exists s',
    setupAudioThread ff w s = Some (false, s')
    /\ ao s' = None
    /\ live_of is_audio_output (log s') = []
    /\ (exists l, log s' = Delete (ao_ptr dev) :: On (ao_ptr dev) (open false)
                  :: On (ao_ptr dev) (setAudioFormat af)
                  :: On (ao_ptr dev) close :: l)
    /\ emitted (log s') = emitted (log s)
    /\ clock s' = clock s
    /\ thread_decoder (athread s') = None
    /\ (athread s' = None <-> athread s = None)
    /\ adec s' = Some (mkAudioDecoder (next_ptr s) true).
Proof.
  intros Hr Hc Hd Ho af Hne Hop.
  assert (HI : forall r s', setupAudioThread ff w s = Some (r, s') -> Inv s')
    by (intros; eapply setupAudioThread_Inv; eauto using reachable_Inv).
  revert HI.
  unfold setupAudioThread.
  destruct (audio_prologue ff w s avctx Hc)
    as (Ep & En & (c' & Ec0 & Ec2 & Ecc & _) & Eo2 & Ea2 & Ev2 & Ecl2 & Eae & Eai
        & Ee2 & Et2 & Etn & _).
  cbn zeta in *. rewrite Ec0.
  destruct (new_adec w (delete_adec (reset_audio_thread ff s))) as [p s2].
  cbn [fst snd] in *. subst p. rewrite Hd. cbn [negb].
  unfold find_audio_output. cbn. rewrite Eo2, Ho. cbn. rewrite Eo2, Ho.
  rewrite Ecc. fold af.
  unfold reopen_audio_output. rewrite Hne, Hop. cbn.
  intros HI. specialize (HI _ _ eq_refl).
  eexists; split; [reflexivity |]. cbn.
  apply Hist_sound in HI as (_ & _ & _ & _ & Hout & _). cbn in Hout.
  repeat split; try assumption; try tauto; try (rewrite ?Ee2, ?Ecl2; reflexivity).
  - eexists; reflexivity.
Qed.

(** After a set-up that succeeded with a device, the codec context has its
    channels corrected and the device is configured with the negotiated
    format. *)
Lemma setupAudioThread_negotiated ff w s s1 dev :
  setupAudioThread ff w s = Some (true, s1) ->
  ao s1 = Some dev ->
  athread s1 <> None
  /\ exists c,
      audioCodecContext s1 = Some (snd (correct_audio_channels ff c))
      /\ AudioFormat_eqb (audioFormat dev)
           (negotiated_format (ao_impl dev)
              (snd (correct_audio_channels ff c))) = true.
Proof.
  unfold setupAudioThread.
  destruct (audioCodecContext (reset_audio_thread ff s)) as [c |] eqn:Ec;
    [| discriminate].
  destruct (new_adec w (delete_adec (reset_audio_thread ff s))) as [p s2].
  destruct (ad_open w); cbn [negb]; [| discriminate].
  set (s3 := find_audio_output w _). clearbody s3.
  destruct (ao s3) as [dev3 |] eqn:Eo3.
  - unfold reopen_audio_output.
    destruct (AudioFormat_eqb (audioFormat dev3) _) eqn:Eq; cbn [negb].
    + intros E. pose proof E as E'.
      apply finish_audio_setup_spec in E as (_ & _ & _ & Eo & _).
      cbn in Eo. rewrite Eo, Eo3. intros Hd; inversion Hd; subst dev3.
      split.
      * revert E'. unfold finish_audio_setup.
        destruct (athread _); cbn; destruct (queue_sizing _) as [[? ?] |];
          try discriminate; intros E'; inversion E'; subst; cbn; discriminate.
      * exists c. split; [| exact Eq].
        revert E'. unfold finish_audio_setup.
        destruct (athread _); cbn; destruct (queue_sizing _) as [[? ?] |];
          try discriminate; intros E'; inversion E'; subst; reflexivity.
    + destruct (open_ok (ao_impl dev3) _); cbn [negb]; [| discriminate].
      intros E. pose proof E as E'.
      apply finish_audio_setup_spec in E as (_ & _ & _ & Eo & _).
      cbn in Eo. rewrite Eo. intros Hd; inversion Hd; subst dev. cbn.
      split.
      * revert E'. unfold finish_audio_setup.
        destruct (athread _); cbn; destruct (queue_sizing _) as [[? ?] |];
          try discriminate; intros E'; inversion E'; subst; cbn; discriminate.
      * exists c. split; [| apply AudioFormat_eqb_refl].
        revert E'. unfold finish_audio_setup.
        destruct (athread _); cbn; destruct (queue_sizing _) as [[? ?] |];
          try discriminate; intros E'; inversion E'; subst; reflexivity.
  - intros E. apply finish_audio_setup_spec in E as (_ & _ & _ & Eo & _).
    rewrite Eo, Eo3. discriminate.
Qed.

(** C8: after a set-up that succeeded with a device, a second set-up with
    nothing changed in between makes no [close], [setAudioFormat] or [open]
    call on the device, which stays as it is: the negotiated format equals,
    by value, the format the device is configured with. *)
Theorem negotiation_idempotent ff w1 w2 s s1 r2 s2 dev :
  reachable ff s ->
  setupAudioThread ff w1 s = Some (true, s1) ->
  ao s1 = Some dev ->
  setupAudioThread ff w2 s1 = Some (r2, s2) ->
  filter (is_device_call (ao_ptr dev)) (log s2)
  = filter (is_device_call (ao_ptr dev)) (log s1)
  /\ ao s2 = Some dev.
Proof.
  intros Hr E1 Ho E2.
  assert (HI1 : Inv s1) by (eapply setupAudioThread_Inv; eauto using reachable_Inv).
  destruct (setupAudioThread_negotiated ff w1 s s1 dev E1 Ho)
    as (Hth & c & Hc & Hneg).
  assert (Hfresh : ao_ptr dev <> next_ptr s1).
  { apply Hist_sound in HI1 as (Hb & _ & _ & _ & Hout & _).
    unfold output_live in Hout. rewrite Ho in Hout.
    assert (Hin : In (ao_ptr dev, AudioOutputObj (ao_id dev))
                    (live_of is_audio_output (log s1)))
      by (rewrite Hout; now left).
    apply In_live_of in Hin as [Hin _]. apply Hb in Hin. lia. }
  revert E2. unfold setupAudioThread.
  destruct (audio_prologue ff w2 s1 _ Hc)
    as (Ep & En & (c' & Ec0 & Ec2 & Ecc & Ecth) & Eo2 & Ea2 & Ev2 & Ecl2 & Eae
        & Eai & Ee2 & Et2 & Etn & Hdev).
  cbn zeta in *. rewrite Ec0.
  specialize (Hdev _ Hfresh).
  destruct (new_adec w2 (delete_adec (reset_audio_thread ff s1))) as [p s2'].
  cbn [fst snd] in *.
  destruct (ad_open w2); cbn [negb].
  2:{ intros E; inversion E; subst; clear E. cbn. split; [exact Hdev |].
      now rewrite Eo2. }
  unfold find_audio_output. cbn. rewrite Eo2, Ho. cbn. rewrite Eo2, Ho.
  rewrite Ecc, correct_audio_channels_idempotent.
  unfold reopen_audio_output. rewrite Hneg. cbn [negb].
  intros E. apply finish_audio_setup_spec in E
    as (_ & _ & _ & Eo & _ & _ & _ & Hd & _).
  rewrite Hd, Eo. cbn. rewrite Eo2. split; [exact Hdev | exact Ho].
Qed.

Lemma setupVideoThread_false w s s' :
  setupVideoThread w s = Some (false, s') ->
  thread_decoder (vthread s') = None
  /\ (videoStream s = None ->
      vdec s' = vdec s /\ live (log s') = live (log s))
  /\ (videoStream s <> None -> vdec s' = None).
Proof.
  unfold setupVideoThread.
  destruct (reset_video_thread_frame s)
    as (Ev0 & _ & _ & Es0 & _ & Ec0 & Ee0 & _ & _ & Et0 & El0).
  cbn zeta in *.
  set (s0 := reset_video_thread s) in *. clearbody s0.
  rewrite Es0. destruct (videoStream s) as [vs |].
  - destruct (delete_vdec_frame s0) as (F1 & _).
    cbn zeta in *. set (s1 := delete_vdec s0) in *. clearbody s1.
    pose proof (try_video_decoders_frame w (vc_ids s1) s1) as F2.
    set (s2 := try_video_decoders w (vc_ids s1) s1) in *. clearbody s2.
    destruct (vdec s2) as [d |] eqn:Ed.
    + intros E. apply install_video_decoder_spec in E as (E & _). discriminate.
    + intros E; inversion E; subst; clear E. cbn.
      destruct F1 as (_ & _ & _ & _ & _ & _ & _ & _ & _ & Et1 & _).
      destruct F2 as (_ & _ & _ & _ & _ & _ & _ & _ & _ & Et2 & _).
      rewrite Et2, Et1. repeat split; try assumption; try discriminate;
        intros; assumption.
  - intros E; inversion E; subst; clear E.
    repeat split; try assumption. intros H; now elim H.
Qed.

Lemma setupAudioThread_false ff w s s' :
  setupAudioThread ff w s = Some (false, s') ->
  thread_decoder (athread s') = None
  /\ (audioCodecContext s = None ->
      adec s' = adec s /\ live (log s') = live (log s))
  /\ (audioCodecContext s <> None ->
      exists opened, adec s' = Some (mkAudioDecoder (next_ptr s) opened)).
Proof.
  destruct (audioCodecContext s) as [c |] eqn:Hc.
  - unfold setupAudioThread.
    destruct (audio_prologue ff w s c Hc)
      as (Ep & En & (c' & Ec0 & Ec2 & Ecc & _) & Eo2 & Ea2 & Ev2 & Ecl2 & Eae
          & Eai & Ee2 & Et2 & Etn & _).
    cbn zeta in *. rewrite Ec0.
    destruct (new_adec w (delete_adec (reset_audio_thread ff s))) as [p s2].
    cbn [fst snd] in *. subst p.
    destruct (ad_open w); cbn [negb].
    2:{ intros E; inversion E; subst; clear E. cbn.
        repeat split; try assumption; try discriminate. eauto. }
    set (s3 := set_audio_decoder_name _ _).
    assert (Et3 : thread_decoder (athread s3) = None) by exact Et2.
    assert (Ea3 : adec s3 = Some (mkAudioDecoder (next_ptr s) true))
      by reflexivity.
    clearbody s3.
    assert (F4 : athread (find_audio_output w s3) = athread s3
                 /\ adec (find_audio_output w s3) = adec s3).
    { unfold find_audio_output. destruct (ao s3); [auto |].
      destruct (ao_enabled s3); [| auto].
      generalize (ao_ids s3). intros ids. clear.
      revert s3. induction ids as [| aoid ids IH]; intros s3; cbn; [auto |].
      destruct (ao_create w aoid); cbn; [auto |].
      match goal with |- context [try_audio_outputs w ids ?x] =>
        destruct (IH x) as [-> ->] end. auto. }
    destruct F4 as [Et4 Ea4].
    set (s4 := find_audio_output w s3) in *. clearbody s4.
    destruct (ao s4) as [dev |].
    + unfold reopen_audio_output.
      destruct (AudioFormat_eqb _ _); cbn [negb].
      * intros E. apply finish_audio_setup_spec in E as (E & _). discriminate.
      * destruct (open_ok _ _); cbn [negb].
        -- intros E. apply finish_audio_setup_spec in E as (E & _).
           discriminate.
        -- intros E; inversion E; subst; clear E. cbn.
           rewrite Et4, Ea4, Et3, Ea3.
           repeat split; try discriminate. eauto.
    + intros E. apply finish_audio_setup_spec in E as (E & _). discriminate.
  - unfold setupAudioThread.
    destruct (reset_audio_thread_frame ff s)
      as (_ & Ea & _ & _ & _ & _ & _ & _ & _ & Et & _ & _ & El & Ec & _).
    cbn zeta in *. apply proj2 in Ec. rewrite (Ec Hc).
    intros E; inversion E; subst; clear E.
    repeat split; try assumption. intros H; now elim H.
Qed.

(** ** Decoder ownership *)

(** C3, amended: at any time at most one video decoder and one audio
    decoder are alive, and the ones alive are the ones held; a set-up that
    returns false leaves the thread of its kind without decoder; with the
    stream present the previous decoder has been deleted by then (no video
    decoder remains; of the audio decoders only the new one, at the next
    address); with the stream absent the previous decoder is kept: it is
    still held and alive. *)
Theorem decoder_ownership ff s :
  reachable ff s ->
  (forall h, earlier h (log s) ->
     (length (live_of is_video_decoder h) <= 1)%nat
     /\ (length (live_of is_audio_decoder h) <= 1)%nat)
  /\ live_of is_video_decoder (log s) = vdec_live s
  /\ live_of is_audio_decoder (log s) = adec_live s
  /\ (forall w s', setupVideoThread w s = Some (false, s') ->
        thread_decoder (vthread s') = None
        /\ (videoStream s <> None ->
            vdec s' = None /\ live_of is_video_decoder (log s') = [])
        /\ (videoStream s = None ->
            vdec s' = vdec s
            /\ live_of is_video_decoder (log s') = vdec_live s))
  /\ (forall w s', setupAudioThread ff w s = Some (false, s') ->
        thread_decoder (athread s') = None
        /\ (audioCodecContext s <> None ->
            (exists opened,
               adec s' = Some (mkAudioDecoder (next_ptr s) opened))
            /\ live_of is_audio_decoder (log s')
               = [(next_ptr s, AudioDecoderObj)])
        /\ (audioCodecContext s = None ->
            adec s' = adec s
            /\ live_of is_audio_decoder (log s') = adec_live s)).
Proof.
  intros Hr. pose proof (reachable_Inv ff s Hr) as HI.
  split; [| split; [| split; [| split]]].
  - intros h Hh.
    destruct (Hist_earlier _ _ _ _ _ h HI Hh) as (n' & v' & a' & o' & H').
    apply Hist_sound in H' as (_ & _ & Hv & Ha & _ & Hlv & Hla & _).
    rewrite Hv, Ha. split; assumption.
  - apply Hist_sound in HI. tauto.
  - apply Hist_sound in HI. tauto.
  - intros w s' E.
    pose proof (setupVideoThread_Inv w s false s' HI E) as HI'.
    apply Hist_sound in HI' as (_ & _ & Hv & _).
    destruct (setupVideoThread_false w s s' E) as (Ht & Habs & Hpres).
    split; [exact Ht |]. split.
    + intros Hs. specialize (Hpres Hs). split; [exact Hpres |].
      rewrite Hv. unfold vdec_live. now rewrite Hpres.
    + intros Hs. destruct (Habs Hs) as [Ev _]. split; [exact Ev |].
      rewrite Hv. unfold vdec_live. now rewrite Ev.
  - intros w s' E.
    pose proof (setupAudioThread_Inv ff w s false s' HI E) as HI'.
    apply Hist_sound in HI' as (_ & _ & _ & Ha & _).
    destruct (setupAudioThread_false ff w s s' E) as (Ht & Habs & Hpres).
    split; [exact Ht |]. split.
    + intros Hs. destruct (Hpres Hs) as [opened Ea].
      split; [eauto |]. rewrite Ha. unfold adec_live. now rewrite Ea.
    + intros Hs. destruct (Habs Hs) as [Ea _]. split; [exact Ea |].
      rewrite Ha. unfold adec_live. now rewrite Ea.
Qed.

(** C3, as stated: after a set-up that found decoder B, a set-up without
    video stream returns false and the previous decoder is still held and
    alive, not torn down. *)
Lemma absent_stream_keeps_decoder :
  setupVideoThread Examples.world_ABC Examples.video_s0
  = Some (true, Examples.video_s1)
  /\ exists s',
      setupVideoThread Examples.world_ABC Examples.video_s1_absent
      = Some (false, s')
      /\ vdec s' = Some (mkVideoDecoder 1%nat Examples.decoder_B)
      /\ live_of is_video_decoder (log s')
         = [(1%nat, VideoDecoderObj Examples.decoder_B)].
Proof.
  split; [vm_compute; reflexivity |].
  eexists. split; [vm_compute; reflexivity |].
  split; vm_compute; reflexivity.
Qed.

Lemma video_s1_absent_reachable :
  reachable Examples.ffmpeg Examples.video_s1_absent.
Proof.
  apply reach_streams.
  apply (reach_video _ Examples.world_ABC Examples.video_s0 true).
  - apply (reach_streams Examples.ffmpeg None (Some Examples.a_video_stream)).
    apply reach_init.
  - vm_compute; reflexivity.
Qed.

Lemma decoder_ownership_witness :
  let s := Examples.video_s1_absent in
  (forall h, earlier h (log s) ->
     (length (live_of is_video_decoder h) <= 1)%nat
     /\ (length (live_of is_audio_decoder h) <= 1)%nat)
  /\ live_of is_video_decoder (log s) = vdec_live s
  /\ live_of is_audio_decoder (log s) = adec_live s
  /\ (forall w s', setupVideoThread w s = Some (false, s') ->
        thread_decoder (vthread s') = None
        /\ (videoStream s <> None ->
            vdec s' = None /\ live_of is_video_decoder (log s') = [])
        /\ (videoStream s = None ->
            vdec s' = vdec s
            /\ live_of is_video_decoder (log s') = vdec_live s))
  /\ (forall w s',
        setupAudioThread Examples.ffmpeg w s = Some (false, s') ->
        thread_decoder (athread s') = None
        /\ (audioCodecContext s <> None ->
            (exists opened,
               adec s' = Some (mkAudioDecoder (next_ptr s) opened))
            /\ live_of is_audio_decoder (log s')
               = [(next_ptr s, AudioDecoderObj)])
        /\ (audioCodecContext s = None ->
            adec s' = adec s
            /\ live_of is_audio_decoder (log s') = adec_live s)).
Proof.
  apply (decoder_ownership Examples.ffmpeg Examples.video_s1_absent).
  exact video_s1_absent_reachable.
Defined.

(** ** The audio device: examples *)

Lemma audio_s1_reachable : reachable Examples.ffmpeg Examples.audio_s1.
Proof.
  apply (reach_audio _ Examples.world_picky Examples.audio_s0 true).
  - apply (reach_streams Examples.ffmpeg (Some Examples.stereo_ctx) None).
    apply reach_init.
  - vm_compute; reflexivity.
Qed.

(** C6, as stated: the device opened at 44100 Hz does not open at 48000 Hz;
    the set-up returns false, nothing is emitted on the player, and the
    thread is left without decoder and is not resized. *)
Lemma device_open_failure_returns_false :
  exists s',
    setupAudioThread Examples.ffmpeg Examples.world_picky
      Examples.audio_s1_48k = Some (false, s')
    /\ emitted (log s') = []
    /\ thread_decoder (athread s') = None
    /\ clock s' = AudioClock.
Proof.
  eexists. split; [vm_compute; reflexivity |].
  repeat split; vm_compute; reflexivity.
Qed.

Lemma device_open_failure_witness :
  let s := Examples.audio_s1_48k in
  let dev := Examples.picky_at_44100 in
  let af :=
    negotiated_format (ao_impl dev)
      (snd (correct_audio_channels Examples.ffmpeg Examples.stereo_48k_ctx)) in
  exists s',
    setupAudioThread Examples.ffmpeg Examples.world_picky s = Some (false, s')
    /\ ao s' = None
    /\ live_of is_audio_output (log s') = []
    /\ (exists l,
          log s' = Delete (ao_ptr dev) :: On (ao_ptr dev) (open false)
                   :: On (ao_ptr dev) (setAudioFormat af)
                   :: On (ao_ptr dev) close :: l)
    /\ emitted (log s') = emitted (log s)
    /\ clock s' = clock s
    /\ thread_decoder (athread s') = None
    /\ (athread s' = None <-> athread s = None)
    /\ adec s' = Some (mkAudioDecoder (next_ptr s) true).
Proof.
  apply (device_open_failure Examples.ffmpeg Examples.world_picky
           Examples.audio_s1_48k Examples.stereo_48k_ctx
           Examples.picky_at_44100).
  - apply reach_streams. exact audio_s1_reachable.
  - reflexivity.
  - reflexivity.
  - vm_compute; reflexivity.
  - vm_compute; reflexivity.
  - vm_compute; reflexivity.
Defined.

Lemma negotiation_idempotent_witness :
  filter (is_device_call (ao_ptr Examples.picky_at_44100))
    (log Examples.audio_s2)
  = filter (is_device_call (ao_ptr Examples.picky_at_44100))
      (log Examples.audio_s1)
  /\ ao Examples.audio_s2 = Some Examples.picky_at_44100.
Proof.
  apply (negotiation_idempotent Examples.ffmpeg Examples.world_picky
           Examples.world_picky Examples.audio_s0 Examples.audio_s1 true
           Examples.audio_s2 Examples.picky_at_44100).
  - apply (reach_streams Examples.ffmpeg (Some Examples.stereo_ctx) None).
    apply reach_init.
  - vm_compute; reflexivity.
  - vm_compute; reflexivity.
  - vm_compute; reflexivity.
Defined.

(** ** The queue sizes that the set-up functions install *)

(** X7: a video set-up that succeeds leaves the thread's queue with the sizes
    computed from the frame rate in the statistics, the capacity above the
    threshold. *)
Lemma setupVideoThread_queue_sizes w s s' :
  setupVideoThread w s = Some (true, s') ->
  exists t,
    vthread s' = Some t
    /\ queue_sizing (video_only_frame_rate (statistics s'))
       = Some (th_threshold t, th_capacity t)
    /\ 0 < th_threshold t < th_capacity t.
Proof.
  unfold setupVideoThread.
  set (s0 := reset_video_thread s). clearbody s0.
  destruct (videoStream s0); [| discriminate].
  set (s2 := try_video_decoders w _ _). clearbody s2.
  destruct (vdec s2) as [d |]; [| discriminate].
  unfold install_video_decoder.
  destruct (vthread _) as [t |]; cbn;
    destruct (queue_sizing (video_only_frame_rate (statistics s2)))
      as [[qmin qmax] |] eqn:Hq; try discriminate;
    intros E; inversion E; subst; clear E; cbn;
    eexists; (split; [reflexivity |]); cbn; (split; [exact Hq |]);
    apply queue_sizing_bounds in Hq; lia.
Qed.

(** X8: an audio set-up that succeeds leaves the audio thread's queue with
    the sizes computed from the video frame rate in the statistics, the
    capacity above the threshold. *)
Lemma setupAudioThread_queue_sizes ff w s s' :
  setupAudioThread ff w s = Some (true, s') ->
  exists t,
    athread s' = Some t
    /\ queue_sizing (video_only_frame_rate (statistics s'))
       = Some (th_threshold t, th_capacity t)
    /\ 0 < th_threshold t < th_capacity t.
Proof.
  assert (Hfin : forall p s1,
             finish_audio_setup w p s1 = Some (true, s') ->
             exists t,
               athread s' = Some t
               /\ queue_sizing (video_only_frame_rate (statistics s'))
                  = Some (th_threshold t, th_capacity t)
               /\ 0 < th_threshold t < th_capacity t).
  { intros p s1. unfold finish_audio_setup.
    destruct (athread _) as [t |]; cbn;
      destruct (queue_sizing (video_only_frame_rate (statistics s1)))
        as [[qmin qmax] |] eqn:Hq; try discriminate;
      intros E; inversion E; subst; clear E; cbn;
      eexists; (split; [reflexivity |]); cbn; (split; [exact Hq |]);
      apply queue_sizing_bounds in Hq; lia. }
  unfold setupAudioThread.
  set (s0 := reset_audio_thread ff s). clearbody s0.
  destruct (audioCodecContext s0); [| discriminate].
  destruct (new_adec w (delete_adec s0)) as [p s2].
  destruct (ad_open w); cbn [negb]; [| discriminate].
  set (s4 := find_audio_output w _). clearbody s4.
  destruct (ao s4) as [dev |]; [| apply Hfin].
  destruct (reopen_audio_output dev _ _); [discriminate | apply Hfin].
Qed.

(** ** Further properties of the set-up functions *)

(** X6: at the level of the set-up: with a video stream, the first candidate
    that succeeds is the decoder the set-up installs in the thread. *)
Lemma setupVideoThread_selects w pre b post s vs r s' :
  videoStream s = Some vs ->
  vc_ids s = pre ++ b :: post ->
  (forall c, In c pre -> succeeds w c = false) ->
  succeeds w b = true ->
  setupVideoThread w s = Some (r, s') ->
  r = true
  /\ exists p,
      vdec s' = Some (mkVideoDecoder p b)
      /\ thread_decoder (vthread s') = Some p.
Proof.
  intros Hs Hids Hf Hb. unfold setupVideoThread.
  destruct (reset_video_thread_frame s)
    as (_ & _ & _ & Es0 & _ & Ec0 & _).
  cbn zeta in *.
  set (s0 := reset_video_thread s) in *. clearbody s0.
  rewrite Es0, Hs.
  destruct (delete_vdec_frame s0) as (F1 & _).
  cbn zeta in *. set (s1 := delete_vdec s0) in *. clearbody s1.
  destruct F1 as (Ec1 & _).
  rewrite Ec1, Ec0, Hids.
  rewrite try_video_decoders_app by assumption.
  set (s2 := try_video_decoders w pre s1). clearbody s2.
  unfold succeeds in Hb.
  apply andb_true_iff in Hb as [Hb Ho].
  apply andb_true_iff in Hb as [Hc Hp].
  cbn. rewrite Hc, Hp, Ho. cbn.
  intros E. apply install_video_decoder_spec in E
    as (-> & Ev & _ & _ & _ & _ & Et & _).
  split; [reflexivity |]. cbn in Ev, Et. eauto.
Qed.

(** X13: the audio decoder: when it does not open, the set-up returns false and
    the error [AudioCodecNotFound] has been emitted once. *)
Lemma audio_decoder_not_found ff w s :
  audioCodecContext s <> None ->
  ad_open w = false ->
  exists s',
    setupAudioThread ff w s = Some (false, s')
    /\ adec s' = Some (mkAudioDecoder (next_ptr s) false)
    /\ thread_decoder (athread s') = None
    /\ emitted (log s') = AudioCodecNotFound :: emitted (log s).
Proof.
  intros Hc Hd. destruct (audioCodecContext s) as [c |] eqn:Ec;
    [clear Hc | contradiction].
  unfold setupAudioThread.
  destruct (audio_prologue ff w s c Ec)
    as (Ep & En & (c' & Ec0 & _) & Eo2 & Ea2 & Ev2 & Ecl2 & Eae & Eai
        & Ee2 & Et2 & _).
  cbn zeta in *. rewrite Ec0.
  destruct (new_adec w (delete_adec (reset_audio_thread ff s))) as [p s2].
  cbn [fst snd] in *. subst p. rewrite Hd. cbn [negb].
  eexists. split; [reflexivity |]. cbn. rewrite Ee2. auto.
Qed.

(* ------------------------------------------------------------------ *)

(** * Further properties *)

(** ** The threads *)

Lemma new_thread_fields p fs :
  th_ptr (new_thread p fs) = p /\ th_decoder (new_thread p fs) = None
  /\ th_output (new_thread p fs) = None /\ th_packets (new_thread p fs) = []
  /\ th_filters (new_thread p fs) = fs.
Proof.
  unfold new_thread.
  assert (H : forall t,
             let t' := fold_left (fun t f => thread_installFilter f t) fs t in
             th_ptr t' = th_ptr t /\ th_decoder t' = th_decoder t
             /\ th_output t' = th_output t /\ th_packets t' = th_packets t
             /\ th_filters t' = th_filters t ++ fs).
  { induction fs as [| f fs IH]; intros t; cbn.
    - rewrite app_nil_r. tauto.
    - destruct (IH (thread_installFilter f t)) as (A & B & C & D & E).
      cbn in *. rewrite A, B, C, D, E, <- app_assoc. tauto. }
  apply (H (mkAVThread p None None [] 0 0 [])).
Qed.

Lemma try_video_decoders_created w k ids s :
  (forall vid, k (VideoDecoderObj vid) = false) ->
  created k (log (try_video_decoders w ids s)) = created k (log s).
Proof.
  intros Hk. revert s. induction ids as [| vid rest IH]; intros s; cbn;
    [reflexivity |].
  destruct (vd_create w vid); [destruct (vd_prepare w vid);
                                 [destruct (vd_open w vid) |] |];
    rewrite ?IH; cbn; rewrite ?Hk; reflexivity.
Qed.

Lemma setupVideoThread_ThreadInv w s r s' :
  ThreadInv s -> setupVideoThread w s = Some (r, s') -> ThreadInv s'.
Proof.
  unfold ThreadInv, setupVideoThread, athread_live, vthread_live.
  intros (Ha & Hv & Hra & Hrv & Hda & Hdv).
  set (s0 := reset_video_thread s).
  assert (F0 : created is_audio_thread (log s0) = created is_audio_thread (log s)
               /\ created is_video_thread (log s0) = created is_video_thread (log s)
               /\ athread s0 = athread s /\ adec s0 = adec s
               /\ read_thread_audio s0 = read_thread_audio s
               /\ read_thread_video s0 = read_thread_video s
               /\ option_map th_ptr (vthread s0) = option_map th_ptr (vthread s)
               /\ thread_decoder (vthread s0) = None).
  { subst s0. unfold reset_video_thread, initVideoStatistics.
    destruct (vthread s) as [t |] eqn:Et; cbn.
    - destruct (videoStream s); cbn; repeat split; reflexivity.
    - rewrite Et. repeat split; try reflexivity.
  }
  destruct F0 as (Ea0 & Ev0 & Eat0 & Ead0 & Era0 & Erv0 & Evt0 & Ed0).
  clearbody s0.
  destruct (videoStream s0) as [vs |].
  2:{ intros E; inversion E; subst; clear E.
      rewrite Ea0, Ev0, Eat0, Ead0, Era0, Erv0, Ed0.
      destruct (vthread s') as [t' |], (vthread s) as [t |]; cbn in *;
        try discriminate; inversion Evt0; subst;
        repeat split; try assumption; try discriminate.
      rewrite H0. assumption. congruence. }
  set (s1 := delete_vdec s0).
  assert (F1 : created is_audio_thread (log s1) = created is_audio_thread (log s0)
               /\ created is_video_thread (log s1) = created is_video_thread (log s0)
               /\ athread s1 = athread s0 /\ adec s1 = adec s0
               /\ read_thread_audio s1 = read_thread_audio s0
               /\ read_thread_video s1 = read_thread_video s0
               /\ vthread s1 = vthread s0).
  { subst s1. unfold delete_vdec. destruct (vdec s0); cbn; repeat split; reflexivity. }
  destruct F1 as (Ea1 & Ev1 & Eat1 & Ead1 & Era1 & Erv1 & Evt1).
  clearbody s1.
  pose proof (try_video_decoders_frame w (vc_ids s1) s1) as F2.
  pose proof (try_video_decoders_created w is_audio_thread (vc_ids s1) s1
                ltac:(reflexivity)) as Ea2.
  pose proof (try_video_decoders_created w is_video_thread (vc_ids s1) s1
                ltac:(reflexivity)) as Ev2.
  set (s2 := try_video_decoders w (vc_ids s1) s1) in *. clearbody s2.
  destruct F2 as (_ & _ & _ & _ & _ & _ & _ & Ead2 & Eat2 & Evt2 & Era2 & Erv2 & _).
  assert (Hs2 : created is_audio_thread (log s2) = athread_live s2
                /\ created is_video_thread (log s2) = vthread_live s2
                /\ read_thread_audio s2 = option_map th_ptr (athread s2)
                /\ read_thread_video s2 = option_map th_ptr (vthread s2)
                /\ (forall p, thread_decoder (athread s2) = Some p ->
                      option_map ad_ptr (adec s2) = Some p)
                /\ thread_decoder (vthread s2) = None).
  { unfold athread_live, vthread_live.
    rewrite Ea2, Ev2, Ea1, Ev1, Ea0, Ev0, Eat2, Eat1, Eat0, Ead2, Ead1, Ead0,
      Era2, Era1, Era0, Erv2, Erv1, Erv0, Evt2, Evt1, Ed0, Hrv, Evt0.
    repeat split; try assumption.
    rewrite Hv. destruct (vthread s0) as [t0 |], (vthread s) as [t |]; cbn in *;
      try discriminate; congruence. }
  clear - Hs2. destruct Hs2 as (Ha & Hv & Hra & Hrv & Hda & Hdv).
  unfold athread_live, vthread_live in *.
  destruct (vdec s2) as [d |] eqn:Ed.
  - unfold install_video_decoder.
    destruct (vthread s2) as [t |] eqn:Et; cbn; rewrite ?Et; cbn.
    + destruct (queue_sizing _) as [[qmin qmax] |]; [| discriminate].
      intros E; inversion E; subst; clear E. cbn. rewrite Ed.
      repeat split; try assumption. intros p E; inversion E; reflexivity.
    + destruct (queue_sizing _) as [[qmin qmax] |]; [| discriminate].
      intros E; inversion E; subst; clear E. cbn. rewrite Ed.
      destruct (new_thread_fields (next_ptr s2) (videoFilters w)) as (Ep & _).
      rewrite Ep, Hv. cbn.
      repeat split; try assumption. intros p E; inversion E; reflexivity.
  - intros E; inversion E; subst; clear E. cbn. rewrite Hdv.
    repeat split; try assumption. discriminate.
Qed.

Lemma try_audio_outputs_threads w k ids s :
  (forall aoid, k (AudioOutputObj aoid) = false) ->
  let s' := try_audio_outputs w ids s in
  created k (log s') = created k (log s)
  /\ athread s' = athread s /\ vthread s' = vthread s
  /\ read_thread_audio s' = read_thread_audio s
  /\ read_thread_video s' = read_thread_video s
  /\ adec s' = adec s /\ vdec s' = vdec s.
Proof.
  intros Hk. revert s. induction ids as [| aoid rest IH]; intros s; cbn.
  - tauto.
  - destruct (ao_create w aoid) as [impl |].
    + cbn. rewrite Hk. tauto.
    + match goal with |- context [try_audio_outputs w rest ?s1] =>
        destruct (IH s1) as (A & B & C & D & E & F & G) end.
      cbn in *. rewrite A, B, C, D, E, F, G. tauto.
Qed.

Lemma find_audio_output_threads w k s :
  (forall aoid, k (AudioOutputObj aoid) = false) ->
  let s' := find_audio_output w s in
  created k (log s') = created k (log s)
  /\ athread s' = athread s /\ vthread s' = vthread s
  /\ read_thread_audio s' = read_thread_audio s
  /\ read_thread_video s' = read_thread_video s
  /\ adec s' = adec s /\ vdec s' = vdec s.
Proof.
  intros Hk. unfold find_audio_output.
  destruct (ao s); [cbn; tauto |]. destruct (ao_enabled s); [| cbn; tauto].
  now apply try_audio_outputs_threads.
Qed.

Lemma reopen_audio_output_threads dev af k s :
  let s' := match reopen_audio_output dev af s with
            | inl s' | inr s' => s'
            end in
  created k (log s') = created k (log s)
  /\ athread s' = athread s /\ vthread s' = vthread s
  /\ read_thread_audio s' = read_thread_audio s
  /\ read_thread_video s' = read_thread_video s
  /\ adec s' = adec s /\ vdec s' = vdec s.
Proof.
  unfold reopen_audio_output.
  destruct (AudioFormat_eqb (audioFormat dev) af); cbn [negb]; [cbn; tauto |].
  destruct (open_ok (ao_impl dev) af); cbn; tauto.
Qed.

Lemma finish_audio_setup_ThreadInv w p s r s' :
  created is_audio_thread (log s) = athread_live s ->
  created is_video_thread (log s) = vthread_live s ->
  read_thread_audio s = option_map th_ptr (athread s) ->
  read_thread_video s = option_map th_ptr (vthread s) ->
  option_map ad_ptr (adec s) = Some p ->
  (forall q, thread_decoder (vthread s) = Some q ->
     option_map vd_ptr (vdec s) = Some q) ->
  finish_audio_setup w p s = Some (r, s') -> ThreadInv s'.
Proof.
  unfold ThreadInv, athread_live, vthread_live, finish_audio_setup.
  intros Ha Hv Hra Hrv Hd Hdv.
  destruct (athread s) as [t |] eqn:Et; cbn; rewrite ?Et; cbn.
  - destruct (queue_sizing _) as [[qmin qmax] |]; [| discriminate].
    intros E; inversion E; subst; clear E. cbn.
    repeat split; try assumption. intros q E; inversion E; subst. exact Hd.
  - destruct (queue_sizing _) as [[qmin qmax] |]; [| discriminate].
    intros E; inversion E; subst; clear E. cbn.
    destruct (new_thread_fields (next_ptr s) (audioFilters w)) as (Ep & _).
    rewrite Ep, Ha. cbn.
    repeat split; try assumption. intros q E; inversion E; subst. exact Hd.
Qed.

Lemma setupAudioThread_ThreadInv ff w s r s' :
  ThreadInv s -> setupAudioThread ff w s = Some (r, s') -> ThreadInv s'.
Proof.
  unfold setupAudioThread.
  intros (Ha & Hv & Hra & Hrv & Hda & Hdv).
  set (s0 := reset_audio_thread ff s).
  assert (F0 : created is_audio_thread (log s0) = athread_live s0
               /\ created is_video_thread (log s0) = vthread_live s0
               /\ read_thread_audio s0 = option_map th_ptr (athread s0)
               /\ read_thread_video s0 = option_map th_ptr (vthread s0)
               /\ thread_decoder (athread s0) = None
               /\ (forall q, thread_decoder (vthread s0) = Some q ->
                     option_map vd_ptr (vdec s0) = Some q)).
  { subst s0. unfold reset_audio_thread, initAudioStatistics, athread_live,
      vthread_live in *.
    destruct (athread s) as [t |] eqn:Et; cbn.
    - destruct (audioCodecContext s); cbn; repeat split; assumption.
    - rewrite Et. repeat split; assumption. }
  clearbody s0. clear Ha Hv Hra Hrv Hda Hdv.
  destruct F0 as (Ha & Hv & Hra & Hrv & Hda & Hdv).
  destruct (audioCodecContext s0) as [avctx |].
  2:{ intros E; inversion E; subst; clear E.
      unfold ThreadInv. rewrite Hda. repeat split; try assumption. discriminate. }
  assert (F2 : let p := fst (new_adec w (delete_adec s0)) in
               let s2 := snd (new_adec w (delete_adec s0)) in
               created is_audio_thread (log s2) = athread_live s2
               /\ created is_video_thread (log s2) = vthread_live s2
               /\ read_thread_audio s2 = option_map th_ptr (athread s2)
               /\ read_thread_video s2 = option_map th_ptr (vthread s2)
               /\ thread_decoder (athread s2) = None
               /\ (forall q, thread_decoder (vthread s2) = Some q ->
                     option_map vd_ptr (vdec s2) = Some q)).
  { unfold new_adec, delete_adec, athread_live, vthread_live in *.
    destruct (adec s0); cbn; repeat split; assumption. }
  cbn zeta in F2.
  destruct (new_adec w (delete_adec s0)) as [p s2]. cbn [fst snd] in F2.
  clear Ha Hv Hra Hrv Hda Hdv. destruct F2 as (Ha & Hv & Hra & Hrv & Hda & Hdv).
  destruct (ad_open w); cbn [negb].
  2:{ intros E; inversion E; subst; clear E.
      unfold ThreadInv. cbn. rewrite Hda.
      repeat split; try assumption. discriminate. }
  set (s3 := set_audio_decoder_name (Some p)
               (set_adec (Some (mkAudioDecoder p true)) s2)).
  destruct (find_audio_output_threads w is_audio_thread s3 ltac:(reflexivity))
    as (A1 & B1 & C1 & D1 & E1 & F1 & G1).
  destruct (find_audio_output_threads w is_video_thread s3 ltac:(reflexivity))
    as (A2 & _).
  set (s4 := find_audio_output w s3) in *.
  assert (F4 : created is_audio_thread (log s4) = athread_live s4
               /\ created is_video_thread (log s4) = vthread_live s4
               /\ read_thread_audio s4 = option_map th_ptr (athread s4)
               /\ read_thread_video s4 = option_map th_ptr (vthread s4)
               /\ thread_decoder (athread s4) = None
               /\ option_map ad_ptr (adec s4) = Some p
               /\ (forall q, thread_decoder (vthread s4) = Some q ->
                     option_map vd_ptr (vdec s4) = Some q)).
  { unfold athread_live, vthread_live in *.
    rewrite A1, A2, B1, C1, D1, E1, F1, G1. subst s3. cbn.
    repeat split; assumption. }
  clearbody s4. clear - F4.
  destruct F4 as (Ha & Hv & Hra & Hrv & Hda & Had & Hdv).
  destruct (ao s4) as [dev |].
  - set (s5 := set_audioCodecContext _ s4).
    set (af := negotiated_format _ _). clearbody af.
    assert (F5 : created is_audio_thread (log s5) = athread_live s5
               /\ created is_video_thread (log s5) = vthread_live s5
               /\ read_thread_audio s5 = option_map th_ptr (athread s5)
               /\ read_thread_video s5 = option_map th_ptr (vthread s5)
               /\ thread_decoder (athread s5) = None
               /\ option_map ad_ptr (adec s5) = Some p
               /\ (forall q, thread_decoder (vthread s5) = Some q ->
                     option_map vd_ptr (vdec s5) = Some q))
      by (subst s5; repeat split; assumption).
    clearbody s5. clear - F5.
    destruct F5 as (Ha & Hv & Hra & Hrv & Hda & Had & Hdv).
    destruct (reopen_audio_output_threads dev af is_audio_thread s5)
      as (A1 & B1 & C1 & D1 & E1 & F1 & G1).
    destruct (reopen_audio_output_threads dev af is_video_thread s5)
      as (A2 & _).
    unfold athread_live, vthread_live in *.
    destruct (reopen_audio_output dev af s5) as [s6 | s6]; cbn zeta in *.
    + intros E; inversion E; subst; clear E.
      unfold ThreadInv, athread_live, vthread_live.
      rewrite A1, A2, B1, C1, D1, E1, F1, G1, Hda.
      repeat split; try assumption. discriminate.
    + apply finish_audio_setup_ThreadInv; unfold athread_live, vthread_live;
        rewrite ?A1, ?A2, ?B1, ?C1, ?D1, ?E1, ?F1, ?G1; assumption.
  - apply finish_audio_setup_ThreadInv; assumption.
Qed.

Lemma reachable_ThreadInv ff s : reachable ff s -> ThreadInv s.
Proof.
  induction 1 as
    [ vc aos | w s r s' _ IH E | w s r s' _ IH E | a v s _ IH | s _ IH
    | pkt t s _ IH Et | pkt t s _ IH Et ].
  - unfold ThreadInv; cbn. repeat split; try reflexivity; discriminate.
  - eapply setupVideoThread_ThreadInv; eauto.
  - eapply setupAudioThread_ThreadInv; eauto.
  - exact IH.
  - unfold ThreadInv, athread_live, vthread_live, initVideoStatistics,
      initAudioStatistics in *.
    destruct (audioCodecContext s); cbn; destruct (videoStream s); cbn;
      exact IH.
  - unfold ThreadInv, athread_live, vthread_live in *. cbn. rewrite Et in IH.
    exact IH.
  - unfold ThreadInv, athread_live, vthread_live in *. cbn. rewrite Et in IH.
    exact IH.
Qed.

Lemma created_quiet k e l : quiet e = true -> created k (e :: l) = created k l.
Proof. destruct e; cbn; intros; try discriminate; reflexivity. Qed.

Lemma Hist_live_created k l n v a o :
  (forall x, k x = true -> is_decoder_or_output x = false) ->
  Hist l n v a o -> live_of k l = created k l.
Proof.
  intros Hk H.
  assert (Hdec : forall x, is_decoder_or_output x = true -> k x = false).
  { intros x Hx. destruct (k x) eqn:E; [| reflexivity].
    apply Hk in E. congruence. }
  induction H as
    [ n | e l n v a o Hq H IH | vid l n a o H IH | l n v o H IH
    | aoid l n v a H IH | ob l n v a o Hob H IH | p ob l n a o H IH
    | p ob l n v o H IH | p ob l n v a H IH ].
  - reflexivity.
  - now rewrite live_of_quiet, created_quiet.
  - rewrite live_of_New. cbn [created].
    now rewrite (Hdec (VideoDecoderObj vid) eq_refl).
  - rewrite live_of_New. cbn [created].
    now rewrite (Hdec AudioDecoderObj eq_refl).
  - rewrite live_of_New. cbn [created].
    now rewrite (Hdec (AudioOutputObj aoid) eq_refl).
  - rewrite live_of_New. cbn [created]. now rewrite IH.
  - cbn [created]. rewrite <- IH.
    apply Hist_sound in H as (_ & Hnd & Hv & _).
    apply (live_of_Delete_other k is_video_decoder p ob); try assumption.
    + rewrite Hv. now left.
    + intros x Hx Hx'. apply Hk in Hx. unfold is_decoder_or_output in Hx.
      rewrite Hx' in Hx. discriminate.
  - cbn [created]. rewrite <- IH.
    apply Hist_sound in H as (_ & Hnd & _ & Ha & _).
    apply (live_of_Delete_other k is_audio_decoder p ob); try assumption.
    + rewrite Ha. now left.
    + intros x Hx Hx'. apply Hk in Hx. unfold is_decoder_or_output in Hx.
      rewrite Hx' in Hx. rewrite orb_true_r in Hx. discriminate.
  - cbn [created]. rewrite <- IH.
    apply Hist_sound in H as (_ & Hnd & _ & _ & Ho & _).
    apply (live_of_Delete_other k is_audio_output p ob); try assumption.
    + rewrite Ho. now left.
    + intros x Hx Hx'. apply Hk in Hx. unfold is_decoder_or_output in Hx.
      rewrite Hx' in Hx. rewrite orb_true_r in Hx. discriminate.
Qed.

Lemma reachable_threads_live ff s :
  reachable ff s ->
  live_of is_audio_thread (log s) = athread_live s
  /\ live_of is_video_thread (log s) = vthread_live s.
Proof.
  intros Hr. pose proof (reachable_Inv ff s Hr) as HI.
  destruct (reachable_ThreadInv ff s Hr) as (Ha & Hv & _).
  unfold Inv in HI.
  rewrite (Hist_live_created is_audio_thread _ _ _ _ _
             ltac:(intros []; cbn; congruence) HI).
  rewrite (Hist_live_created is_video_thread _ _ _ _ _
             ltac:(intros []; cbn; congruence) HI).
  auto.
Qed.

(** X19: in every state of a player the audio thread and the video thread
    were each created at most once, the one created is alive (no set-up
    deletes a thread) and is the one [athread] or [vthread] points to, and
    the demux thread was given exactly that thread. *)
Theorem thread_lifetime ff s :
  reachable ff s ->
  (created is_audio_thread (log s) = athread_live s
   /\ live_of is_audio_thread (log s) = athread_live s
   /\ read_thread_audio s = option_map th_ptr (athread s))
  /\ (created is_video_thread (log s) = vthread_live s
      /\ live_of is_video_thread (log s) = vthread_live s
      /\ read_thread_video s = option_map th_ptr (vthread s)).
Proof.
  intros Hr.
  destruct (reachable_ThreadInv ff s Hr) as (Ha & Hv & Hra & Hrv & _).
  destruct (reachable_threads_live ff s Hr) as [La Lv].
  tauto.
Qed.

(** X20: a thread never works with a deleted decoder: the decoder a thread
    was last given is the one [vdec] or [adec] holds, and it is alive. *)
Theorem thread_decoder_held ff s :
  reachable ff s ->
  (forall p, thread_decoder (vthread s) = Some p ->
     exists d, vdec s = Some d /\ vd_ptr d = p
               /\ In (p, VideoDecoderObj (vd_id d)) (live (log s)))
  /\ (forall p, thread_decoder (athread s) = Some p ->
        exists d, adec s = Some d /\ ad_ptr d = p
                  /\ In (p, AudioDecoderObj) (live (log s))).
Proof.
  intros Hr. pose proof (reachable_Inv ff s Hr) as HI.
  destruct (reachable_ThreadInv ff s Hr) as (_ & _ & _ & _ & Hda & Hdv).
  apply Hist_sound in HI as (_ & _ & Hv & Ha & _).
  split; intros p Hp.
  - specialize (Hdv p Hp). destruct (vdec s) as [d |] eqn:Ed; [| discriminate].
    inversion Hdv; subst. exists d. repeat split.
    assert (Hin : In (vd_ptr d, VideoDecoderObj (vd_id d))
                    (live_of is_video_decoder (log s)))
      by (rewrite Hv; unfold vdec_live; rewrite Ed; now left).
    now apply In_live_of in Hin.
  - specialize (Hda p Hp). destruct (adec s) as [d |] eqn:Ed; [| discriminate].
    inversion Hda; subst. exists d. repeat split.
    assert (Hin : In (ad_ptr d, AudioDecoderObj)
                    (live_of is_audio_decoder (log s)))
      by (rewrite Ha; unfold adec_live; rewrite Ed; now left).
    now apply In_live_of in Hin.
Qed.

(** X9: a video set-up, whatever it returns, leaves the packet queue of the
    thread empty; a thread that existed is the same thread with the filters
    it had; a thread is created only by a set-up that succeeds, with the
    filters registered for the player, in their order. *)
Theorem setupVideoThread_thread w s r s' :
  setupVideoThread w s = Some (r, s') ->
  match vthread s with
  | Some t =>
      exists t', vthread s' = Some t' /\ th_ptr t' = th_ptr t
                 /\ th_filters t' = th_filters t /\ th_packets t' = []
  | None =>
      if r then
        exists t', vthread s' = Some t' /\ th_filters t' = videoFilters w
                   /\ th_packets t' = []
      else vthread s' = None
  end.
Proof.
  unfold setupVideoThread.
  set (s0 := reset_video_thread s).
  assert (F0 : match vthread s with
               | Some t =>
                   exists t0, vthread s0 = Some t0 /\ th_ptr t0 = th_ptr t
                              /\ th_filters t0 = th_filters t
                              /\ th_packets t0 = []
               | None => vthread s0 = None
               end).
  { subst s0. unfold reset_video_thread, initVideoStatistics.
    destruct (vthread s) as [t |] eqn:Et; [| exact Et].
    cbn. destruct (videoStream s); cbn; eexists; repeat split; reflexivity. }
  clearbody s0.
  destruct (videoStream s0) as [vs |].
  2:{ intros E; inversion E; subst; clear E. exact F0. }
  pose proof (delete_vdec_frame s0) as (F1 & _).
  set (s1 := delete_vdec s0) in *. clearbody s1.
  pose proof (try_video_decoders_frame w (vc_ids s1) s1) as F2.
  set (s2 := try_video_decoders w (vc_ids s1) s1) in *. clearbody s2.
  destruct F1 as (_ & _ & _ & _ & _ & _ & _ & _ & _ & Et1 & _).
  destruct F2 as (_ & _ & _ & _ & _ & _ & _ & _ & _ & Et2 & _).
  rewrite <- Et1, <- Et2 in F0. clear - F0.
  destruct (vdec s2) as [d |].
  - unfold install_video_decoder.
    destruct (vthread s) as [t |].
    + destruct F0 as (t0 & E0 & Ep & Ef & Eq). cbn. rewrite E0. cbn.
      destruct (queue_sizing _) as [[qmin qmax] |]; [| discriminate].
      intros E; inversion E; subst; clear E. cbn.
      eexists; repeat split; assumption.
    + cbn. rewrite F0. cbn.
      destruct (queue_sizing _) as [[qmin qmax] |]; [| discriminate].
      intros E; inversion E; subst; clear E. cbn.
      destruct (new_thread_fields (next_ptr s2) (videoFilters w))
        as (_ & _ & _ & Eq & Ef).
      eexists; repeat split; assumption.
  - intros E; inversion E; subst; clear E. cbn.
    destruct (vthread s); exact F0.
Qed.

(** X10: the same for the audio set-up and the audio thread. *)
Theorem setupAudioThread_thread ff w s r s' :
  setupAudioThread ff w s = Some (r, s') ->
  match athread s with
  | Some t =>
      exists t', athread s' = Some t' /\ th_ptr t' = th_ptr t
                 /\ th_filters t' = th_filters t /\ th_packets t' = []
  | None =>
      if r then
        exists t', athread s' = Some t' /\ th_filters t' = audioFilters w
                   /\ th_packets t' = []
      else athread s' = None
  end.
Proof.
  assert (Hfin : forall p s1 r,
             match athread s with
             | Some t =>
                 exists t0, athread s1 = Some t0 /\ th_ptr t0 = th_ptr t
                            /\ th_filters t0 = th_filters t
                            /\ th_packets t0 = []
             | None => athread s1 = None
             end ->
             finish_audio_setup w p s1 = Some (r, s') ->
             match athread s with
             | Some t =>
                 exists t', athread s' = Some t' /\ th_ptr t' = th_ptr t
                            /\ th_filters t' = th_filters t
                            /\ th_packets t' = []
             | None =>
                 if r then
                   exists t', athread s' = Some t'
                              /\ th_filters t' = audioFilters w
                              /\ th_packets t' = []
                 else athread s' = None
             end).
  { intros p s1 r1 F. unfold finish_audio_setup.
    destruct (athread s) as [t |].
    - destruct F as (t0 & E0 & Ep & Ef & Eq). cbn. rewrite E0. cbn.
      destruct (queue_sizing _) as [[qmin qmax] |]; [| discriminate].
      intros E; inversion E; subst; clear E. cbn.
      eexists; repeat split; assumption.
    - cbn. rewrite F. cbn.
      destruct (queue_sizing _) as [[qmin qmax] |]; [| discriminate].
      intros E; inversion E; subst; clear E. cbn.
      destruct (new_thread_fields (next_ptr s1) (audioFilters w))
        as (_ & _ & _ & Eq & Ef).
      eexists; repeat split; assumption. }
  unfold setupAudioThread.
  set (s0 := reset_audio_thread ff s).
  assert (F0 : match athread s with
               | Some t =>
                   exists t0, athread s0 = Some t0 /\ th_ptr t0 = th_ptr t
                              /\ th_filters t0 = th_filters t
                              /\ th_packets t0 = []
               | None => athread s0 = None
               end).
  { subst s0. unfold reset_audio_thread, initAudioStatistics.
    destruct (athread s) as [t |] eqn:Et; [| exact Et].
    cbn. destruct (audioCodecContext s); cbn; eexists; repeat split;
      reflexivity. }
  clearbody s0.
  destruct (audioCodecContext s0) as [avctx |].
  2:{ intros E; inversion E; subst; clear E. destruct (athread s); exact F0. }
  assert (E2 : athread (snd (new_adec w (delete_adec s0))) = athread s0)
    by (unfold new_adec, delete_adec; destruct (adec s0); reflexivity).
  destruct (new_adec w (delete_adec s0)) as [p s2]. cbn [snd] in E2.
  rewrite <- E2 in F0. clear E2.
  destruct (ad_open w); cbn [negb].
  2:{ intros E; inversion E; subst; clear E. cbn. destruct (athread s); exact F0. }
  set (s3 := set_audio_decoder_name (Some p)
               (set_adec (Some (mkAudioDecoder p true)) s2)).
  destruct (find_audio_output_threads w is_audio_thread s3 ltac:(reflexivity))
    as (_ & B1 & _).
  change (athread s3) with (athread s2) in B1. rewrite <- B1 in F0.
  set (s4 := find_audio_output w s3) in *. clearbody s4.
  destruct (ao s4) as [dev |]; [| now apply Hfin].
  set (s5 := set_audioCodecContext _ s4).
  change (athread s4) with (athread s5) in F0. clearbody s5.
  set (af := negotiated_format _ _). clearbody af.
  destruct (reopen_audio_output_threads dev af is_audio_thread s5)
    as (_ & B2 & _).
  destruct (reopen_audio_output dev af s5) as [s6 | s6]; cbn zeta in B2;
    rewrite <- B2 in F0.
  - intros E; inversion E; subst; clear E. destruct (athread s); exact F0.
  - now apply Hfin.
Qed.

(** ** What a set-up leaves alone *)

(** X11: a video set-up touches nothing of the player's audio side: the
    output, the audio decoder, the audio thread and its registration with
    the demux thread and the audio half of the statistics stay as they are,
    and so do the clock, the candidate lists and the switch for audio
    outputs. *)
Theorem setupVideoThread_keeps_audio w s r s' :
  setupVideoThread w s = Some (r, s') ->
  ao s' = ao s /\ adec s' = adec s /\ athread s' = athread s
  /\ read_thread_audio s' = read_thread_audio s
  /\ audio_part (statistics s') = audio_part (statistics s)
  /\ clock s' = clock s
  /\ vc_ids s' = vc_ids s /\ ao_ids s' = ao_ids s
  /\ ao_enabled s' = ao_enabled s.
Proof.
  unfold setupVideoThread.
  set (s0 := reset_video_thread s).
  assert (F0 : ao s0 = ao s /\ adec s0 = adec s /\ athread s0 = athread s
               /\ read_thread_audio s0 = read_thread_audio s
               /\ audio_part (statistics s0) = audio_part (statistics s)
               /\ clock s0 = clock s
               /\ vc_ids s0 = vc_ids s /\ ao_ids s0 = ao_ids s
               /\ ao_enabled s0 = ao_enabled s).
  { subst s0. unfold reset_video_thread, initVideoStatistics.
    destruct (vthread s) as [t |]; [| repeat split; reflexivity].
    cbn. destruct (videoStream s) eqn:Evs; cbn; rewrite ?Evs;
      repeat split; reflexivity. }
  clearbody s0.
  destruct (videoStream s0) as [vs |].
  2:{ intros E; inversion E; subst; clear E. exact F0. }
  pose proof (delete_vdec_frame s0) as (F1 & _).
  set (s1 := delete_vdec s0) in *. clearbody s1.
  pose proof (try_video_decoders_frame w (vc_ids s1) s1) as F2.
  set (s2 := try_video_decoders w (vc_ids s1) s1) in *. clearbody s2.
  assert (F : ao s2 = ao s /\ adec s2 = adec s /\ athread s2 = athread s
               /\ read_thread_audio s2 = read_thread_audio s
               /\ audio_part (statistics s2) = audio_part (statistics s)
               /\ clock s2 = clock s
               /\ vc_ids s2 = vc_ids s /\ ao_ids s2 = ao_ids s
               /\ ao_enabled s2 = ao_enabled s).
  { unfold frame_video in F1, F2.
    destruct F1 as (A1 & B1 & C1 & _ & _ & G1 & H1 & I1 & J1 & _ & L1 & _ & N1).
    destruct F2 as (A2 & B2 & C2 & _ & _ & G2 & H2 & I2 & J2 & _ & L2 & _ & N2).
    rewrite A2, B2, C2, G2, H2, I2, J2, L2, N2,
      A1, B1, C1, G1, H1, I1, J1, L1, N1. exact F0. }
  clear - F.
  destruct (vdec s2) as [d |].
  - unfold install_video_decoder.
    destruct (vthread s2) as [t |] eqn:Et; cbn; rewrite ?Et; cbn;
      (destruct (queue_sizing _) as [[qmin qmax] |]; [| discriminate]);
      intros E; inversion E; subst; clear E; cbn; exact F.
  - intros E; inversion E; subst; clear E. exact F.
Qed.

Lemma try_audio_outputs_frame w ids s :
  frame_output s (try_audio_outputs w ids s).
Proof.
  revert s. induction ids as [| aoid rest IH]; intros s; cbn.
  - unfold frame_output; tauto.
  - destruct (ao_create w aoid) as [impl |].
    + unfold frame_output; cbn; tauto.
    + match goal with |- frame_output _ (try_audio_outputs _ _ ?s1) =>
        specialize (IH s1) end.
      unfold frame_output in *; cbn in IH; exact IH.
Qed.

Lemma find_audio_output_frame w s : frame_output s (find_audio_output w s).
Proof.
  unfold find_audio_output.
  destruct (ao s); [unfold frame_output; tauto |].
  destruct (ao_enabled s); [| unfold frame_output; tauto].
  apply try_audio_outputs_frame.
Qed.

Lemma reopen_audio_output_frame dev af s :
  frame_output s match reopen_audio_output dev af s with
                 | inl s' | inr s' => s'
                 end.
Proof.
  unfold reopen_audio_output, frame_output.
  destruct (AudioFormat_eqb (audioFormat dev) af); cbn [negb]; [tauto |].
  destruct (open_ok (ao_impl dev) af); cbn; tauto.
Qed.

(** X12: an audio set-up touches nothing of the player's video side: the
    video decoder, the video thread and its registration with the demux
    thread and the video half of the statistics stay as they are, and so do
    the clock, the candidate lists and the switch for audio outputs. *)
Theorem setupAudioThread_keeps_video ff w s r s' :
  setupAudioThread ff w s = Some (r, s') ->
  vdec s' = vdec s /\ vthread s' = vthread s
  /\ read_thread_video s' = read_thread_video s
  /\ video_part (statistics s') = video_part (statistics s)
  /\ clock s' = clock s
  /\ vc_ids s' = vc_ids s /\ ao_ids s' = ao_ids s
  /\ ao_enabled s' = ao_enabled s.
Proof.
  set (P := fun (x : Private) =>
     vdec x = vdec s /\ vthread x = vthread s
     /\ read_thread_video x = read_thread_video s
     /\ video_part (statistics x) = video_part (statistics s)
     /\ clock x = clock s
     /\ vc_ids x = vc_ids s /\ ao_ids x = ao_ids s
     /\ ao_enabled x = ao_enabled s).
  change (setupAudioThread ff w s = Some (r, s') -> P s').
  assert (Hfin : forall p s1,
             P s1 -> finish_audio_setup w p s1 = Some (r, s') -> P s').
  { intros p s1 F. unfold finish_audio_setup.
    destruct (athread s1) as [t |] eqn:Et; cbn; rewrite ?Et; cbn;
      (destruct (queue_sizing _) as [[qmin qmax] |]; [| discriminate]);
      intros E; inversion E; subst; clear E; exact F. }
  unfold setupAudioThread.
  set (s0 := reset_audio_thread ff s).
  assert (F0 : P s0).
  { subst s0 P. unfold reset_audio_thread, initAudioStatistics.
    destruct (athread s) as [t |]; [| repeat split; reflexivity].
    cbn. destruct (audioCodecContext s) eqn:Ec; cbn; rewrite ?Ec;
      repeat split; reflexivity. }
  clearbody s0.
  destruct (audioCodecContext s0) as [avctx |].
  2:{ intros E; inversion E; subst r s'; clear E. exact F0. }
  assert (F2 : P (snd (new_adec w (delete_adec s0)))).
  { unfold new_adec, delete_adec. destruct (adec s0); exact F0. }
  destruct (new_adec w (delete_adec s0)) as [p s2]. cbn [snd] in F2.
  destruct (ad_open w); cbn [negb].
  2:{ intros E; inversion E; subst r s'; clear E. exact F2. }
  set (s3 := set_audio_decoder_name (Some p)
               (set_adec (Some (mkAudioDecoder p true)) s2)).
  assert (F3 : P s3) by exact F2.
  clearbody s3.
  pose proof (find_audio_output_frame w s3) as F4.
  set (s4 := find_audio_output w s3) in *. clearbody s4.
  assert (F4' : P s4).
  { unfold frame_output in F4.
    destruct F4 as (A & B & C & _ & _ & F & _ & H & _ & J & _ & L & M).
    unfold P in *. rewrite A, B, C, F, H, J, L, M. exact F3. }
  clear F4 F3 F2 F0.
  destruct (ao s4) as [dev |]; [| intros E; eauto].
  set (s5 := set_audioCodecContext _ s4).
  assert (F5 : P s5) by exact F4'.
  clearbody s5.
  set (af := negotiated_format _ _). clearbody af.
  pose proof (reopen_audio_output_frame dev af s5) as F6.
  assert (F6' : forall s6, frame_output s5 s6 -> P s6).
  { intros s6 (A & B & C & _ & _ & F & _ & H & _ & J & _ & L & M).
    unfold P in *. rewrite A, B, C, F, H, J, L, M. exact F5. }
  destruct (reopen_audio_output dev af s5) as [s6 | s6].
  - intros E; inversion E; subst r s'; clear E. now apply F6'.
  - intros E. eapply Hfin; [| exact E]. now apply F6'.
Qed.

(** ** The audio output *)

Lemma audio_prologue_outputs ff w s :
  requested_outputs
    (log (snd (new_adec w (delete_adec (reset_audio_thread ff s)))))
  = requested_outputs (log s).
Proof.
  unfold new_adec, delete_adec, reset_audio_thread, initAudioStatistics.
  destruct (athread s) as [t |]; cbn.
  - destruct (audioCodecContext s); cbn; destruct (adec s); reflexivity.
  - destruct (adec s); reflexivity.
Qed.



Lemma finish_audio_setup_outputs w p s r s' :
  finish_audio_setup w p s = Some (r, s') ->
  r = true /\ ao s' = ao s
  /\ requested_outputs (log s') = requested_outputs (log s)
  /\ player_output (log s') = Some (option_map ao_ptr (ao s))
  /\ thread_decoder (athread s') = Some p.
Proof.
  unfold finish_audio_setup.
  destruct (athread s) as [t |] eqn:Et; cbn; rewrite ?Et; cbn;
    (destruct (queue_sizing _) as [[qmin qmax] |]; [| discriminate]);
    intros E; inversion E; subst; clear E; cbn; repeat split; reflexivity.
Qed.

(** X15: with an audio output at hand the set-up never asks the factory for
    another; the output it leaves, if any, is the same device; when it
    succeeds the player is given that device. *)
Theorem audio_output_reused ff w s dev r s' :
  ao s = Some dev ->
  setupAudioThread ff w s = Some (r, s') ->
  requested_outputs (log s') = requested_outputs (log s)
  /\ (forall dev', ao s' = Some dev' ->
        ao_ptr dev' = ao_ptr dev /\ ao_id dev' = ao_id dev
        /\ ao_impl dev' = ao_impl dev)
  /\ (r = true ->
      exists dev', ao s' = Some dev'
                   /\ player_output (log s') = Some (Some (ao_ptr dev))).
Proof.
  intros Ho. unfold setupAudioThread.
  pose proof (audio_prologue_outputs ff w s) as Eq.
  destruct (reset_audio_thread_frame ff s)
    as (_ & _ & Eo0 & _ & _ & _ & _ & _ & _ & _ & _ & _ & _ & _ & _).
  cbn zeta in Eo0.
  assert (Eo2 : ao (snd (new_adec w (delete_adec (reset_audio_thread ff s))))
                = ao s).
  { unfold new_adec, delete_adec.
    destruct (adec (reset_audio_thread ff s)); cbn; exact Eo0. }
  assert (Eq0 : requested_outputs (log (reset_audio_thread ff s))
                = requested_outputs (log s)).
  { unfold reset_audio_thread, initAudioStatistics.
    destruct (athread s); [| reflexivity].
    cbn. destruct (audioCodecContext s); reflexivity. }
  set (s0 := reset_audio_thread ff s) in *. clearbody s0.
  destruct (audioCodecContext s0) as [avctx |].
  2:{ intros E; inversion E; subst; clear E. rewrite Eo0, Ho.
      split; [exact Eq0 |]. split; [| discriminate].
      intros dev' E; inversion E; subst; auto. }
  destruct (new_adec w (delete_adec s0)) as [p s2]. cbn [snd] in *.
  destruct (ad_open w); cbn [negb].
  2:{ intros E; inversion E; subst; clear E. cbn. rewrite Eo2, Ho.
      split; [exact Eq |]. split; [| discriminate].
      intros dev' E; inversion E; subst; auto. }
  unfold find_audio_output. cbn. rewrite Eo2, Ho. cbn. rewrite Eo2, Ho.
  set (af := negotiated_format _ _). clearbody af.
  unfold reopen_audio_output.
  destruct (AudioFormat_eqb (audioFormat dev) af); cbn [negb].
  - intros E. apply finish_audio_setup_outputs in E as (-> & Eo & Er & Ep & _).
    cbn in Eo, Er, Ep. rewrite Eo, Er, Ep, Eo2, Ho, Eq. cbn.
    split; [reflexivity |]. split; [| eauto].
    intros dev' E; inversion E; subst; auto.
  - destruct (open_ok (ao_impl dev) af); cbn [negb].
    + intros E. apply finish_audio_setup_outputs in E as (-> & Eo & Er & Ep & _).
      cbn in Eo, Er, Ep. rewrite Eo, Er, Ep, Eq. cbn.
      split; [reflexivity |]. split; [| eauto].
      intros dev' E; inversion E; subst; auto.
    + intros E; inversion E; subst; clear E. cbn.
      split; [exact Eq |]. split; discriminate.
Qed.



(** X21: at any time at most one audio output is alive, and the one alive
    is the one [ao] points to. *)
Theorem audio_output_ownership ff s :
  reachable ff s ->
  (forall h, earlier h (log s) ->
     (length (live_of is_audio_output h) <= 1)%nat)
  /\ live_of is_audio_output (log s) = output_live s.
Proof.
  intros Hr. pose proof (reachable_Inv ff s Hr) as HI. split.
  - intros h Hh.
    destruct (Hist_earlier _ _ _ _ _ h HI Hh) as (n' & v' & a' & o' & H').
    apply Hist_sound in H' as (_ & _ & _ & _ & Ho & _ & _ & Hl).
    now rewrite Ho.
  - apply Hist_sound in HI. tauto.
Qed.

(** ** Calls and deletions reach only objects alive *)

Lemma alive_In p l : alive p l = true <-> exists ob, In (p, ob) (live l).
Proof.
  unfold alive. rewrite existsb_exists. split.
  - intros ([q ob] & Hin & E). cbn in E. apply Nat.eqb_eq in E. subst. eauto.
  - intros (ob & Hin). exists (p, ob). split; [assumption |].
    cbn. apply Nat.eqb_refl.
Qed.

Lemma alive_quiet p e l : quiet e = true -> alive p (e :: l) = alive p l.
Proof. intros H. unfold alive. now rewrite live_quiet. Qed.

Lemma alive_New p o q l : alive p (New o q :: l) = Nat.eqb q p || alive p l.
Proof. reflexivity. Qed.

Lemma alive_Delete p q l :
  alive p (Delete q :: l) = negb (Nat.eqb p q) && alive p l.
Proof.
  unfold alive. cbn [live].
  induction (live l) as [| [r ob] xs IH]; cbn; [now rewrite andb_false_r |].
  destruct (Nat.eqb_spec r q) as [-> | Hrq]; cbn.
  - rewrite IH. destruct (Nat.eqb_spec q p) as [-> | Hqp]; cbn.
    + now rewrite Nat.eqb_refl.
    + reflexivity.
  - rewrite IH. destruct (Nat.eqb_spec r p) as [-> | Hrp]; cbn.
    + apply Nat.eqb_neq in Hrq. now rewrite Hrq.
    + reflexivity.
Qed.

Ltac alive_simpl :=
  repeat first
    [ rewrite alive_quiet by reflexivity
    | rewrite alive_New
    | rewrite alive_Delete
    | rewrite Nat.eqb_refl ];
  cbn [orb andb negb alive_opt option_map].

Lemma In_alive p ob l : In (p, ob) (live l) -> alive p l = true.
Proof. intros H. apply alive_In. eauto. Qed.

Lemma held_pointers s :
  Inv s ->
  live_of is_audio_thread (log s) = athread_live s ->
  live_of is_video_thread (log s) = vthread_live s ->
  (forall p, alive p (log s) = true -> (p < next_ptr s)%nat)
  /\ (forall p q ob ob', In (p, ob) (live (log s)) ->
        In (q, ob') (live (log s)) -> ob <> ob' -> p <> q)
  /\ (forall d, vdec s = Some d ->
        In (vd_ptr d, VideoDecoderObj (vd_id d)) (live (log s)))
  /\ (forall d, adec s = Some d ->
        In (ad_ptr d, AudioDecoderObj) (live (log s)))
  /\ (forall d, ao s = Some d ->
        In (ao_ptr d, AudioOutputObj (ao_id d)) (live (log s)))
  /\ (forall t, athread s = Some t ->
        In (th_ptr t, AudioThreadObj) (live (log s)))
  /\ (forall t, vthread s = Some t ->
        In (th_ptr t, VideoThreadObj) (live (log s))).
Proof.
  intros HI Hat Hvt.
  apply Hist_sound in HI as (Hb & Hnd & Hv & Ha & Ho & _).
  assert (Hin : forall k x xs, live_of k (log s) = xs -> In x xs ->
                               In x (live (log s))).
  { intros k x xs <- Hx. now apply In_live_of in Hx. }
  split; [| split; [| split; [| split; [| split; [| split]]]]].
  - intros p Hp. apply alive_In in Hp as (ob & Hp). eauto.
  - intros p q ob ob' Hp Hq Hne ->. apply Hne.
    eapply NoDup_map_fst_unique; eauto.
  - intros d E. apply (Hin _ _ _ Hv). unfold vdec_live. rewrite E. now left.
  - intros d E. apply (Hin _ _ _ Ha). unfold adec_live. rewrite E. now left.
  - intros d E. apply (Hin _ _ _ Ho). unfold output_live. rewrite E. now left.
  - intros t E. apply (Hin _ _ _ Hat). unfold athread_live. rewrite E. now left.
  - intros t E. apply (Hin _ _ _ Hvt). unfold vthread_live. rewrite E. now left.
Qed.

Lemma try_video_decoders_addressed w ids s :
  well_addressed (log s) = true ->
  (forall p, alive p (log s) = true -> (p < next_ptr s)%nat) ->
  let s' := try_video_decoders w ids s in
  well_addressed (log s') = true
  /\ (next_ptr s <= next_ptr s')%nat
  /\ (forall p, (p < next_ptr s)%nat -> alive p (log s') = alive p (log s))
  /\ (forall p, alive p (log s') = true -> (p < next_ptr s')%nat)
  /\ (vdec s = None ->
      forall d, vdec s' = Some d -> alive (vd_ptr d) (log s') = true).
Proof.
  revert s. induction ids as [| vid rest IH]; intros s Hw Hb; cbn.
  - repeat split; auto. intros E d Ed. congruence.
  - assert (Hfresh : alive (next_ptr s) (log s) = false).
    { destruct (alive (next_ptr s) (log s)) eqn:E; [| reflexivity].
      apply Hb in E. lia. }
    assert (Hstep : forall s1,
               well_addressed (log s1) = true ->
               (forall p, alive p (log s1) = true -> (p < next_ptr s1)%nat) ->
               (next_ptr s <= next_ptr s1)%nat ->
               (forall p, (p < next_ptr s)%nat ->
                          alive p (log s1) = alive p (log s)) ->
               vdec s1 = vdec s ->
               let s' := try_video_decoders w rest s1 in
               well_addressed (log s') = true
               /\ (next_ptr s <= next_ptr s')%nat
               /\ (forall p, (p < next_ptr s)%nat ->
                             alive p (log s') = alive p (log s))
               /\ (forall p, alive p (log s') = true -> (p < next_ptr s')%nat)
               /\ (vdec s = None ->
                   forall d, vdec s' = Some d ->
                             alive (vd_ptr d) (log s') = true)).
    { intros s1 Hw1 Hb1 Hn1 Ha1 Ev1.
      destruct (IH s1 Hw1 Hb1) as (A & B & C & D & E).
      repeat split; try assumption.
      - lia.
      - intros p Hp. rewrite C by lia. now apply Ha1.
      - intros Hv. apply E. congruence. }
    destruct (vd_create w vid); [destruct (vd_prepare w vid);
                                   [destruct (vd_open w vid) |] |].
    + cbn. alive_simpl. rewrite Hw.
      repeat split; try reflexivity; try lia.
      * intros p Hp. alive_simpl.
        destruct (Nat.eqb_spec (next_ptr s) p); [lia | reflexivity].
      * intros p. alive_simpl.
        destruct (Nat.eqb_spec (next_ptr s) p); [lia |]. cbn.
        intros Hp. apply Hb in Hp. lia.
      * intros _ d E. inversion E; subst; cbn. now alive_simpl.
    + apply Hstep; cbn; alive_simpl; try reflexivity; try lia.
      * exact Hw.
      * intros p. alive_simpl.
        destruct (Nat.eqb_spec p (next_ptr s)); cbn; [discriminate |].
        destruct (Nat.eqb_spec (next_ptr s) p); cbn; [lia |].
        intros Hp. apply Hb in Hp. lia.
      * intros p Hp. alive_simpl.
        destruct (Nat.eqb_spec p (next_ptr s)); cbn; [lia |].
        destruct (Nat.eqb_spec (next_ptr s) p); cbn; [lia | reflexivity].
    + apply Hstep; cbn; alive_simpl; try reflexivity; try lia.
      * exact Hw.
      * intros p. alive_simpl.
        destruct (Nat.eqb_spec p (next_ptr s)); cbn; [discriminate |].
        destruct (Nat.eqb_spec (next_ptr s) p); cbn; [lia |].
        intros Hp. apply Hb in Hp. lia.
      * intros p Hp. alive_simpl.
        destruct (Nat.eqb_spec p (next_ptr s)); cbn; [lia |].
        destruct (Nat.eqb_spec (next_ptr s) p); cbn; [lia | reflexivity].
    + apply Hstep; cbn; alive_simpl; try reflexivity; try lia; assumption.
Qed.

Lemma setupVideoThread_addressed w s r s' :
  Inv s ->
  live_of is_audio_thread (log s) = athread_live s ->
  live_of is_video_thread (log s) = vthread_live s ->
  well_addressed (log s) = true ->
  setupVideoThread w s = Some (r, s') ->
  well_addressed (log s') = true.
Proof.
  intros HI Hat Hvt Hw.
  destruct (held_pointers s HI Hat Hvt) as (Hb & Hne & Hvd & _ & _ & _ & Hth).
  unfold setupVideoThread.
  set (s0 := reset_video_thread s).
  assert (F0 : well_addressed (log s0) = true
               /\ (forall p, alive p (log s0) = alive p (log s))
               /\ next_ptr s0 = next_ptr s /\ vdec s0 = vdec s
               /\ vthread s0 = option_map (fun t => thread_setDecoder None (thread_clear t)) (vthread s)).
  { subst s0. unfold reset_video_thread, initVideoStatistics.
    destruct (vthread s) as [t |] eqn:Et; [| auto].
    specialize (Hth t eq_refl). apply In_alive in Hth.
    cbn. destruct (videoStream s); cbn; alive_simpl; rewrite Hth, Hw;
      repeat split; intros; now alive_simpl. }
  clearbody s0. destruct F0 as (Hw0 & Ha0 & En0 & Ev0 & Et0).
  destruct (videoStream s0) as [vs |].
  2:{ intros E; inversion E; subst; assumption. }
  set (s1 := delete_vdec s0).
  assert (F1 : well_addressed (log s1) = true
               /\ (forall p, alive p (log s1) = true -> alive p (log s) = true)
               /\ (forall t, vthread s = Some t ->
                     alive (th_ptr t) (log s1) = true)
               /\ next_ptr s1 = next_ptr s /\ vdec s1 = None
               /\ vthread s1 = vthread s0).
  { subst s1. unfold delete_vdec. rewrite Ev0.
    destruct (vdec s) as [d |] eqn:Ed.
    - specialize (Hvd d eq_refl). cbn. alive_simpl.
      rewrite Ha0, (In_alive _ _ _ Hvd), Hw0.
      repeat split; try assumption.
      + intros p. alive_simpl. rewrite Ha0.
        intros H. now apply andb_true_iff in H.
      + intros t Et. specialize (Hth t Et). alive_simpl.
        rewrite Ha0, (In_alive _ _ _ Hth), andb_true_r.
        apply negb_true_iff, Nat.eqb_neq.
        eapply Hne; eauto. discriminate.
    - repeat split; try assumption.
      + intros p. now rewrite Ha0.
      + intros t Et. rewrite Ha0. eapply In_alive; eauto. }
  clearbody s1. destruct F1 as (Hw1 & Ha1 & Hth1 & En1 & Ev1 & Et1).
  assert (Hb1 : forall p, alive p (log s1) = true -> (p < next_ptr s1)%nat).
  { intros p Hp. rewrite En1. auto. }
  destruct (try_video_decoders_addressed w (vc_ids s1) s1 Hw1 Hb1)
    as (Hw2 & Hn2 & Ha2 & Hb2 & Hd2).
  pose proof (try_video_decoders_frame w (vc_ids s1) s1)
    as (_ & _ & _ & _ & _ & _ & _ & _ & _ & Et2 & _).
  cbn zeta in *.
  set (s2 := try_video_decoders w (vc_ids s1) s1) in *. clearbody s2.
  destruct (vdec s2) as [d |] eqn:Ed.
  2:{ intros E; inversion E; subst. cbn. exact Hw2. }
  specialize (Hd2 Ev1 d eq_refl).
  unfold install_video_decoder. cbn.
  destruct (vthread s2) as [t |] eqn:Et.
  - cbn. destruct (queue_sizing _) as [[qmin qmax] |]; [| discriminate].
    intros E; inversion E; subst; clear E. cbn. alive_simpl.
    assert (Ht : alive (th_ptr t) (log s2) = true).
    { rewrite Et1, Et0 in Et2.
      destruct (vthread s) as [t0 |] eqn:Et00; cbn in Et2; [| discriminate].
      inversion Et2; subst t. cbn.
      pose proof (Hth t0 eq_refl) as Hin. apply In_alive, Hb in Hin.
      rewrite Ha2 by lia. now apply Hth1. }
    now rewrite Ht, Hd2, Hw2.
  - cbn. destruct (queue_sizing _) as [[qmin qmax] |]; [| discriminate].
    intros E; inversion E; subst; clear E. cbn.
    destruct (new_thread_fields (next_ptr s2) (videoFilters w)) as (Ep & _).
    rewrite Ep. alive_simpl. now rewrite Hd2, Hw2, orb_true_r.
Qed.

Lemma try_audio_outputs_addressed w ids s :
  well_addressed (log s) = true ->
  (forall p, alive p (log s) = true -> (p < next_ptr s)%nat) ->
  ao s = None ->
  let s' := try_audio_outputs w ids s in
  well_addressed (log s') = true
  /\ (forall p, (p < next_ptr s)%nat -> alive p (log s') = alive p (log s))
  /\ (forall d, ao s' = Some d -> alive (ao_ptr d) (log s') = true).
Proof.
  revert s. induction ids as [| aoid rest IH]; intros s Hw Hb Ho; cbn.
  - repeat split; auto. intros d E. congruence.
  - destruct (ao_create w aoid) as [impl |].
    + cbn. rewrite Hw. repeat split.
      * intros p Hp. alive_simpl.
        destruct (Nat.eqb_spec (next_ptr s) p); [lia | reflexivity].
      * intros d E. inversion E; subst; cbn. now alive_simpl.
    + match goal with |- context [try_audio_outputs w rest ?s1] =>
        destruct (IH s1) as (A & B & C) end; try assumption.
      repeat split; assumption.
Qed.

Lemma find_audio_output_addressed w s :
  well_addressed (log s) = true ->
  (forall p, alive p (log s) = true -> (p < next_ptr s)%nat) ->
  (forall d, ao s = Some d -> alive (ao_ptr d) (log s) = true) ->
  let s' := find_audio_output w s in
  well_addressed (log s') = true
  /\ (forall p, (p < next_ptr s)%nat -> alive p (log s') = alive p (log s))
  /\ (forall d, ao s' = Some d -> alive (ao_ptr d) (log s') = true).
Proof.
  intros Hw Hb Ho. unfold find_audio_output.
  destruct (ao s) as [dev |] eqn:Eo.
  - cbn zeta. rewrite Eo. auto.
  - destruct (ao_enabled s).
    + now apply try_audio_outputs_addressed.
    + cbn zeta. rewrite Eo. repeat split; auto; discriminate.
Qed.

Lemma finish_audio_setup_addressed w p s r s' :
  well_addressed (log s) = true ->
  alive p (log s) = true ->
  (forall t, athread s = Some t -> alive (th_ptr t) (log s) = true) ->
  (forall d, ao s = Some d -> alive (ao_ptr d) (log s) = true) ->
  finish_audio_setup w p s = Some (r, s') ->
  well_addressed (log s') = true.
Proof.
  intros Hw Hp Ht Ho. unfold finish_audio_setup.
  assert (Ho' : alive_opt (option_map ao_ptr (ao s)) (log s) = true).
  { destruct (ao s) as [d |]; [| reflexivity]. cbn. auto. }
  destruct (athread s) as [t |] eqn:Et; cbn; rewrite ?Et; cbn.
  - destruct (queue_sizing _) as [[qmin qmax] |]; [| discriminate].
    intros E; inversion E; subst; clear E. cbn. alive_simpl.
    rewrite (Ht t eq_refl), Hp, Hw.
    destruct (ao s) as [d |]; cbn in *; alive_simpl; now rewrite ?Ho'.
  - destruct (queue_sizing _) as [[qmin qmax] |]; [| discriminate].
    intros E; inversion E; subst; clear E. cbn.
    destruct (new_thread_fields (next_ptr s) (audioFilters w)) as (Ep & _).
    rewrite Ep. alive_simpl. rewrite Hp, Hw, orb_true_r.
    destruct (ao s) as [d |]; cbn in *; alive_simpl;
      now rewrite ?Ho', ?orb_true_r.
Qed.

Lemma setupAudioThread_addressed ff w s r s' :
  Inv s ->
  live_of is_audio_thread (log s) = athread_live s ->
  live_of is_video_thread (log s) = vthread_live s ->
  well_addressed (log s) = true ->
  setupAudioThread ff w s = Some (r, s') ->
  well_addressed (log s') = true.
Proof.
  intros HI Hat Hvt Hw.
  destruct (held_pointers s HI Hat Hvt)
    as (Hb & Hne & _ & Had & Hao & Hth & _).
  unfold setupAudioThread.
  set (s0 := reset_audio_thread ff s).
  assert (F0 : well_addressed (log s0) = true
               /\ (forall p, alive p (log s0) = alive p (log s))
               /\ next_ptr s0 = next_ptr s /\ adec s0 = adec s
               /\ ao s0 = ao s
               /\ option_map th_ptr (athread s0)
                  = option_map th_ptr (athread s)).
  { subst s0. unfold reset_audio_thread, initAudioStatistics.
    destruct (athread s) as [t |] eqn:Et; [| rewrite Et; auto 10].
    specialize (Hth t eq_refl). apply In_alive in Hth.
    cbn. destruct (audioCodecContext s); cbn; alive_simpl; rewrite Hth, Hw;
      repeat split; intros; now alive_simpl. }
  clearbody s0. destruct F0 as (Hw0 & Ha0 & En0 & Ed0 & Eo0 & Et0).
  destruct (audioCodecContext s0) as [avctx |].
  2:{ intros E; inversion E; subst; assumption. }
  set (p := next_ptr s).
  assert (F2 : let s2 := snd (new_adec w (delete_adec s0)) in
               fst (new_adec w (delete_adec s0)) = p
               /\ well_addressed (log s2) = true
               /\ alive p (log s2) = true
               /\ (forall q, alive q (log s2) = true ->
                     (q < next_ptr s2)%nat)
               /\ next_ptr s2 = S p
               /\ (forall t, athread s = Some t ->
                     alive (th_ptr t) (log s2) = true)
               /\ (forall d, ao s = Some d ->
                     alive (ao_ptr d) (log s2) = true)
               /\ ao s2 = ao s /\ ao_enabled s2 = ao_enabled s0
               /\ ao_ids s2 = ao_ids s0
               /\ option_map th_ptr (athread s2)
                  = option_map th_ptr (athread s)).
  { unfold new_adec, delete_adec. rewrite Ed0.
    destruct (adec s) as [d |] eqn:Ed; cbn; alive_simpl; rewrite ?En0;
      fold p; alive_simpl.
    - specialize (Had d eq_refl).
      rewrite Ha0, (In_alive _ _ _ Had), Hw0.
      repeat split; try assumption; try reflexivity.
      + intros q. alive_simpl. rewrite Ha0.
        destruct (Nat.eqb_spec p q); [lia |]. cbn.
        intros H. apply andb_true_iff in H as [_ H]. apply Hb in H. lia.
      + intros t Et. specialize (Hth t Et). alive_simpl.
        rewrite Ha0, (In_alive _ _ _ Hth), andb_true_r.
        apply orb_true_iff; right.
        apply negb_true_iff, Nat.eqb_neq. eapply Hne; eauto. discriminate.
      + intros d' Eo. specialize (Hao d' Eo). alive_simpl.
        rewrite Ha0, (In_alive _ _ _ Hao), andb_true_r.
        apply orb_true_iff; right.
        apply negb_true_iff, Nat.eqb_neq. eapply Hne; eauto. discriminate.
    - rewrite Hw0.
      repeat split; try assumption; try reflexivity.
      + intros q. alive_simpl. rewrite Ha0.
        destruct (Nat.eqb_spec p q); [lia |]. cbn.
        intros H. apply Hb in H. lia.
      + intros t Et. specialize (Hth t Et). alive_simpl.
        rewrite Ha0, (In_alive _ _ _ Hth). apply orb_true_r.
      + intros d' Eo. specialize (Hao d' Eo). alive_simpl.
        rewrite Ha0, (In_alive _ _ _ Hao). apply orb_true_r. }
  cbn zeta in F2.
  destruct (new_adec w (delete_adec s0)) as [p' s2]. cbn [fst snd] in F2.
  destruct F2 as (-> & Hw2 & Hp2 & Hb2 & En2 & Ht2 & Ho2 & Eo2 & Eae2 & Eai2
                  & Et2).
  destruct (ad_open w); cbn [negb].
  2:{ intros E; inversion E; subst. cbn. exact Hw2. }
  set (s3 := set_audio_decoder_name (Some p)
               (set_adec (Some (mkAudioDecoder p true)) s2)).
  assert (F3 : well_addressed (log s3) = true
               /\ alive p (log s3) = true
               /\ (forall q, alive q (log s3) = true -> (q < next_ptr s3)%nat)
               /\ next_ptr s3 = S p
               /\ (forall t, athread s3 = Some t ->
                     alive (th_ptr t) (log s3) = true
                     /\ (th_ptr t < next_ptr s3)%nat)
               /\ (forall d, ao s3 = Some d ->
                     alive (ao_ptr d) (log s3) = true)).
  { subst s3. cbn. repeat split; try assumption.
    - rewrite H in Et2. destruct (athread s) as [t0 |]; [| discriminate].
      cbn in Et2. inversion Et2 as [Et2']. rewrite Et2'. now apply Ht2.
    - rewrite H in Et2. destruct (athread s) as [t0 |]; [| discriminate].
      cbn in Et2. inversion Et2 as [Et2']. rewrite Et2'.
      apply Hb2. now apply Ht2.
    - intros d E. rewrite Eo2 in E. now apply Ho2. }
  clearbody s3. destruct F3 as (Hw3 & Hp3 & Hb3 & En3 & Ht3 & Ho3).
  assert (F4 : let s4 := find_audio_output w s3 in
               well_addressed (log s4) = true
               /\ alive p (log s4) = true
               /\ (forall t, athread s4 = Some t ->
                     alive (th_ptr t) (log s4) = true)
               /\ (forall d, ao s4 = Some d ->
                     alive (ao_ptr d) (log s4) = true)).
  { destruct (find_audio_output_addressed w s3 Hw3 Hb3 Ho3) as (A & B & C).
    pose proof (find_audio_output_frame w s3)
      as (_ & _ & _ & _ & _ & _ & _ & _ & Eat & _).
    cbn zeta in *. repeat split; try assumption.
    - rewrite B; [exact Hp3 | lia].
    - intros t Et. rewrite Eat in Et. destruct (Ht3 t Et) as [Ha Hlt].
      now rewrite B. }
  cbn zeta in F4.
  set (s4 := find_audio_output w s3) in *. clearbody s4.
  destruct F4 as (Hw4 & Hp4 & Ht4 & Ho4).
  destruct (ao s4) as [dev |] eqn:Eo4.
  2:{ apply finish_audio_setup_addressed; try assumption.
      intros d E. congruence. }
  specialize (Ho4 dev eq_refl).
  set (s5 := set_audioCodecContext _ s4).
  set (af := negotiated_format _ _). clearbody af.
  unfold reopen_audio_output.
  destruct (AudioFormat_eqb (audioFormat dev) af); cbn [negb].
  - apply finish_audio_setup_addressed; try assumption.
    intros d E. change (ao s5) with (ao s4) in E.
    rewrite Eo4 in E. inversion E; subst. exact Ho4.
  - destruct (open_ok (ao_impl dev) af); cbn [negb].
    + apply finish_audio_setup_addressed.
      * cbn. alive_simpl. now rewrite Ho4, Hw4.
      * cbn. now alive_simpl.
      * cbn. intros t Et. alive_simpl. now apply Ht4.
      * cbn. intros d E. inversion E; subst; cbn. now alive_simpl.
    + intros E; inversion E; subst; clear E. cbn. alive_simpl.
      now rewrite Ho4, Hw4.
Qed.

Lemma well_addressed_earlier l h :
  well_addressed l = true -> earlier h l -> well_addressed h = true.
Proof.
  intros H [d ->]. induction d as [| e d IH]; [exact H |].
  cbn in H. apply andb_true_iff in H as [_ H]. auto.
Qed.

Lemma reachable_well_addressed ff s :
  reachable ff s -> well_addressed (log s) = true.
Proof.
  induction 1 as
    [ vc ao_l | w s r s' Hr IH E | w s r s' Hr IH E | a v s _ IH | s _ IH
    | pkt t s _ IH Et | pkt t s _ IH Et ].
  - reflexivity.
  - destruct (reachable_threads_live ff s Hr) as [Ha Hv].
    eapply setupVideoThread_addressed; eauto using reachable_Inv.
  - destruct (reachable_threads_live ff s Hr) as [Ha Hv].
    eapply setupAudioThread_addressed; eauto using reachable_Inv.
  - exact IH.
  - unfold initVideoStatistics, initAudioStatistics.
    destruct (audioCodecContext s); cbn; destruct (videoStream s); exact IH.
  - exact IH.
  - exact IH.
Qed.

(** X22: in every state of a player the history is well addressed: every
    call was made on an object alive at the time, every deletion deleted an
    object alive at the time, so that nothing is deleted twice, and a decoder
    or an output handed to a thread or to the player was alive when handed
    over. *)
Theorem history_well_addressed ff s :
  reachable ff s ->
  well_addressed (log s) = true
  /\ forall h e, earlier (e :: h) (log s) ->
       match e with
       | On p c =>
           alive p h = true
           /\ match c with
              | setDecoder d | setOutput d => alive_opt d h = true
              | _ => True
              end
       | Delete p => alive p h = true
       | PlayerSetAudioOutput o => alive_opt o h = true
       | _ => True
       end.
Proof.
  intros Hr. pose proof (reachable_well_addressed ff s Hr) as Hw.
  split; [exact Hw |]. intros h e He.
  pose proof (well_addressed_earlier _ _ Hw He) as H.
  cbn in H. apply andb_true_iff in H as [H _].
  destruct e as [o p | o | p | p c | o | err]; try exact I; try exact H.
  apply andb_true_iff in H as [H1 H2]. split; [exact H1 |].
  destruct c; try exact I; exact H2.
Qed.

(** ** The destructor *)

Lemma Private_destroy_Inv s h :
  Inv s ->
  let s' := fst (Private_destroy s h) in
  Hist (log s') (next_ptr s') [] [] []
  /\ ao s' = None /\ adec s' = None /\ vdec s' = None
  /\ athread s' = athread s /\ vthread s' = vthread s.
Proof.
  unfold Inv, Private_destroy, vdec_live, adec_live, output_live.
  cbn [fst]. intros H.
  destruct (ao s) as [o |] eqn:Eo; cbn; destruct (adec s) as [a |] eqn:Ea;
    cbn; destruct (vdec s) as [v |] eqn:Ev; cbn; rewrite ?Eo, ?Ea, ?Ev; cbn;
    repeat split; try reflexivity;
    eauto 6 using Hist_delete_video, Hist_delete_audio, Hist_delete_output.
Qed.

Lemma live_kinds l x :
  In x (live l) <->
  In x (live_of is_decoder_or_output l)
  \/ In x (live_of is_audio_thread l) \/ In x (live_of is_video_thread l).
Proof.
  rewrite !In_live_of. destruct x as [p []]; cbn; intuition congruence.
Qed.

Lemma no_decoder_or_output l :
  live_of is_video_decoder l = [] -> live_of is_audio_decoder l = [] ->
  live_of is_audio_output l = [] -> live_of is_decoder_or_output l = [].
Proof.
  intros Hv Ha Ho.
  destruct (live_of is_decoder_or_output l) as [| x xs] eqn:E; [reflexivity |].
  assert (Hin : In x (live_of is_decoder_or_output l)) by (rewrite E; now left).
  apply In_live_of in Hin as [Hin Hk]. exfalso.
  unfold is_decoder_or_output in Hk.
  apply orb_true_iff in Hk as [Hk | Hk]; [apply orb_true_iff in Hk as [Hk | Hk] |].
  - assert (H' : In x (live_of is_video_decoder l)) by (apply In_live_of; auto).
    now rewrite Hv in H'.
  - assert (H' : In x (live_of is_audio_decoder l)) by (apply In_live_of; auto).
    now rewrite Ha in H'.
  - assert (H' : In x (live_of is_audio_output l)) by (apply In_live_of; auto).
    now rewrite Ho in H'.
Qed.

(** X23: the destructor, run in any state of a player, leaves no decoder
    and no audio output alive and deletes none of them twice; the threads
    are what stays alive; every member handed over that is not null is
    deleted once, and all members are null afterwards. *)
Theorem Private_destroy_frees ff s h :
  reachable ff s ->
  let s' := fst (Private_destroy s h) in
  let h' := fst (snd (Private_destroy s h)) in
  let ev := snd (snd (Private_destroy s h)) in
  (ao s' = None /\ adec s' = None /\ vdec s' = None)
  /\ live_of is_decoder_or_output (log s') = []
  /\ (forall x, In x (live (log s')) <->
                In x (athread_live s ++ vthread_live s))
  /\ well_addressed (log s') = true
  /\ (forall m, member h' m = false)
  /\ (forall m, In (DeleteMember m) ev <-> member h m = true)
  /\ NoDup ev.
Proof.
  intros Hr. cbn zeta.
  pose proof (reachable_Inv ff s Hr) as HI.
  destruct (reachable_ThreadInv ff s Hr) as (Ha & Hv & _).
  destruct (reachable_threads_live ff s Hr) as [La Lv].
  pose proof (reachable_well_addressed ff s Hr) as Hw.
  destruct (Private_destroy_Inv s h HI) as (H' & Eo & Ea & Ev & Eat & Evt).
  cbn zeta in *.
  assert (Hc : forall k, created k (log (fst (Private_destroy s h)))
                         = created k (log s)).
  { intros k. unfold Private_destroy. cbn [fst].
    destruct (ao s); cbn; destruct (adec s); cbn; destruct (vdec s);
      reflexivity. }
  split; [auto |].
  pose proof (Hist_sound _ _ _ _ _ H') as (_ & _ & Lv' & La' & Lo' & _).
  split; [now apply no_decoder_or_output |].
  split.
  { intros x. rewrite live_kinds, (no_decoder_or_output _ Lv' La' Lo').
    rewrite (Hist_live_created is_audio_thread _ _ _ _ _
               ltac:(intros []; cbn; congruence) H').
    rewrite (Hist_live_created is_video_thread _ _ _ _ _
               ltac:(intros []; cbn; congruence) H').
    rewrite !Hc, Ha, Hv, in_app_iff. cbn [In]. tauto. }
  split.
  { destruct (held_pointers s HI La Lv) as (_ & Hne & Hvd & Had & Hao & _).
    unfold Private_destroy. cbn [fst].
    destruct (ao s) as [o |] eqn:Eo0; cbn;
      destruct (adec s) as [a |] eqn:Ea0; cbn;
      destruct (vdec s) as [v |] eqn:Ev0; cbn; alive_simpl;
      rewrite ?Hw;
      try (pose proof (Hao o eq_refl) as Io;
           rewrite (In_alive _ _ _ Io));
      try (pose proof (Had a eq_refl) as Ia;
           rewrite (In_alive _ _ _ Ia));
      try (pose proof (Hvd v eq_refl) as Iv;
           rewrite (In_alive _ _ _ Iv));
      cbn [andb];
      repeat match goal with
        | |- context [Nat.eqb ?x ?y] =>
            replace (Nat.eqb x y) with false
              by (symmetry; apply Nat.eqb_neq; eapply Hne; eauto;
                  discriminate)
        end;
      reflexivity. }
  unfold Private_destroy, destroy_members. cbn [fst snd].
  split; [intros []; reflexivity |]. split.
  - intros m. destruct h as [a b c d e];
      cbn [vos aos vcapture clock_obj read_thread member].
    destruct m, a, b, c, d, e; cbn; intuition (try discriminate; try congruence).
  - destruct h as [a b c d e]; cbn [vos aos vcapture clock_obj read_thread].
    destruct a, b, c, d, e;
      repeat (constructor; [cbn; intuition discriminate |]); constructor.
Qed.

(** ** Channel correction, format negotiation and statistics *)

(** X3: however often [correct_audio_channels] is called again on the
    context it has corrected, the context stays as the first call left it
    and every call returns what the first returned. *)
Theorem correct_audio_channels_repeated (ff : FFmpeg) (ctx : AVCodecContext)
  (n : nat) :
  let once := correct_audio_channels ff ctx in
  let again :=
    Nat.iter n (fun c => snd (correct_audio_channels ff c)) (snd once) in
  again = snd once /\ correct_audio_channels ff again = once.
Proof.
  cbn zeta.
  set (f := fun c => snd (correct_audio_channels ff c)).
  set (x := snd (correct_audio_channels ff ctx)).
  assert (H : Nat.iter n f x = x).
  { induction n as [| n IH]; [reflexivity |].
    change (Nat.iter (S n) f x) with (f (Nat.iter n f x)). rewrite IH.
    subst f x. cbn beta. now rewrite correct_audio_channels_idempotent. }
  rewrite H. split; [reflexivity |].
  subst x. apply correct_audio_channels_idempotent.
Qed.

(** X17: the negotiated format has the stream's sample rate; its sample
    format is the stream's or the device's preferred one, is not planar
    when the preferred one is not, and is the stream's own when that is not
    planar and the device supports it. *)
Theorem negotiated_sample (dev : AudioOutputImpl) (ctx : AVCodecContext) :
  let af := negotiated_format dev ctx in
  sampleRate af = sample_rate ctx
  /\ (sampleFormat af = sample_fmt ctx
      \/ sampleFormat af = preferredSampleFormat dev)
  /\ (SampleFormat_isPlanar (preferredSampleFormat dev) = false ->
      isPlanar af = false)
  /\ (SampleFormat_isPlanar (sample_fmt ctx) = false ->
      isSupportedSampleFormat dev (sample_fmt ctx) = true ->
      sampleFormat af = sample_fmt ctx).
Proof.
  destruct ctx as [c l sr sf]. cbn zeta.
  unfold negotiated_format, isPlanar, setSampleRate, setSampleFormat,
    setChannelLayout, AudioFormat_default;
    cbn [channels channel_layout sample_rate sample_fmt sampleRate
         sampleFormat channelLayout].
  destruct (2 <? c);
    cbn [channels channel_layout sample_rate sample_fmt sampleRate
         sampleFormat channelLayout];
    destruct (SampleFormat_isPlanar sf) eqn:Epl;
    cbn [channels channel_layout sample_rate sample_fmt sampleRate
         sampleFormat channelLayout];
    match goal with
    | |- context [isSupported ?d ?f] => destruct (isSupported d f)
    end; cbn [negb sampleRate sampleFormat channelLayout];
    repeat match goal with
      | |- context [isSupportedSampleFormat ?d ?f] =>
          let E := fresh "E" in destruct (isSupportedSampleFormat d f) eqn:E
      end;
    cbn [negb sampleRate sampleFormat channelLayout];
    repeat match goal with
      | |- context [isSupportedChannelLayout ?d ?f] =>
          destruct (isSupportedChannelLayout d f)
      end;
    cbn [negb sampleRate sampleFormat channelLayout];
    repeat split; auto; intros; congruence.
Qed.

(** A backend whose answers agree: it supports a format exactly when it
    supports the format's sample format and channel layout, and it supports
    what it prefers. *)
Section CoherentDevice.

Variable dev : AudioOutputImpl.

Hypothesis isSupported_both :
  forall af,
    isSupported dev af
    = isSupportedSampleFormat dev (sampleFormat af)
      && isSupportedChannelLayout dev (channelLayout af).
Hypothesis preferred_format_supported :
  isSupportedSampleFormat dev (preferredSampleFormat dev) = true.
Hypothesis preferred_layout_supported :
  isSupportedChannelLayout dev (preferredChannelLayout dev) = true.

(** X18: for such a backend the negotiated format is one the backend
    supports, whatever the stream. *)
Theorem negotiated_supported (ctx : AVCodecContext) :
  isSupported dev (negotiated_format dev ctx) = true.
Proof.
  destruct ctx as [c l sr sf].
  unfold negotiated_format, isPlanar, setSampleRate, setSampleFormat,
    setChannelLayout, AudioFormat_default;
    cbn [channels channel_layout sample_rate sample_fmt sampleRate
         sampleFormat channelLayout].
  set (af1 := if 2 <? c then _ else _).
  set (af2 := if SampleFormat_isPlanar (sampleFormat af1) then _ else af1).
  clearbody af2. clear af1.
  destruct (isSupported dev af2) eqn:E2; cbn [negb]; [exact E2 |].
  rewrite isSupported_both.
  destruct (isSupportedSampleFormat dev (sampleFormat af2)) eqn:Ef;
    cbn [negb sampleFormat channelLayout];
    match goal with
    | |- context [if negb ?b then _ else _] => destruct b eqn:El
    end; cbn [negb sampleFormat channelLayout];
    rewrite ?Ef, ?El, ?preferred_format_supported,
      ?preferred_layout_supported; reflexivity.
Qed.

End CoherentDevice.

(** X25: [initAudioStatistics] and [initVideoStatistics] can be called
    again without effect and in either order; each leaves the other half of
    the statistics alone; without a codec context each resets its half. *)
Theorem statistics_init (ff : FFmpeg) (s : Private) :
  initAudioStatistics ff (initAudioStatistics ff s) = initAudioStatistics ff s
  /\ initVideoStatistics (initVideoStatistics s) = initVideoStatistics s
  /\ initVideoStatistics (initAudioStatistics ff s)
     = initAudioStatistics ff (initVideoStatistics s)
  /\ video_part (statistics (initAudioStatistics ff s))
     = video_part (statistics s)
  /\ audio_part (statistics (initVideoStatistics s))
     = audio_part (statistics s)
  /\ (audioCodecContext s = None ->
      audio_part (statistics (initAudioStatistics ff s))
      = audio_part Statistics_default)
  /\ (videoStream s = None ->
      video_part (statistics (initVideoStatistics s))
      = video_part Statistics_default).
Proof.
  unfold initAudioStatistics, initVideoStatistics.
  destruct s as [vc ao_l ae acc vs cl o ad vd at_ vt ra rv st n l].
  cbn. destruct acc as [c |], vs as [v |]; cbn;
    rewrite ?correct_audio_channels_idempotent;
    repeat split; intros; try discriminate; reflexivity.
Qed.

(** ** Division in binary64 *)

Lemma digits2_53 m : 2 ^ 52 <= Z.pos m < 2 ^ 53 -> Z.pos (digits2_pos m) = 53.
Proof.
  intros Hm. destruct (digits2_bounds m) as [Hl Hu].
  assert (Z.pos (digits2_pos m) <= 53) by (apply digits2_le; lia).
  assert (Hlt : 2 ^ 52 < 2 ^ Z.pos (digits2_pos m)) by lia.
  apply Z.pow_lt_mono_r_iff in Hlt; lia.
Qed.

Lemma binary_round_aux_sign sx m e l :
  binary_round_aux prec emax sx m e l
  = match binary_round_aux prec emax false m e l with
    | S754_zero _ => S754_zero sx
    | S754_infinity _ => S754_infinity sx
    | S754_finite _ m' e' => S754_finite sx m' e'
    | S754_nan => S754_nan
    end.
Proof.
  unfold binary_round_aux.
  destruct (shr_fexp prec emax m e l) as [mrs' e'].
  destruct (shr_fexp prec emax _ e' loc_Exact) as [mrs'' e''].
  destruct (shr_m mrs''); [reflexivity | | reflexivity].
  destruct (e'' <=? emax - prec); reflexivity.
Qed.

Lemma div_shape a b ma ea mb eb :
  Prim2SF a = S754_finite false ma ea ->
  Prim2SF b = S754_finite false mb eb ->
  2 ^ 52 <= Z.pos ma < 2 ^ 53 ->
  2 ^ 52 <= Z.pos mb < 2 ^ 53 ->
  -1074 <= ea - eb - 53 -> ea - eb - 51 <= 971 ->
  let e' := ea - eb - 53 in
  let q := Z.pos ma * 2 ^ 53 / Z.pos mb in
  exists k m2,
    0 <= k <= 1 /\ 2 ^ (52 + k) <= q < 2 ^ (53 + k)
    /\ q / 2 ^ k <= m2 <= q / 2 ^ k + 1
    /\ Prim2SF (a / b)
       = if m2 =? 2 ^ 53
         then S754_finite false (Z.to_pos (2 ^ 52)) (e' + k + 1)
         else S754_finite false (Z.to_pos m2) (e' + k).
Proof.
  intros Ha Hb Hma Hmb Hlo Hhi. cbn zeta.
  rewrite FloatAxioms.div_spec, Ha, Hb.
  unfold SF64div, SFdiv, SFdiv_core_binary. cbn [xorb Zdigits2].
  rewrite (digits2_53 ma Hma), (digits2_53 mb Hmb), fexp_eq.
  replace (Z.min (Z.max (53 + ea - (53 + eb) - 53) (-1074)) (ea - eb))
    with (ea - eb - 53) by lia.
  replace (ea - eb - (ea - eb - 53)) with 53 by lia.
  rewrite Z.shiftl_mul_pow2 by lia.
  pose proof (Z_div_mod (Z.pos ma * 2 ^ 53) (Z.pos mb) ltac:(lia)) as Hdiv.
  unfold Z.div.
  destruct (Z.div_eucl (Z.pos ma * 2 ^ 53) (Z.pos mb)) as [q r].
  destruct Hdiv as [Hq Hr]. cbn [fst].
  assert (Hqb : 2 ^ 52 <= q < 2 ^ 54).
  { zeval (2 ^ 52). zeval (2 ^ 53). zeval (2 ^ 54). clear - Hq Hr Hma Hmb. nia. }
  destruct q as [| pq | pq]; try (zeval (2 ^ 52); lia).
  destruct (binary_round_aux_shape pq (ea - eb - 53)
              (new_location (Z.pos mb) r))
    as (m2 & Hm2 & Hm53 & _ & Hshape).
  cbn zeta in Hm2, Hshape. rewrite Hshape. clear Hshape.
  rewrite fexp_eq in *.
  destruct (digits2_bounds pq) as [Hdl Hdu].
  assert (Hd : 53 <= Z.pos (digits2_pos pq) <= 54).
  { split.
    - assert (Hlt : 2 ^ 52 < 2 ^ Z.pos (digits2_pos pq)) by lia.
      apply Z.pow_lt_mono_r_iff in Hlt; lia.
    - apply digits2_le; lia. }
  set (k := Z.max 0 (Z.max (Z.pos (digits2_pos pq) + (ea - eb - 53) - 53)
                        (-1074) - (ea - eb - 53))) in *.
  assert (Hk : k = Z.pos (digits2_pos pq) - 53) by lia.
  exists k, m2.
  split; [lia |]. split.
  { replace (52 + k) with (Z.pos (digits2_pos pq) - 1) by lia.
    replace (53 + k) with (Z.pos (digits2_pos pq)) by lia. lia. }
  split; [exact Hm2 |].
  assert (Hm1 : 1 <= Z.pos pq / 2 ^ k).
  { apply Z.div_le_lower_bound; [apply Z.pow_pos_nonneg; lia |].
    assert (Hp : 2 ^ k <= 2 ^ 1) by (apply Z.pow_le_mono_r; lia).
    zeval (2 ^ 1). zeval (2 ^ 52). clear - Hp Hqb. lia. }
  destruct (Z.eqb_spec m2 0) as [H0 | H0]; [lia |].
  destruct (Z.eqb_spec m2 (2 ^ 53)) as [H53 | H53].
  - replace (ea - eb - 53 + k + 1 <=? 971) with true
      by (symmetry; apply Z.leb_le; lia).
    reflexivity.
  - replace (ea - eb - 53 + k <=? 971) with true
      by (symmetry; apply Z.leb_le; lia).
    reflexivity.
Qed.

Lemma of_int_normal t :
  0 < t < 2 ^ 52 ->
  exists m e,
    Prim2SF (of_int t) = S754_finite false m e
    /\ -53 < e < 0 /\ 2 ^ 52 <= Z.pos m < 2 ^ 53 /\ Z.pos m = t * 2 ^ (- e).
Proof.
  intros Ht. destruct (of_int_pos t Ht) as (m & e & Hf & He & Hm & Hmt).
  exists m, e. repeat split; try assumption; try lia.
  pose proof (Prim2SF_valid (of_int t)) as Hv. rewrite Hf in Hv.
  apply valid_finite in Hv as (_ & _ & Hn). apply Hn. lia.
Qed.

Lemma of_int_opp t :
  t < 0 -> Prim2SF (of_int t) = SFopp (Prim2SF (of_int (- t))).
Proof.
  intros Ht. unfold of_int.
  replace (t <? 0) with true by (symmetry; apply Z.ltb_lt; lia).
  replace (- t <? 0) with false by (symmetry; apply Z.ltb_ge; lia).
  apply FloatAxioms.opp_spec.
Qed.

Lemma SFdiv_finite_sign s1 m1 e1 s2 m2 e2 :
  SFdiv prec emax (S754_finite s1 m1 e1) (S754_finite s2 m2 e2)
  = if xorb s1 s2
    then SFopp (SFdiv prec emax (S754_finite false m1 e1)
                  (S754_finite false m2 e2))
    else SFdiv prec emax (S754_finite false m1 e1) (S754_finite false m2 e2).
Proof.
  unfold SFdiv.
  destruct (SFdiv_core_binary prec emax (Z.pos m1) e1 (Z.pos m2) e2)
    as [[mz ez] lz].
  cbn [xorb]. rewrite (binary_round_aux_sign (xorb s1 s2)).
  unfold binary_round_aux.
  destruct (shr_fexp prec emax mz ez lz) as [mrs' e'].
  destruct (shr_fexp prec emax _ e' loc_Exact) as [mrs'' e''].
  destruct (shr_m mrs''); [| destruct (e'' <=? emax - prec) |];
    destruct (xorb s1 s2); reflexivity.
Qed.

Lemma SFdiv_pos_sign m1 e1 m2 e2 :
  match SFdiv prec emax (S754_finite false m1 e1) (S754_finite false m2 e2)
  with
  | S754_zero s | S754_infinity s | S754_finite s _ _ => s = false
  | S754_nan => True
  end.
Proof.
  unfold SFdiv.
  destruct (SFdiv_core_binary prec emax (Z.pos m1) e1 (Z.pos m2) e2)
    as [[mz ez] lz].
  unfold binary_round_aux.
  destruct (shr_fexp prec emax mz ez lz) as [mrs' e'].
  destruct (shr_fexp prec emax _ e' loc_Exact) as [mrs'' e''].
  destruct (shr_m mrs''); [| destruct (e'' <=? emax - prec) |];
    cbn; auto.
Qed.

Lemma Prim2SF_inj x y : Prim2SF x = Prim2SF y -> x = y.
Proof.
  intros H. rewrite <- (SF2Prim_Prim2SF x), <- (SF2Prim_Prim2SF y).
  now rewrite H.
Qed.

Lemma of_int_cases n :
  - 2 ^ 52 < n < 2 ^ 52 ->
  (n = 0 /\ Prim2SF (of_int n) = S754_zero false)
  \/ (0 < n /\ exists m e, Prim2SF (of_int n) = S754_finite false m e)
  \/ (n < 0 /\ exists m e,
        Prim2SF (of_int n) = S754_finite true m e
        /\ Prim2SF (of_int (- n)) = S754_finite false m e).
Proof.
  intros Hn. destruct (Z.lt_trichotomy n 0) as [Hlt | [-> | Hgt]].
  - right; right. split; [assumption |].
    destruct (of_int_normal (- n)) as (m & e & Hf & _); [lia |].
    exists m, e. rewrite of_int_opp, Hf by assumption. auto.
  - left. split; reflexivity.
  - right; left. split; [assumption |].
    destruct (of_int_normal n) as (m & e & Hf & _); [lia |]. eauto.
Qed.

Lemma div_trunc a b ma ea mb eb :
  Prim2SF a = S754_finite false ma ea ->
  Prim2SF b = S754_finite false mb eb ->
  2 ^ 52 <= Z.pos ma < 2 ^ 53 ->
  2 ^ 52 <= Z.pos mb < 2 ^ 53 ->
  -1074 <= ea - eb - 53 -> ea - eb - 53 < 0 ->
  let e' := ea - eb - 53 in
  let q := Z.pos ma * 2 ^ 53 / Z.pos mb in
  exists k z,
    0 <= k <= 1 /\ 2 ^ (52 + k) <= q < 2 ^ (53 + k)
    /\ SFtrunc (Prim2SF (a / b)) = Some z
    /\ dyadic_trunc q e' <= z <= dyadic_trunc (q / 2 ^ k + 1) (e' + k).
Proof.
  intros Ha Hb Hma Hmb Hlo Hhi.
  destruct (div_shape a b ma ea mb eb Ha Hb Hma Hmb Hlo ltac:(lia))
    as (k & m2 & Hk & Hq & Hm2 & HR).
  cbn zeta in *.
  set (e' := ea - eb - 53) in *.
  set (q := Z.pos ma * 2 ^ 53 / Z.pos mb) in *.
  assert (Hpk : 0 < 2 ^ k) by (apply Z.pow_pos_nonneg; lia).
  assert (Hm1 : 1 <= q / 2 ^ k).
  { apply Z.div_le_lower_bound; [exact Hpk |].
    assert (2 ^ k <= 2 ^ (52 + k)) by (apply Z.pow_le_mono_r; lia). lia. }
  assert (Hz : SFtrunc (Prim2SF (a / b)) = Some (dyadic_trunc m2 (e' + k))).
  { rewrite HR. destruct (Z.eqb_spec m2 (2 ^ 53)) as [H53 | H53]; cbn [SFtrunc].
    - rewrite H53, <- dyadic_trunc_carry. reflexivity.
    - rewrite Z2Pos.id by lia. reflexivity. }
  exists k, (dyadic_trunc m2 (e' + k)).
  split; [exact Hk |]. split; [exact Hq |]. split; [exact Hz |]. split.
  - replace e' with (e' + k - k) at 1 by lia.
    rewrite <- dyadic_trunc_shift by lia. apply dyadic_trunc_mono. lia.
  - apply dyadic_trunc_mono. lia.
Qed.

(** ** The queue sizes for the frame rate of a stream *)

Lemma not_above_24 f :
  PrimFloat.ltb 24 f = false -> queue_sizing f = Some (14, 22).
Proof.
  intros H. unfold queue_sizing, queue_min, qMax.
  rewrite H, queue_min_24. now rewrite queue_max_14.
Qed.

Lemma ltb_24_neg_quotient m1 e1 m2 e2 :
  SFltb (Prim2SF 24)
    (SFopp (SFdiv prec emax (S754_finite false m1 e1)
              (S754_finite false m2 e2))) = false.
Proof.
  pose proof (SFdiv_pos_sign m1 e1 m2 e2) as Hs.
  set (x := SFdiv prec emax _ _) in *. clearbody x.
  rewrite Prim2SF_24.
  destruct x as [s | s | | s m e]; try subst s; reflexivity.
Qed.

Lemma threshold_bounded f m e :
  Prim2SF f = S754_finite false m e ->
  Z.pos m < 2 ^ 53 -> -48 <= e <= 0 ->
  24 * 2 ^ 48 < Z.pos m * 2 ^ (e + 48) <= 2 ^ 79 + 2 ^ 43 ->
  exists t, to_int (golden_low * f) = Some t /\ 14 <= t <= 1327209319.
Proof.
  intros Hf Hm He [HX HXu].
  destruct (mul_trunc golden_low f _ _ _ _ Prim2SF_golden_low Hf
              ltac:(vm_compute; reflexivity) Hm) as [_ Hcases].
  cbn zeta in Hcases.
  set (X := Z.pos m * 2 ^ (e + 48)) in *.
  destruct Hcases as [[_ Hr] | (z & Hz & Hl & Hu)]; [lia |].
  specialize (Hu ltac:(lia)).
  rewrite dyadic_trunc_scaled in Hu, Hl by lia. fold X in Hu, Hl.
  assert (Hlo : 14 <= 5566719355407575 * X / 2 ^ 101).
  { apply Z.div_le_lower_bound; [vm_compute; reflexivity |].
    zeval (24 * 2 ^ 48). zeval (2 ^ 101). clear - HX. lia. }
  assert (Hq : 5566719355407575 * X / 2 ^ 101 <= 1327209318).
  { apply Z.lt_succ_r. apply Z.div_lt_upper_bound; [vm_compute; reflexivity |].
    zeval (2 ^ 79 + 2 ^ 43). zeval (2 ^ 101). clear - HXu. lia. }
  exists z. split; [| zeval (2 ^ 53); clear - Hu Hq Hl Hlo; lia].
  apply to_int_of_trunc; [exact Hz |].
  unfold INT_MIN, INT_MAX. zeval (2 ^ 31). zeval (2 ^ 53).
  clear - Hu Hq Hl Hlo. lia.
Qed.

Lemma queue_sizing_quotient n d :
  0 < n <= 2 ^ 31 -> 0 < d <= 2 ^ 31 ->
  exists t c, queue_sizing (PrimFloat.div (of_int n) (of_int d)) = Some (t, c).
Proof.
  intros Hn Hd.
  set (f := PrimFloat.div (of_int n) (of_int d)).
  destruct (PrimFloat.ltb 24 f) eqn:Hlt;
    [| rewrite (not_above_24 f Hlt); eauto].
  destruct (of_int_normal n) as (ma & ea & Ha & Hea & Hma & Hman).
  { zeval (2 ^ 31). zeval (2 ^ 52). lia. }
  destruct (of_int_normal d) as (mb & eb & Hb & Heb & Hmb & Hmbd).
  { zeval (2 ^ 31). zeval (2 ^ 52). lia. }
  destruct (div_shape _ _ _ _ _ _ Ha Hb Hma Hmb ltac:(lia) ltac:(lia))
    as (k & m2 & Hk & Hq & Hm2 & HR).
  cbn zeta in *. fold f in HR.
  set (e' := ea - eb - 53) in *.
  set (q := Z.pos ma * 2 ^ 53 / Z.pos mb) in *.
  assert (Hqu : q <= 2 ^ (31 - e')).
  { assert (H1 : q * Z.pos mb <= Z.pos ma * 2 ^ 53).
    { subst q. rewrite Z.mul_comm. apply Z.mul_div_le. lia. }
    assert (H2 : 2 ^ (- eb) <= Z.pos mb).
    { rewrite Hmbd. assert (0 < 2 ^ (- eb)) by (apply Z.pow_pos_nonneg; lia).
      nia. }
    assert (H3 : Z.pos ma * 2 ^ 53 <= 2 ^ (31 - e') * 2 ^ (- eb)).
    { rewrite Hman, <- Z.pow_add_r by lia.
      replace (31 - e' + - eb) with (31 + (- ea) + 53) by lia.
      rewrite !Z.pow_add_r by lia.
      assert (0 < 2 ^ (- ea)) by (apply Z.pow_pos_nonneg; lia).
      assert (0 < 2 ^ 53) by (apply Z.pow_pos_nonneg; lia).
      apply Z.mul_le_mono_nonneg_r; [lia |].
      apply Z.mul_le_mono_nonneg_r; lia. }
    assert (H4 : 0 < 2 ^ (- eb)) by (apply Z.pow_pos_nonneg; lia).
    assert (H5 : 0 <= q) by (assert (0 < 2 ^ (52 + k)) by (apply Z.pow_pos_nonneg; lia); lia).
    apply (Z.mul_le_mono_pos_r _ _ (2 ^ (- eb))); [exact H4 |].
    clear - H1 H2 H3 H4 H5. nia. }
  assert (Hek : e' + k <= -21).
  { assert (Hlt' : 2 ^ (52 + k) <= 2 ^ (31 - e')) by lia.
    apply Z.pow_le_mono_r_iff in Hlt'; lia. }
  set (j := 31 - e' - k) in *.
  assert (Hqk : q / 2 ^ k <= 2 ^ j).
  { apply Z.div_le_upper_bound; [apply Z.pow_pos_nonneg; lia |].
    rewrite <- Z.pow_add_r by lia. replace (k + j) with (31 - e') by lia.
    exact Hqu. }
  destruct (above_24 f Hlt) as [Hinf | (m & e & Hf & He & Hm & HX)].
  { rewrite HR in Hinf. destruct (m2 =? 2 ^ 53); discriminate. }
  assert (Hme : Z.pos m * 2 ^ (e + 48) <= 2 ^ 79 + 2 ^ 43 /\ e <= 0).
  { rewrite HR in Hf.
    assert (Hj : forall x, 0 <= x <= 2 ^ j + 1 -> 52 <= j <= 79 ->
                           x * 2 ^ (79 - j) <= 2 ^ 79 + 2 ^ 43).
    { intros x Hx Hj'.
      assert (x * 2 ^ (79 - j) <= (2 ^ j + 1) * 2 ^ (79 - j))
        by (apply Z.mul_le_mono_nonneg_r; [apply Z.pow_nonneg |]; lia).
      rewrite Z.mul_add_distr_r, <- Z.pow_add_r, Z.mul_1_l in H by lia.
      replace (j + (79 - j)) with 79 in H by lia.
      assert (2 ^ (79 - j) <= 2 ^ 43) by (apply Z.pow_le_mono_r; lia).
      lia. }
    destruct (Z.eqb_spec m2 (2 ^ 53)) as [H53 | H53].
    - inversion Hf; subst m e. split; [| lia].
      assert (Hj53 : 53 <= j).
      { destruct (Z.le_gt_cases 53 j) as [| Hlt']; [assumption |].
        assert (2 ^ j <= 2 ^ 52) by (apply Z.pow_le_mono_r; lia).
        zeval (2 ^ 52). zeval (2 ^ 53). lia. }
      replace (e' + k + 1 + 48) with (80 - j) by lia.
      assert (Hp : 2 ^ (80 - j) <= 2 ^ 27) by (apply Z.pow_le_mono_r; lia).
      zeval (Z.pos (Z.to_pos (2 ^ 52))). zeval (2 ^ 27).
      zeval (2 ^ 79 + 2 ^ 43). clear - Hp. lia.
    - inversion Hf; subst m e. split; [| lia].
      assert (0 < m2).
      { assert (0 < 2 ^ (52 + k)) by (apply Z.pow_pos_nonneg; lia).
        assert (1 <= q / 2 ^ k).
        { apply Z.div_le_lower_bound; [apply Z.pow_pos_nonneg; lia |].
          assert (2 ^ k <= 2 ^ (52 + k)) by (apply Z.pow_le_mono_r; lia).
          lia. }
        lia. }
      rewrite Z2Pos.id by lia.
      replace (e' + k + 48) with (79 - j) by lia.
      apply Hj; lia. }
  destruct Hme as [HXu Heu].
  destruct (threshold_bounded f m e Hf Hm ltac:(lia) (conj HX HXu))
    as (t & Ht & Htl & Htu).
  destruct (capacity_above_threshold t) as (_ & _ & Hc).
  { unfold INT_MAX. zeval (2 ^ 31 - 1). lia. }
  destruct (Hc Htu) as (c & Hc').
  exists t, c. unfold queue_sizing, queue_min, qMax, queue_max.
  fold f. rewrite Hlt, Ht, Hc'. reflexivity.
Qed.

(** X4: for a frame rate read from a stream, [av_q2d] of a rational of two
    [int]s, the queue sizes are undefined exactly when the denominator is
    zero and the numerator positive (the frame rate is then infinite and
    the conversion to [int] has no value); for every other rational,
    0/0 and negative ones included, they are defined. *)
Theorem queue_sizing_rational (r : AVRational) :
  in_int (num r) = true -> in_int (den r) = true ->
  (queue_sizing (av_q2d r) = None <-> den r = 0 /\ 0 < num r).
Proof.
  destruct r as [n d]. cbn [num den]. unfold av_q2d; cbn [num den].
  unfold in_int, INT_MIN, INT_MAX. zeval (- 2 ^ 31). zeval (2 ^ 31 - 1).
  intros Hn Hd.
  apply andb_true_iff in Hn as [Hn1 Hn2]. apply andb_true_iff in Hd as [Hd1 Hd2].
  apply Z.leb_le in Hn1, Hn2, Hd1, Hd2.
  set (f := PrimFloat.div (of_int n) (of_int d)).
  assert (Hf : Prim2SF f = SFdiv prec emax (Prim2SF (of_int n))
                             (Prim2SF (of_int d)))
    by apply FloatAxioms.div_spec.
  assert (Hsome : forall t c, queue_sizing f = Some (t, c) ->
                  (queue_sizing f = None <-> d = 0 /\ 0 < n) ->
                  (queue_sizing f = None <-> d = 0 /\ 0 < n)) by auto.
  assert (Hlow : SFltb (Prim2SF 24) (Prim2SF f) = false ->
                 ~ (d = 0 /\ 0 < n) ->
                 (queue_sizing f = None <-> d = 0 /\ 0 < n)).
  { intros H Hno. rewrite <- FloatAxioms.ltb_spec in H.
    rewrite (not_above_24 f H). split; [discriminate | tauto]. }
  destruct (of_int_cases n) as [[-> Hn0] | [[Hnp (ma & ea & Ha)]
                                           | [Hnn (ma & ea & Ha & Ha')]]];
    [zeval (2 ^ 52); lia | | |];
    (destruct (of_int_cases d) as [[-> Hd0] | [[Hdp (mb & eb & Hb)]
                                             | [Hdn (mb & eb & Hb & Hb')]]];
     [zeval (2 ^ 52); lia | | |]).
  - apply Hlow; [| lia]. rewrite Hf, Hn0. reflexivity.
  - apply Hlow; [| lia]. rewrite Hf, Hn0, Hb. reflexivity.
  - apply Hlow; [| lia]. rewrite Hf, Hn0, Hb. reflexivity.
  - (* n > 0, d = 0 *)
    split; [intros _; lia | intros _].
    assert (Hinf : Prim2SF f = S754_infinity false)
      by (rewrite Hf, Ha, Hd0; reflexivity).
    unfold queue_sizing, queue_min, qMax.
    replace (PrimFloat.ltb 24 f) with true
      by (rewrite FloatAxioms.ltb_spec, Hinf; reflexivity).
    unfold to_int.
    rewrite FloatAxioms.mul_spec, Prim2SF_golden_low, Hinf. reflexivity.
  - destruct (queue_sizing_quotient n d ltac:(lia) ltac:(lia)) as (t & c & E).
    fold f in E. rewrite E. split; [discriminate | lia].
  - apply Hlow; [| lia]. rewrite Hf, Ha, Hb, SFdiv_finite_sign. cbn [xorb].
    apply ltb_24_neg_quotient.
  - apply Hlow; [| lia]. rewrite Hf, Ha, Hd0. reflexivity.
  - apply Hlow; [| lia]. rewrite Hf, Ha, Hb, SFdiv_finite_sign. cbn [xorb].
    apply ltb_24_neg_quotient.
  - destruct (queue_sizing_quotient (- n) (- d) ltac:(lia) ltac:(lia))
      as (t & c & E).
    assert (Ef : f = PrimFloat.div (of_int (- n)) (of_int (- d))).
    { apply Prim2SF_inj. rewrite Hf, FloatAxioms.div_spec, Ha, Hb, Ha', Hb'.
      now rewrite SFdiv_finite_sign. }
    rewrite <- Ef in E. rewrite E. split; [discriminate | lia].
Qed.

Lemma first_success w ids :
  (exists c, In c ids /\ succeeds w c = true) ->
  exists pre b post,
    ids = pre ++ b :: post
    /\ (forall c, In c pre -> succeeds w c = false)
    /\ succeeds w b = true.
Proof.
  induction ids as [| a ids IH]; intros (c & Hin & Hc); [contradiction |].
  destruct (succeeds w a) eqn:Ea.
  - exists [], a, ids. repeat split; [contradiction | assumption].
  - destruct IH as (pre & b & post & -> & Hf & Hb).
    { destruct Hin as [-> | Hin]; [congruence | eauto]. }
    exists (a :: pre), b, post. repeat split; try assumption.
    intros x [<- | Hx]; auto.
Qed.

(** X5: with a video stream and a candidate that succeeds, the video
    set-up has no defined result when the queue sizes for the frame rate
    used are undefined: the decoder is selected and the conversion to [int]
    of line 457 or 458 has no value. *)
Theorem setupVideoThread_undefined w s :
  videoStream s <> None ->
  (exists c, In c (vc_ids s) /\ succeeds w c = true) ->
  queue_sizing (frame_rate_used s) = None ->
  setupVideoThread w s = None.
Proof.
  intros Hvs Hex Hq. unfold setupVideoThread.
  set (s0 := reset_video_thread s).
  assert (F0 : videoStream s0 = videoStream s /\ vc_ids s0 = vc_ids s
               /\ video_only_frame_rate (statistics s0) = frame_rate_used s).
  { subst s0. unfold reset_video_thread, initVideoStatistics, frame_rate_used.
    destruct (vthread s) as [t |]; [| auto].
    cbn. destruct (videoStream s) as [vs |] eqn:Evs; cbn; rewrite Evs;
      repeat split; try reflexivity. now elim Hvs. }
  clearbody s0. destruct F0 as (Evs & Evc & Efr). rewrite Evs.
  destruct (videoStream s) as [vs |]; [clear Hvs | now elim Hvs].
  destruct (delete_vdec_frame s0) as (F1 & _).
  cbn zeta in *. set (s1 := delete_vdec s0) in *. clearbody s1.
  destruct F1 as (Ec1 & _ & _ & _ & _ & _ & _ & _ & _ & _ & _ & _ & Est1).
  rewrite Ec1, Evc. rewrite <- Efr, <- Est1 in Hq. clear Efr Est1 Ec1 Evc Evs.
  destruct (first_success w (vc_ids s) Hex) as (pre & b & post & Eids & Hf & Hb).
  rewrite Eids. rewrite try_video_decoders_app by assumption.
  pose proof (try_video_decoders_frame w pre s1)
    as (_ & _ & _ & _ & _ & _ & _ & _ & _ & _ & _ & _ & Est2).
  set (s2 := try_video_decoders w pre s1) in *. clearbody s2.
  rewrite <- Est2 in Hq. clear Est2.
  unfold succeeds in Hb.
  apply andb_true_iff in Hb as [Hb Ho].
  apply andb_true_iff in Hb as [Hc Hp].
  cbn. rewrite Hc, Hp, Ho. cbn.
  unfold install_video_decoder.
  destruct (vthread s2) as [t |] eqn:Et; cbn; rewrite ?Et; cbn;
    rewrite Hq; reflexivity.
Qed.

(** ** The notification precision at high and low frame rates *)

Lemma Prim2SF_50 :
  Prim2SF 50 = S754_finite false 7036874417766400 (-47).
Proof. vm_compute. reflexivity. Qed.

Lemma Prim2SF_4 : Prim2SF 4 = S754_finite false 4503599627370496 (-50).
Proof. vm_compute. reflexivity. Qed.

Lemma notify_quotient fps m e :
  Prim2SF fps = S754_finite false m e ->
  -52 <= e <= 971 -> 2 ^ 52 <= Z.pos m < 2 ^ 53 ->
  let Q := 1000 * 2 ^ 96 / Z.pos m in
  exists k z,
    0 <= k <= 1
    /\ to_int (PrimFloat.div (of_int (500 * 2)) fps) = Some z
    /\ Q / 2 ^ (96 + e) <= z <= (Q / 2 ^ k + 1) / 2 ^ (96 + e - k).
Proof.
  intros Hf He Hm. cbn zeta.
  destruct (div_trunc _ fps _ _ _ _ Prim2SF_1000 Hf
              ltac:(vm_compute; split; [discriminate | reflexivity]) Hm
              ltac:(lia) ltac:(lia))
    as (k & z & Hk & Hq & Hz & Hl & Hu).
  cbn zeta in *.
  replace (Z.pos 8796093022208000 * 2 ^ 53) with (1000 * 2 ^ 96) in *
    by (vm_compute; reflexivity).
  set (Q := 1000 * 2 ^ 96 / Z.pos m) in *.
  unfold dyadic_trunc in Hl, Hu.
  replace (0 <=? -43 - e - 53) with false in Hl
    by (symmetry; apply Z.leb_gt; lia).
  replace (0 <=? -43 - e - 53 + k) with false in Hu
    by (symmetry; apply Z.leb_gt; lia).
  replace (- (-43 - e - 53)) with (96 + e) in Hl by lia.
  replace (- (-43 - e - 53 + k)) with (96 + e - k) in Hu by lia.
  exists k, z. split; [exact Hk |]. split; [| split; assumption].
  apply to_int_of_trunc; [exact Hz |].
  assert (HQ : 0 <= Q <= 1000 * 2 ^ 44).
  { subst Q. split; [apply Z.div_pos; lia |].
    apply Z.div_le_upper_bound; [lia |].
    zeval (2 ^ 52). zeval (1000 * 2 ^ 96). zeval (1000 * 2 ^ 44).
    clear - Hm. lia. }
  assert (H0 : 0 <= Q / 2 ^ (96 + e))
    by (apply Z.div_pos; [lia | apply Z.pow_pos_nonneg; lia]).
  assert (Hup : (Q / 2 ^ k + 1) / 2 ^ (96 + e - k) <= 4000).
  { assert (Hp : 2 ^ 43 <= 2 ^ (96 + e - k)) by (apply Z.pow_le_mono_r; lia).
    assert (Hqk : Q / 2 ^ k <= Q)
      by (apply Z.div_le_upper_bound;
          [apply Z.pow_pos_nonneg; lia
          | assert (0 < 2 ^ k) by (apply Z.pow_pos_nonneg; lia); nia]).
    apply Z.lt_succ_r. apply Z.div_lt_upper_bound; [lia |].
    zeval (2 ^ 43). zeval (1000 * 2 ^ 44). unfold Z.succ.
    clear - Hp Hqk HQ. nia. }
  unfold INT_MIN, INT_MAX. zeval (2 ^ 31). clear - Hl Hu H0 Hup. lia.
Qed.

Lemma above_50 f :
  PrimFloat.leb 50 f = true ->
  PrimFloat.ltb 1 f = true
  /\ (Prim2SF f = S754_infinity false
      \/ exists m e,
          Prim2SF f = S754_finite false m e
          /\ -47 <= e <= 971 /\ 2 ^ 52 <= Z.pos m < 2 ^ 53
          /\ 50 * 2 ^ 47 <= Z.pos m * 2 ^ (e + 47)).
Proof.
  rewrite FloatAxioms.leb_spec, FloatAxioms.ltb_spec, Prim2SF_50, Prim2SF_1.
  pose proof (Prim2SF_valid f) as Hv.
  destruct (Prim2SF f) as [s | s | | s m e]; unfold SFleb, SFltb, SFcompare.
  - discriminate.
  - destruct s; [discriminate | auto].
  - discriminate.
  - destruct s; [discriminate |].
    apply valid_finite in Hv as (Hm & He & Hn).
    destruct (Z.compare_spec (-47) e) as [<- | Hlt | Hgt]; try discriminate.
    + rewrite Pos.compare_cont_spec. cbn [Pos.switch_Eq].
      destruct (Pos.compare_spec 7036874417766400 m) as [<- | Hm' |];
        try discriminate; intros _.
      * split; [reflexivity |]. right. eexists _, (-47).
        split; [reflexivity |]. split; [lia |].
        split; [vm_compute; split; [discriminate | reflexivity] |].
        vm_compute. discriminate.
      * split; [reflexivity |]. right. exists m, (-47).
        split; [reflexivity |]. split; [lia |].
        split; [split; [apply Hn; lia | exact Hm] |].
        apply Pos2Z.pos_lt_pos in Hm'.
        change (2 ^ (-47 + 47)) with 1. zeval (50 * 2 ^ 47). clear - Hm'. lia.
    + intros _. split.
      * destruct (Z.compare_spec (-52) e); try lia; reflexivity.
      * right. exists m, e.
        split; [reflexivity |]. split; [lia |].
        specialize (Hn ltac:(lia)).
        split; [split; assumption |].
        assert (H2 : 2 ^ 1 <= 2 ^ (e + 47)) by (apply Z.pow_le_mono_r; lia).
        zeval (2 ^ 1). zeval (50 * 2 ^ 47). zeval (2 ^ 52).
        clear - H2 Hn. nia.
Qed.

Lemma at_most_4 f :
  PrimFloat.ltb 1 f = true -> PrimFloat.leb f 4 = true ->
  exists m e,
    Prim2SF f = S754_finite false m e
    /\ -52 <= e <= -50 /\ 2 ^ 52 <= Z.pos m < 2 ^ 53
    /\ Z.pos m * 2 ^ (e + 52) <= 2 ^ 54.
Proof.
  intros H1 H4. rewrite FloatAxioms.leb_spec, Prim2SF_4 in H4.
  destruct (above_1 f H1) as [Hinf | (m & e & Hf & He & Hm)].
  - rewrite Hinf in H4. discriminate.
  - rewrite Hf in H4. unfold SFleb, SFcompare in H4.
    exists m, e. split; [exact Hf |].
    destruct (Z.compare_spec e (-50)) as [Ee | Hlt | Hgt]; try discriminate.
    + rewrite Pos.compare_cont_spec in H4. cbn [Pos.switch_Eq] in H4.
      destruct (Pos.compare_spec m 4503599627370496) as [Em | Hm' |];
        try discriminate.
      * split; [lia |]. split; [exact Hm |]. rewrite Ee, Em.
        vm_compute. discriminate.
      * apply Pos2Z.pos_lt_pos in Hm'. zeval (2 ^ 52). lia.
    + split; [lia |]. split; [exact Hm |].
      assert (H2 : 2 ^ (e + 52) <= 2 ^ 1) by (apply Z.pow_le_mono_r; lia).
      assert (H3 : 0 < 2 ^ (e + 52)) by (apply Z.pow_pos_nonneg; lia).
      zeval (2 ^ 1). zeval (2 ^ 53). zeval (2 ^ 54). clear - H2 H3 Hm. nia.
Qed.

(** X2: for a duration up to 20 seconds: at 50 frames per second or more,
    infinity included, the precision is the minimum, 20 ms; at a frame rate
    above 1 and up to 4 it is 250 ms; at a frame rate not above 1, NaN
    included, it is an eightieth of the duration, at least 20 and at most
    250 as the comment in the code says. *)
Theorem computeNotifyPrecision_frame_rate (duration : Z) (fps : float) :
  0 < duration <= 20000 ->
  (PrimFloat.leb 50 fps = true ->
   Internal.computeNotifyPrecision duration fps = Some 20)
  /\ (PrimFloat.ltb 1 fps = true -> PrimFloat.leb fps 4 = true ->
      Internal.computeNotifyPrecision duration fps = Some 250)
  /\ (PrimFloat.ltb 1 fps = false ->
      Internal.computeNotifyPrecision duration fps
      = Some (Z.max 20 (duration / 80))
      /\ duration / 80 <= 250).
Proof.
  intros Hd.
  assert (Hbr : forall z,
             PrimFloat.ltb 1 fps = true ->
             to_int (PrimFloat.div (of_int (500 * 2)) fps) = Some z ->
             Internal.computeNotifyPrecision duration fps
             = Some (Z.max 20 (Z.min 250 z))).
  { intros z H1 Hz. unfold Internal.computeNotifyPrecision.
    replace (duration <=? 0) with false by (symmetry; apply Z.leb_gt; lia).
    replace (60 * 1000 <? duration) with false
      by (symmetry; apply Z.ltb_ge; lia).
    replace (20 * 1000 <? duration) with false
      by (symmetry; apply Z.ltb_ge; lia).
    cbn [orb]. now rewrite H1, Hz. }
  split; [| split].
  - intros H50. destruct (above_50 fps H50) as [H1 [Hinf | Hfin]].
    + rewrite (Hbr 0 H1); [reflexivity |].
      unfold to_int.
      rewrite FloatAxioms.div_spec, Prim2SF_1000, Hinf. reflexivity.
    + destruct Hfin as (m & e & Hf & He & Hm & HX).
      destruct (notify_quotient fps m e Hf ltac:(lia) Hm)
        as (k & z & Hk & Hz & _ & Hu).
      cbn zeta in Hu. set (Q := 1000 * 2 ^ 96 / Z.pos m) in *.
      rewrite (Hbr z H1 Hz). f_equal.
      enough (z <= 20) by lia.
      etransitivity; [exact Hu |].
      assert (HQ : Q <= 20 * 2 ^ (96 + e)).
      { subst Q. apply Z.div_le_upper_bound; [lia |].
        replace (96 + e) with (49 + (e + 47)) by lia.
        rewrite Z.pow_add_r by lia.
        zeval (50 * 2 ^ 47). zeval (1000 * 2 ^ 96). zeval (2 ^ 49).
        clear - HX. nia. }
      assert (Hpk : 0 < 2 ^ k) by (apply Z.pow_pos_nonneg; lia).
      assert (HQk : Q / 2 ^ k <= 20 * 2 ^ (96 + e - k)).
      { apply Z.div_le_upper_bound; [exact Hpk |].
        replace (2 ^ k * (20 * 2 ^ (96 + e - k)))
          with (20 * (2 ^ k * 2 ^ (96 + e - k))) by ring.
        rewrite <- Z.pow_add_r by lia.
        replace (k + (96 + e - k)) with (96 + e) by lia. exact HQ. }
      assert (Hp : 2 ^ 1 <= 2 ^ (96 + e - k)) by (apply Z.pow_le_mono_r; lia).
      zeval (2 ^ 1).
      apply Z.lt_succ_r. apply Z.div_lt_upper_bound; [lia |].
      unfold Z.succ. clear - HQk Hp. lia.
  - intros H1 H4. destruct (at_most_4 fps H1 H4) as (m & e & Hf & He & Hm & HX).
    destruct (notify_quotient fps m e Hf ltac:(lia) Hm)
      as (k & z & Hk & Hz & Hl & _).
    cbn zeta in Hl. set (Q := 1000 * 2 ^ 96 / Z.pos m) in *.
    rewrite (Hbr z H1 Hz). f_equal.
    enough (250 <= z) by lia.
    etransitivity; [| exact Hl].
    assert (Hp : 0 < 2 ^ (96 + e)) by (apply Z.pow_pos_nonneg; lia).
    apply Z.div_le_lower_bound; [exact Hp |].
    subst Q. apply Z.div_le_lower_bound; [lia |].
    replace (96 + e) with (44 + (e + 52)) by lia.
    rewrite Z.pow_add_r by lia.
    zeval (2 ^ 54). zeval (1000 * 2 ^ 96). zeval (2 ^ 44).
    clear - HX. nia.
  - intros H1. split.
    + unfold Internal.computeNotifyPrecision.
      replace (duration <=? 0) with false by (symmetry; apply Z.leb_gt; lia).
      replace (60 * 1000 <? duration) with false
        by (symmetry; apply Z.ltb_ge; lia).
      replace (20 * 1000 <? duration) with false
        by (symmetry; apply Z.ltb_ge; lia).
      cbn [orb]. rewrite H1. now rewrite Z.quot_div_nonneg by lia.
    + apply Z.lt_succ_r, Z.div_lt_upper_bound; lia.
Qed.

(** ** The times of a stream *)

Lemma SFmul_not_a_value_r x y :
  not_a_value y -> not_a_value (SFmul prec emax x y).
Proof. destruct x as [| | | ? ? ?], y as [| | | ? ? ?]; cbn; tauto. Qed.

Lemma SFmul_not_a_value_l x s m e :
  not_a_value x -> not_a_value (SFmul prec emax x (S754_finite s m e)).
Proof. destruct x as [| | | ? ? ?]; cbn; tauto. Qed.

Lemma Prim2SF_thousand :
  Prim2SF 1000 = S754_finite false 8796093022208000 (-43).
Proof. vm_compute. reflexivity. Qed.

Lemma av_q2d_zero_den n :
  in_int n = true -> not_a_value (Prim2SF (av_q2d (mkAVRational n 0))).
Proof.
  unfold in_int, INT_MIN, INT_MAX. zeval (- 2 ^ 31). zeval (2 ^ 31 - 1).
  intros Hn. apply andb_true_iff in Hn as [Hn1 Hn2].
  apply Z.leb_le in Hn1, Hn2.
  unfold av_q2d; cbn [num den]. rewrite FloatAxioms.div_spec.
  change (Prim2SF (of_int 0)) with (S754_zero false).
  destruct (of_int_cases n) as [[-> Hn0] | [[_ (m & e & ->)]
                                          | [_ (m & e & -> & _)]]];
    [zeval (2 ^ 52); lia | | |]; cbn; exact I.
Qed.

Lemma quotient_finite n d :
  in_int n = true -> in_int d = true -> n <> 0 -> d <> 0 ->
  exists s m e, Prim2SF (PrimFloat.div (of_int n) (of_int d))
                = S754_finite s m e.
Proof.
  unfold in_int, INT_MIN, INT_MAX. zeval (- 2 ^ 31). zeval (2 ^ 31 - 1).
  intros Hn Hd Hn0 Hd0.
  apply andb_true_iff in Hn as [Hn1 Hn2]. apply andb_true_iff in Hd as [Hd1 Hd2].
  apply Z.leb_le in Hn1, Hn2, Hd1, Hd2.
  assert (Hpos : forall a b, 0 < a <= 2 ^ 31 -> 0 < b <= 2 ^ 31 ->
            exists ma ea mb eb m e,
              Prim2SF (of_int a) = S754_finite false ma ea
              /\ Prim2SF (of_int b) = S754_finite false mb eb
              /\ SFdiv prec emax (S754_finite false ma ea)
                   (S754_finite false mb eb) = S754_finite false m e).
  { intros a b Ha Hb.
    destruct (of_int_normal a) as (ma & ea & Ea & Hea & Hma & _).
    { zeval (2 ^ 31). zeval (2 ^ 52). lia. }
    destruct (of_int_normal b) as (mb & eb & Eb & Heb & Hmb & _).
    { zeval (2 ^ 31). zeval (2 ^ 52). lia. }
    destruct (div_shape _ _ _ _ _ _ Ea Eb Hma Hmb ltac:(lia) ltac:(lia))
      as (k & m2 & _ & _ & _ & HR).
    cbn zeta in HR. rewrite FloatAxioms.div_spec, Ea, Eb in HR.
    exists ma, ea, mb, eb. unfold SF64div in HR. rewrite HR.
    destruct (m2 =? 2 ^ 53); eauto. }
  rewrite FloatAxioms.div_spec. unfold SF64div.
  destruct (Z.lt_trichotomy n 0) as [Hnn | [-> | Hnp]]; [| lia |];
    destruct (Z.lt_trichotomy d 0) as [Hdn | [-> | Hdp]]; try lia.
  - destruct (Hpos (- n) (- d)) as (ma & ea & mb & eb & m & e & Ea & Eb & E);
      [zeval (2 ^ 31); lia | zeval (2 ^ 31); lia |].
    rewrite (of_int_opp n), (of_int_opp d), Ea, Eb by assumption. cbn [SFopp negb].
    rewrite SFdiv_finite_sign, E. cbn. eauto.
  - destruct (Hpos (- n) d) as (ma & ea & mb & eb & m & e & Ea & Eb & E);
      [zeval (2 ^ 31); lia | zeval (2 ^ 31); lia |].
    rewrite (of_int_opp n), Ea, Eb by assumption. cbn [SFopp negb].
    rewrite SFdiv_finite_sign, E. cbn. eauto.
  - destruct (Hpos n (- d)) as (ma & ea & mb & eb & m & e & Ea & Eb & E);
      [zeval (2 ^ 31); lia | zeval (2 ^ 31); lia |].
    rewrite (of_int_opp d), Ea, Eb by assumption. cbn [SFopp negb].
    rewrite SFdiv_finite_sign, E. cbn. eauto.
  - destruct (Hpos n d) as (ma & ea & mb & eb & m & e & Ea & Eb & E);
      [zeval (2 ^ 31); lia | zeval (2 ^ 31); lia |].
    rewrite Ea, Eb, E. eauto.
Qed.

(** X24: the time of a stream in milliseconds: an unknown time
    ([AV_NOPTS_VALUE]) gives 0; with a time base of denominator 0 every
    known time has no defined value (the product is infinite or NaN, the
    case the comment at line 219 asks about); a time of 0 gives 0 for every
    time base of two [int]s with a denominator that is not 0. *)
Theorem stream_msecs_edges (ts : Z) (tb : AVRational) :
  stream_msecs AV_NOPTS_VALUE tb = Some 0
  /\ (ts <> AV_NOPTS_VALUE -> den tb = 0 -> in_int (num tb) = true ->
      stream_msecs ts tb = None)
  /\ (den tb <> 0 -> in_int (num tb) = true -> in_int (den tb) = true ->
      stream_msecs 0 tb = Some 0).
Proof.
  split; [reflexivity |]. split.
  - intros Hts Hd Hn. unfold stream_msecs.
    replace (ts =? AV_NOPTS_VALUE) with false
      by (symmetry; now apply Z.eqb_neq).
    destruct tb as [n d]. cbn [num den] in *. subst d.
    pose proof (av_q2d_zero_den n Hn) as Hq.
    unfold to_int.
    rewrite FloatAxioms.mul_spec, FloatAxioms.mul_spec, Prim2SF_thousand.
    unfold SF64mul.
    pose proof (SFmul_not_a_value_l _ false 8796093022208000 (-43)
                  (SFmul_not_a_value_r (Prim2SF (of_int64 ts)) _ Hq)) as H.
    destruct (SFmul prec emax (SFmul prec emax _ _) _); cbn in H;
      try contradiction; reflexivity.
  - intros Hd Hn Hdi. unfold stream_msecs.
    change (0 =? AV_NOPTS_VALUE) with false. cbn match.
    destruct tb as [n d]. cbn [num den] in *. unfold av_q2d; cbn [num den].
    unfold to_int.
    rewrite FloatAxioms.mul_spec, FloatAxioms.mul_spec, Prim2SF_thousand.
    unfold SF64mul. change (Prim2SF (of_int64 0)) with (S754_zero false).
    destruct (Z.eq_dec n 0) as [-> | Hn0].
    + rewrite FloatAxioms.div_spec.
      change (Prim2SF (of_int 0)) with (S754_zero false).
      assert (Hdr : - 2 ^ 52 < d < 2 ^ 52).
      { unfold in_int, INT_MIN, INT_MAX in Hdi. zeval (- 2 ^ 31).
        zeval (2 ^ 31 - 1). zeval (2 ^ 52).
        apply andb_true_iff in Hdi as [H1 H2]. apply Z.leb_le in H1, H2. lia. }
      destruct (of_int_cases d Hdr) as [[-> _] | [[_ (m & e & ->)]
                                                 | [_ (m & e & -> & _)]]];
        [contradiction | |]; reflexivity.
    + destruct (quotient_finite n d Hn Hdi Hn0 Hd) as (s & m & e & ->).
      reflexivity.
Qed.

(** ** The properties above at concrete players *)

Lemma av_s1_reachable : reachable Examples.ffmpeg Examples.av_s1.
Proof.
  apply (reach_video _ Examples.world_filtered Examples.av_s0 true).
  - apply (reach_streams Examples.ffmpeg (Some Examples.stereo_ctx)
             (Some Examples.a_video_stream)).
    apply reach_init.
  - vm_compute; reflexivity.
Qed.

Lemma av_s2_reachable : reachable Examples.ffmpeg Examples.av_s2.
Proof.
  apply (reach_audio _ Examples.world_filtered Examples.av_s1 true).
  - exact av_s1_reachable.
  - vm_compute; reflexivity.
Qed.

Lemma thread_lifetime_witness :
  let s := Examples.av_s2 in
  (created is_audio_thread (log s) = athread_live s
   /\ live_of is_audio_thread (log s) = athread_live s
   /\ read_thread_audio s = option_map th_ptr (athread s))
  /\ (created is_video_thread (log s) = vthread_live s
      /\ live_of is_video_thread (log s) = vthread_live s
      /\ read_thread_video s = option_map th_ptr (vthread s)).
Proof.
  apply (thread_lifetime Examples.ffmpeg Examples.av_s2).
  exact av_s2_reachable.
Defined.

Lemma thread_decoder_held_witness :
  let s := Examples.av_s2 in
  (forall p, thread_decoder (vthread s) = Some p ->
     exists d, vdec s = Some d /\ vd_ptr d = p
               /\ In (p, VideoDecoderObj (vd_id d)) (live (log s)))
  /\ (forall p, thread_decoder (athread s) = Some p ->
        exists d, adec s = Some d /\ ad_ptr d = p
                  /\ In (p, AudioDecoderObj) (live (log s))).
Proof.
  apply (thread_decoder_held Examples.ffmpeg Examples.av_s2).
  exact av_s2_reachable.
Defined.

Lemma setupVideoThread_thread_witness :
  let w := Examples.world_filtered in
  let s := Examples.av_s0 in
  let s' := Examples.av_s1 in
  match vthread s with
  | Some t =>
      exists t', vthread s' = Some t' /\ th_ptr t' = th_ptr t
                 /\ th_filters t' = th_filters t /\ th_packets t' = []
  | None =>
      if true then
        exists t', vthread s' = Some t' /\ th_filters t' = videoFilters w
                   /\ th_packets t' = []
      else vthread s' = None
  end.
Proof.
  apply (setupVideoThread_thread Examples.world_filtered Examples.av_s0 true
           Examples.av_s1).
  vm_compute; reflexivity.
Defined.

Lemma setupAudioThread_thread_witness :
  let w := Examples.world_filtered in
  let s := Examples.av_s1 in
  let s' := Examples.av_s2 in
  match athread s with
  | Some t =>
      exists t', athread s' = Some t' /\ th_ptr t' = th_ptr t
                 /\ th_filters t' = th_filters t /\ th_packets t' = []
  | None =>
      if true then
        exists t', athread s' = Some t' /\ th_filters t' = audioFilters w
                   /\ th_packets t' = []
      else athread s' = None
  end.
Proof.
  apply (setupAudioThread_thread Examples.ffmpeg Examples.world_filtered
           Examples.av_s1 true Examples.av_s2).
  vm_compute; reflexivity.
Defined.

Lemma setupVideoThread_keeps_audio_witness :
  let s := Examples.av_s2 in
  let s' := Examples.after (setupVideoThread Examples.world_ABC s) s in
  ao s' = ao s /\ adec s' = adec s /\ athread s' = athread s
  /\ read_thread_audio s' = read_thread_audio s
  /\ audio_part (statistics s') = audio_part (statistics s)
  /\ clock s' = clock s
  /\ vc_ids s' = vc_ids s /\ ao_ids s' = ao_ids s
  /\ ao_enabled s' = ao_enabled s.
Proof.
  apply (setupVideoThread_keeps_audio Examples.world_ABC Examples.av_s2 true).
  vm_compute; reflexivity.
Defined.

Lemma setupAudioThread_keeps_video_witness :
  let s := Examples.av_s1 in
  let s' := Examples.av_s2 in
  vdec s' = vdec s /\ vthread s' = vthread s
  /\ read_thread_video s' = read_thread_video s
  /\ video_part (statistics s') = video_part (statistics s)
  /\ clock s' = clock s
  /\ vc_ids s' = vc_ids s /\ ao_ids s' = ao_ids s
  /\ ao_enabled s' = ao_enabled s.
Proof.
  apply (setupAudioThread_keeps_video Examples.ffmpeg Examples.world_filtered
           Examples.av_s1 true Examples.av_s2).
  vm_compute; reflexivity.
Defined.

Lemma audio_output_reused_witness :
  let s := Examples.audio_s1 in
  let s' := Examples.audio_s2 in
  let dev := Examples.picky_at_44100 in
  requested_outputs (log s') = requested_outputs (log s)
  /\ (forall dev', ao s' = Some dev' ->
        ao_ptr dev' = ao_ptr dev /\ ao_id dev' = ao_id dev
        /\ ao_impl dev' = ao_impl dev)
  /\ (true = true ->
      exists dev', ao s' = Some dev'
                   /\ player_output (log s') = Some (Some (ao_ptr dev))).
Proof.
  apply (audio_output_reused Examples.ffmpeg Examples.world_picky
           Examples.audio_s1 Examples.picky_at_44100 true Examples.audio_s2).
  - vm_compute; reflexivity.
  - vm_compute; reflexivity.
Defined.



Lemma audio_output_ownership_witness :
  let s := Examples.av_s2 in
  (forall h, earlier h (log s) ->
     (length (live_of is_audio_output h) <= 1)%nat)
  /\ live_of is_audio_output (log s) = output_live s.
Proof.
  apply (audio_output_ownership Examples.ffmpeg Examples.av_s2).
  exact av_s2_reachable.
Defined.

Lemma history_well_addressed_witness :
  let s := Examples.av_s2 in
  well_addressed (log s) = true
  /\ forall h e, earlier (e :: h) (log s) ->
       match e with
       | On p c =>
           alive p h = true
           /\ match c with
              | setDecoder d | setOutput d => alive_opt d h = true
              | _ => True
              end
       | Delete p => alive p h = true
       | PlayerSetAudioOutput o => alive_opt o h = true
       | _ => True
       end.
Proof.
  apply (history_well_addressed Examples.ffmpeg Examples.av_s2).
  exact av_s2_reachable.
Defined.

Lemma Private_destroy_frees_witness :
  let s := Examples.av_s2 in
  let h := mkHanded true true false true true in
  let s' := fst (Private_destroy s h) in
  let h' := fst (snd (Private_destroy s h)) in
  let ev := snd (snd (Private_destroy s h)) in
  (ao s' = None /\ adec s' = None /\ vdec s' = None)
  /\ live_of is_decoder_or_output (log s') = []
  /\ (forall x, In x (live (log s')) <->
                In x (athread_live s ++ vthread_live s))
  /\ well_addressed (log s') = true
  /\ (forall m, member h' m = false)
  /\ (forall m, In (DeleteMember m) ev <-> member h m = true)
  /\ NoDup ev.
Proof.
  apply (Private_destroy_frees Examples.ffmpeg Examples.av_s2).
  exact av_s2_reachable.
Defined.

Lemma negotiated_supported_witness :
  isSupported Examples.mono_device
    (negotiated_format Examples.mono_device Examples.surround_ctx) = true.
Proof.
  apply (negotiated_supported Examples.mono_device).
  - intros af. reflexivity.
  - reflexivity.
  - reflexivity.
Defined.

Lemma queue_sizing_rational_witness :
  queue_sizing (av_q2d (mkAVRational 30000 0)) = None
  <-> den (mkAVRational 30000 0) = 0 /\ 0 < num (mkAVRational 30000 0).
Proof.
  apply (queue_sizing_rational (mkAVRational 30000 0)); reflexivity.
Defined.

Lemma computeNotifyPrecision_frame_rate_witness :
  (PrimFloat.leb 50 60 = true ->
   Internal.computeNotifyPrecision 10000 60 = Some 20)
  /\ (PrimFloat.ltb 1 60 = true -> PrimFloat.leb 60 4 = true ->
      Internal.computeNotifyPrecision 10000 60 = Some 250)
  /\ (PrimFloat.ltb 1 60 = false ->
      Internal.computeNotifyPrecision 10000 60
      = Some (Z.max 20 (10000 / 80))
      /\ 10000 / 80 <= 250).
Proof.
  apply (computeNotifyPrecision_frame_rate 10000 60). lia.
Defined.

Lemma setupVideoThread_queue_sizes_witness :
  exists t,
    vthread Examples.av_s1 = Some t
    /\ queue_sizing (video_only_frame_rate (statistics Examples.av_s1))
       = Some (th_threshold t, th_capacity t)
    /\ 0 < th_threshold t < th_capacity t.
Proof.
  apply (setupVideoThread_queue_sizes Examples.world_filtered Examples.av_s0
           Examples.av_s1).
  vm_compute; reflexivity.
Defined.

Lemma setupAudioThread_queue_sizes_witness :
  exists t,
    athread Examples.av_s2 = Some t
    /\ queue_sizing (video_only_frame_rate (statistics Examples.av_s2))
       = Some (th_threshold t, th_capacity t)
    /\ 0 < th_threshold t < th_capacity t.
Proof.
  apply (setupAudioThread_queue_sizes Examples.ffmpeg Examples.world_filtered
           Examples.av_s1 Examples.av_s2).
  vm_compute; reflexivity.
Defined.

Lemma setupVideoThread_selects_witness :
  true = true
  /\ exists p,
      vdec Examples.video_s1 = Some (mkVideoDecoder p Examples.decoder_B)
      /\ thread_decoder (vthread Examples.video_s1) = Some p.
Proof.
  apply (setupVideoThread_selects Examples.world_ABC [Examples.decoder_A]
           Examples.decoder_B [Examples.decoder_C] Examples.video_s0
           Examples.a_video_stream true Examples.video_s1).
  - reflexivity.
  - reflexivity.
  - intros c [<- | []]. reflexivity.
  - reflexivity.
  - vm_compute; reflexivity.
Defined.

Lemma audio_decoder_not_found_witness :
  let s := Examples.audio_s0 in
  exists s',
    setupAudioThread Examples.ffmpeg Examples.world_no_audio_decoder s
    = Some (false, s')
    /\ adec s' = Some (mkAudioDecoder (next_ptr s) false)
    /\ thread_decoder (athread s') = None
    /\ emitted (log s') = AudioCodecNotFound :: emitted (log s).
Proof.
  apply (audio_decoder_not_found Examples.ffmpeg
           Examples.world_no_audio_decoder Examples.audio_s0).
  - discriminate.
  - reflexivity.
Defined.

Lemma setupVideoThread_undefined_witness :
  setupVideoThread Examples.world_ABC Examples.video_s1_rate_over_zero = None.
Proof.
  apply (setupVideoThread_undefined Examples.world_ABC
           Examples.video_s1_rate_over_zero).
  - discriminate.
  - exists Examples.decoder_B.
    split; [vm_compute; right; left; reflexivity | reflexivity].
  - vm_compute; reflexivity.
Defined.
